(** * WinShot: clipboard DIB decoder and overlay compositor

    A shallow embedding of
      - [internal/screenshot/clipboard.go]  (GetClipboardImage)
      - [internal/overlay/draw.go]          (DrawOverlay and its primitives)
      - [image/png], [writer.go]            (the pixels [png.Encode] writes)
    together with the properties of the decoder and of the compositor.

    Conventions.  The program targets windows/amd64: Go's [int] and
    [uintptr] are 64 bits wide.  Integers are modelled as [Z]; every place
    where the Go code can wrap around has the wrap written out.  Slices are
    lists with bounds-checked access: an index out of range is Go's run-time
    panic and is modelled by [None]. *)

From Stdlib Require Import ZArith Lia List Bool String Ascii.
From Stdlib Require Import Floats.SpecFloat.
From stdpp Require Import base list pretty.

Local Open Scope Z_scope.

(** ** Machine integers *)

Module GoInt.

Definition uintptr (z : Z) : Z := z mod 2 ^ 64.
Definition uint32 (z : Z) : Z := z mod 2 ^ 32.
Definition uint16 (z : Z) : Z := z mod 2 ^ 16.
Definition uint8 (z : Z) : Z := z mod 2 ^ 8.

(** Reinterpretation of a 32-bit pattern as a signed [int32]. *)
Definition int32 (z : Z) : Z :=
  let u := uint32 z in if u <? 2 ^ 31 then u else u - 2 ^ 32.

(** Two's complement [int] (64 bits). *)
Definition int (z : Z) : Z :=
  let u := uintptr z in if u <? 2 ^ 63 then u else u - 2 ^ 64.

Definition maxInt : Z := 2 ^ 63 - 1.
Definition minInt : Z := - 2 ^ 63.

End GoInt.

(** ** Loops and slices *)

(** [for i := lo; i < hi; i++ { body }] over a state [S]; the body may
    panic ([None]), which ends the loop. *)
Fixpoint loopFrom {S : Type} (n : nat) (i : Z) (body : Z -> S -> option S)
    (s : S) : option S :=
  match n with
  | O => Some s
  | Datatypes.S n' =>
      match body i s with
      | Some s' => loopFrom n' (i + 1) body s'
      | None => None
      end
  end.

Definition forLoop {S : Type} (lo hi : Z) (body : Z -> S -> option S)
    (s : S) : option S :=
  loopFrom (Z.to_nat (hi - lo)) lo body s.

(** [s[i] = v] on a Go slice: panics when [i] is out of range. *)
Definition sliceSet (s : list Z) (i : Z) (v : Z) : option (list Z) :=
  if (0 <=? i) && (i <? Z.of_nat (length s))
  then Some (<[Z.to_nat i := v]> s)
  else None.

(** [s[i]] on a Go slice: panics when [i] is out of range. *)
Definition sliceGet (s : list Z) (i : Z) : option Z :=
  if 0 <=? i then s !! Z.to_nat i else None.

(** ** The image package: [image.RGBA] *)

Module image.

Record Rectangle := {
  MinX : Z; MinY : Z;
  MaxX : Z; MaxY : Z
}.

Definition Dx (r : Rectangle) : Z := MaxX r - MinX r.
Definition Dy (r : Rectangle) : Z := MaxY r - MinY r.

(** [image.Rect(x0, y0, x1, y1)]: the corners are put in order. *)
Definition Rect (x0 y0 x1 y1 : Z) : Rectangle :=
  {| MinX := Z.min x0 x1; MinY := Z.min y0 y1;
     MaxX := Z.max x0 x1; MaxY := Z.max y0 y1 |}.

Record RGBA := {
  Pix : list Z;
  Stride : Z;
  Bounds : Rectangle
}.

(** The most bytes [make] accepts on a 64-bit target
    ([runtime.maxAlloc], 48 address bits). *)
Definition maxAlloc : Z := 2 ^ 48.

(** [image.NewRGBA(r)] allocates 4*Dx*Dy zero bytes.  It panics
    ("Rectangle has huge or negative dimensions") when that product is
    negative or does not fit an [int], and the [make] inside it panics
    ("makeslice: len out of range") when the product exceeds
    [maxAlloc].  Both panics are [None].  Below that bound the runtime
    can still end the program when the machine does not have the
    memory; that depends on the machine and has no counterpart here, so
    what is stated of a call that allocates either bounds the image by
    the size cap of the clipboard or speaks of calls that return. *)
Definition NewRGBA (r : Rectangle) : option RGBA :=
  let w := Dx r in
  let h := Dy r in
  if (w <? 0) || (h <? 0) || (GoInt.maxInt <? 4 * w * h)
     || (maxAlloc <? 4 * w * h)
  then None
  else Some {| Pix := replicate (Z.to_nat (4 * w * h)) 0;
               Stride := 4 * w;
               Bounds := r |}.

(** Every value built by the image package keeps this invariant: the
    pixel slice reaches the last byte of the last row (and, as any
    slice, its length is an [int]). *)
Definition wellFormed (m : RGBA) : Prop :=
  0 <= Stride m /\
  Z.of_nat (length (Pix m)) <= GoInt.maxInt /\
  (0 < Dx (Bounds m) -> 0 < Dy (Bounds m) ->
   (Dy (Bounds m) - 1) * Stride m + 4 * Dx (Bounds m)
     <= Z.of_nat (length (Pix m))).

End image.

(** ** Package screenshot: the clipboard decoder *)

Module screenshot.

Import GoInt.

Definition CF_DIB : Z := 8.
Definition maxClipboardSize : Z := 100 * 1024 * 1024.

(** What the Win32 calls of one [GetClipboardImage] invocation return,
    and the process memory the locked pointer gives access to.  The
    memory is total: a read through an unsafe pointer is not checked, it
    returns whatever byte lives at the address, inside the clipboard
    block or not.  The block itself is [ptr, ptr + size).  A read of an
    address that is not mapped ends the program with a fault; the model
    does not tell mapped from unmapped addresses, so a result that
    reads outside the block stands for a read of whatever is there. *)
Record Clipboard := {
  isClipboardFormatAvailable : Z;   (* IsClipboardFormatAvailable(CF_DIB) *)
  openClipboard : Z;                (* OpenClipboard(0) *)
  getClipboardData : Z;             (* GetClipboardData(CF_DIB) *)
  globalLock : Z;                   (* GlobalLock(hData) *)
  globalSize : Z;                   (* GlobalSize(hData) *)
  memory : Z -> Z
}.

(** A byte read through an unsafe pointer at [addr]. *)
Definition loadByte (mem : Z -> Z) (addr : Z) : Z :=
  uint8 (mem (uintptr addr)).

(** Little-endian loads, as the struct overlay performs them on x86. *)
Definition loadU16 (mem : Z -> Z) (addr : Z) : Z :=
  loadByte mem addr + 2 ^ 8 * loadByte mem (addr + 1).

Definition loadU32 (mem : Z -> Z) (addr : Z) : Z :=
  loadU16 mem addr + 2 ^ 16 * loadU16 mem (addr + 2).

Definition loadI32 (mem : Z -> Z) (addr : Z) : Z :=
  int32 (loadU32 mem addr).

Record BITMAPINFOHEADER := {
  BiSize : Z;
  BiWidth : Z;
  BiHeight : Z;
  BiPlanes : Z;
  BiBitCount : Z;
  BiCompression : Z;
  BiSizeImage : Z;
  BiXPelsPerMeter : Z;
  BiYPelsPerMeter : Z;
  BiClrUsed : Z;
  BiClrImportant : Z
}.

(** The header struct overlaid on the memory at [ptr]. *)
Definition headerAt (mem : Z -> Z) (ptr : Z) : BITMAPINFOHEADER :=
  {| BiSize := loadU32 mem ptr;
     BiWidth := loadI32 mem (ptr + 4);
     BiHeight := loadI32 mem (ptr + 8);
     BiPlanes := loadU16 mem (ptr + 12);
     BiBitCount := loadU16 mem (ptr + 14);
     BiCompression := loadU32 mem (ptr + 16);
     BiSizeImage := loadU32 mem (ptr + 20);
     BiXPelsPerMeter := loadI32 mem (ptr + 24);
     BiYPelsPerMeter := loadI32 mem (ptr + 28);
     BiClrUsed := loadU32 mem (ptr + 32);
     BiClrImportant := loadU32 mem (ptr + 36) |}.

(** The error values of [GetClipboardImage].  [ErrNoImageInClipboard] is
    the package-level variable; the others are the [errors.New] values
    built at each return site. *)
Inductive error :=
| ErrNoImageInClipboard
| ErrOpenClipboard          (* "failed to open clipboard" *)
| ErrLockData               (* "failed to lock clipboard data" *)
| ErrDataSize               (* "failed to get clipboard data size" *)
| ErrTooLarge               (* "clipboard image too large" *)
| ErrInvalidDimensions      (* "invalid image dimensions in clipboard" *)
| ErrInvalidLayout          (* "... pixel data smaller than expected" *)
| ErrUnsupportedDepth.      (* "unsupported bit depth: ..." *)

Inductive outcome (A : Type) :=
| Ok (a : A)
| Err (e : error)
| Panic.
Arguments Ok {A} a.
Arguments Err {A} e.
Arguments Panic {A}.

(** The decoded image.  [Data] holds the bytes of [img.Pix], the RGBA
    buffer the conversion loops fill, as it is handed to [png.Encode].
    The Go code returns the base64 text of the PNG file in its place;
    the pixels of that PNG are [png.Encode] of these bytes, and they
    differ from them wherever the alpha is not 255. *)
Record CaptureResult := {
  Width : Z;
  Height : Z;
  Data : list Z
}.

(** The four stores of one converted pixel,
    [img.Pix[base+0..3] = r, g, b, a]. *)
Definition storePixel (pix : list Z) (base : Z) (rgba : Z * Z * Z * Z)
    : option (list Z) :=
  let '(r, g, b, a) := rgba in
  pix ← sliceSet pix (base + 0) r;
  pix ← sliceSet pix (base + 1) g;
  pix ← sliceSet pix (base + 2) b;
  sliceSet pix (base + 3) a.

(** The source pixel of the [case 24] loop body at [pixelAddr]. *)
Definition pixel24 (mem : Z -> Z) (pixelAddr : Z) : Z * Z * Z * Z :=
  let b := loadByte mem pixelAddr in
  let g := loadByte mem (pixelAddr + 1) in
  let r := loadByte mem (pixelAddr + 2) in
  (r, g, b, 255).

(** The source pixel of the [case 32] loop body at [pixelAddr]. *)
Definition pixel32 (mem : Z -> Z) (pixelAddr : Z) : Z * Z * Z * Z :=
  let b := loadByte mem pixelAddr in
  let g := loadByte mem (pixelAddr + 1) in
  let r := loadByte mem (pixelAddr + 2) in
  let a := loadByte mem (pixelAddr + 3) in
  let a := if a =? 0 then 255 else a in
  (r, g, b, a).

(** Address of source pixel [x] of logical row [y]. *)
Definition pixelAddrOf (pixelPtr rowSize height : Z) (bottomUp : bool)
    (bytesPerPixel : Z) (y x : Z) : Z :=
  let srcY := if bottomUp then height - 1 - y else y in
  let rowPtr := uintptr (pixelPtr + uintptr (srcY * rowSize)) in
  uintptr (rowPtr + uintptr (x * bytesPerPixel)).

(** The two nested [for] loops of a [switch] case. *)
Definition convertRows (mem : Z -> Z) (pixelPtr rowSize width height : Z)
    (bottomUp : bool) (bytesPerPixel : Z)
    (pixel : (Z -> Z) -> Z -> Z * Z * Z * Z) (pix : list Z)
    : option (list Z) :=
  forLoop 0 height (fun y pix =>
    forLoop 0 width (fun x pix =>
      let pixelAddr :=
        pixelAddrOf pixelPtr rowSize height bottomUp bytesPerPixel y x in
      storePixel pix ((y * width + x) * 4) (pixel mem pixelAddr)) pix) pix.

(** [if height < 0 { height = -height }] *)
Definition absHeight (height : Z) : Z :=
  if height <? 0 then - height else height.

(** The pixel data offset: the header size, plus the colour table for
    depths of 8 bits or less.  [header.BiClrUsed * 4] is a [uint32]
    product. *)
Definition pixelOffsetOf (header : BITMAPINFOHEADER) : Z :=
  let bitCount := BiBitCount header in
  let pixelOffset := uintptr (BiSize header) in
  if bitCount <=? 8 then
    let colorTableSize := uintptr (uintptr (Z.shiftl 1 bitCount) * 4) in
    let colorTableSize :=
      if 0 <? BiClrUsed header
      then uintptr (uint32 (BiClrUsed header * 4))
      else colorTableSize in
    uintptr (pixelOffset + colorTableSize)
  else pixelOffset.

(** [rowSize := ((width*bitCount + 31) / 32) * 4] *)
Definition rowSizeOf (width bitCount : Z) : Z :=
  Z.quot (width * bitCount + 31) 32 * 4.

(** The bounds validation, [dataSize < expectedSize], on [uintptr]:
    both the difference and the product wrap around. *)
Definition layoutTooSmall (size pixelOffset rowSize height : Z) : bool :=
  let expectedSize := uintptr (rowSize * height) in
  let dataSize := uintptr (size - pixelOffset) in
  dataSize <? expectedSize.

(** [GetClipboardImage] as far as the image it has built: the checks,
    the allocation and the conversion loops, with the width and the
    height of the result.  [Ok] carries the image that goes to
    [png.Encode]; see [CaptureResult]. *)
Definition GetClipboardImage (c : Clipboard) : outcome CaptureResult :=
  if isClipboardFormatAvailable c =? 0 then Err ErrNoImageInClipboard else
  if openClipboard c =? 0 then Err ErrOpenClipboard else
  let hData := getClipboardData c in
  if hData =? 0 then Err ErrNoImageInClipboard else
  let ptr := globalLock c in
  if ptr =? 0 then Err ErrLockData else
  let size := globalSize c in
  if size =? 0 then Err ErrDataSize else
  if maxClipboardSize <? size then Err ErrTooLarge else
  let mem := memory c in
  let header := headerAt mem ptr in
  let width := BiWidth header in
  let height := BiHeight header in
  let bitCount := BiBitCount header in
  let bottomUp := 0 <? height in
  let height := absHeight height in
  if (width <=? 0) || (height <=? 0) then Err ErrInvalidDimensions else
  let pixelOffset := pixelOffsetOf header in
  let pixelPtr := uintptr (ptr + pixelOffset) in
  match image.NewRGBA (image.Rect 0 0 width height) with
  | None => Panic
  | Some img =>
      let rowSize := rowSizeOf width bitCount in
      if layoutTooSmall size pixelOffset rowSize height
      then Err ErrInvalidLayout else
      let converted :=
        if bitCount =? 24 then
          Some (convertRows mem pixelPtr rowSize width height bottomUp 3
                  pixel24 (image.Pix img))
        else if bitCount =? 32 then
          Some (convertRows mem pixelPtr rowSize width height bottomUp 4
                  pixel32 (image.Pix img))
        else None in
      match converted with
      | None => Err ErrUnsupportedDepth
      | Some None => Panic
      | Some (Some pix) =>
          Ok {| Width := width; Height := height; Data := pix |}
      end
  end.

(** *** Names for what one invocation computes *)

Definition header (c : Clipboard) : BITMAPINFOHEADER :=
  headerAt (memory c) (globalLock c).
Definition imageWidth (c : Clipboard) : Z := BiWidth (header c).
Definition imageHeight (c : Clipboard) : Z := absHeight (BiHeight (header c)).
Definition bitDepth (c : Clipboard) : Z := BiBitCount (header c).
Definition bottomUp (c : Clipboard) : bool := 0 <? BiHeight (header c).
Definition pixelOffset (c : Clipboard) : Z := pixelOffsetOf (header c).
Definition rowSize (c : Clipboard) : Z :=
  rowSizeOf (imageWidth c) (bitDepth c).

(** The address the loops read source pixel [x] of logical row [y]
    from, for pixels of [bytesPerPixel] bytes. *)
Definition sourceAddr (c : Clipboard) (bytesPerPixel : Z) (y x : Z) : Z :=
  pixelAddrOf (uintptr (globalLock c + pixelOffset c)) (rowSize c)
    (imageHeight c) (bottomUp c) bytesPerPixel y x.

(** Every Win32 call succeeds and the size is within the cap: the
    decoder gets as far as parsing the header. *)
Definition delivered (c : Clipboard) : Prop :=
  isClipboardFormatAvailable c <> 0 /\
  openClipboard c <> 0 /\
  getClipboardData c <> 0 /\
  globalLock c <> 0 /\
  globalSize c <> 0 /\
  globalSize c <= maxClipboardSize.

(** The byte at offset [off] of the clipboard block. *)
Definition stored (c : Clipboard) (off : Z) : Z :=
  loadByte (memory c) (globalLock c + off).

End screenshot.

(** ** Concrete clipboard contents, for evaluating the decoder *)

Module fixture.

Import screenshot.

(** Little-endian bytes of a 16-bit and of a 32-bit field. *)
Definition le16 (v : Z) : list Z :=
  [GoInt.uint8 v; GoInt.uint8 (Z.shiftr v 8)].
Definition le32 (v : Z) : list Z :=
  le16 v ++ le16 (Z.shiftr v 16).

(** The 40 bytes of a BITMAPINFOHEADER. *)
Definition headerBytes (h : BITMAPINFOHEADER) : list Z :=
  le32 (BiSize h) ++ le32 (BiWidth h) ++ le32 (BiHeight h) ++
  le16 (BiPlanes h) ++ le16 (BiBitCount h) ++
  le32 (BiCompression h) ++ le32 (BiSizeImage h) ++
  le32 (BiXPelsPerMeter h) ++ le32 (BiYPelsPerMeter h) ++
  le32 (BiClrUsed h) ++ le32 (BiClrImportant h).

(** A plain header: one plane, no compression, no colour table. *)
Definition plainHeader (size width height bitCount : Z)
    : BITMAPINFOHEADER :=
  {| BiSize := size; BiWidth := width; BiHeight := height;
     BiPlanes := 1; BiBitCount := bitCount;
     BiCompression := 0; BiSizeImage := 0;
     BiXPelsPerMeter := 0; BiYPelsPerMeter := 0;
     BiClrUsed := 0; BiClrImportant := 0 |}.

(** Memory holding [bytes] from address [base] on and [fill] at every
    other address. *)
Definition memoryOf (base : Z) (bytes : list Z) (fill : Z) : Z -> Z :=
  fun addr =>
    if (base <=? addr) && (addr <? base + Z.of_nat (length bytes))
    then nth (Z.to_nat (addr - base)) bytes fill
    else fill.

(** A clipboard on which every Win32 call succeeds and whose block of
    [size] bytes at [ptr] starts with [bytes]. *)
Definition clipboardOf (ptr size : Z) (bytes : list Z) (fill : Z)
    : Clipboard :=
  {| isClipboardFormatAvailable := 1;
     openClipboard := 1;
     getClipboardData := 7;
     globalLock := ptr;
     globalSize := size;
     memory := memoryOf ptr bytes fill |}.

End fixture.

(** ** float64 arithmetic

    IEEE 754 binary64 with round-to-nearest-even, computed exactly on the
    integer representation of [SpecFloat]. *)

Module f64.

Definition prec : Z := 53.
Definition emax : Z := 1024.

(** [float64(n)] for an integer [n]. *)
Definition ofInt (n : Z) : spec_float := binary_normalize prec emax n 0 false.

Definition mul : spec_float -> spec_float -> spec_float := SFmul prec emax.
Definition div : spec_float -> spec_float -> spec_float := SFdiv prec emax.

(** The integer part of a finite float (rounding toward zero): the
    mantissa shifted by the exponent. *)
Definition trunc (x : spec_float) : option Z :=
  match x with
  | S754_zero _ => Some 0
  | S754_finite s m e =>
      let v := if 0 <=? e then Z.shiftl (Z.pos m) e
               else Z.shiftr (Z.pos m) (- e) in
      Some (if s then - v else v)
  | _ => None
  end.

(** [uint32(x)]: truncation when the value fits; otherwise the result is
    implementation-dependent and amd64 yields the low 32 bits of the
    64-bit conversion, whose out-of-range result is [minInt]. *)
Definition toUint32 (x : spec_float) : Z :=
  match trunc x with
  | Some v =>
      if (GoInt.minInt <=? v) && (v <=? GoInt.maxInt) then GoInt.uint32 v
      else GoInt.uint32 GoInt.minInt
  | None => GoInt.uint32 GoInt.minInt
  end.

(** [int(x)]: truncation when the value fits, [minInt] otherwise
    (amd64). *)
Definition toInt (x : spec_float) : Z :=
  match trunc x with
  | Some v =>
      if (GoInt.minInt <=? v) && (v <=? GoInt.maxInt) then v
      else GoInt.minInt
  | None => GoInt.minInt
  end.

End f64.

(** ** Package overlay: the frame compositor *)

Module overlay.

Import GoInt.

(** Wrapping [int] arithmetic. *)
Definition addi (a b : Z) : Z := int (a + b).
Definition subi (a b : Z) : Z := int (a - b).
Definition muli (a b : Z) : Z := int (a * b).
Infix "+i" := addi (at level 50, left associativity).
Infix "-i" := subi (at level 50, left associativity).
Infix "*i" := muli (at level 40, left associativity).

Definition minInt (a b : Z) : Z := if a <? b then a else b.
Definition maxInt (a b : Z) : Z := if b <? a then a else b.

(** The drawing context.  [pixels] is the memory of the DIB section the
    context owns, one packed 32-bit pixel per entry; the GDI handles
    play no part in drawing. *)
Record DrawContext := {
  pixels : list Z;
  width : Z;
  height : Z
}.

Record Selection := {
  StartX : Z; StartY : Z;
  EndX : Z; EndY : Z;
  IsDragging : bool;
  SpaceHeld : bool
}.

(** The invariant [NewDrawContext] establishes: the DIB section holds
    exactly [width * height] pixels ([width] and [height] are [int]
    fields, and so is the pixel count). *)
Definition validContext (dc : DrawContext) : Prop :=
  0 <= width dc <= GoInt.maxInt /\ 0 <= height dc <= GoInt.maxInt /\
  width dc * height dc <= GoInt.maxInt /\
  Z.of_nat (length (pixels dc)) = width dc * height dc.

Definition setPixels (dc : DrawContext) (px : list Z) : DrawContext :=
  {| pixels := px; width := width dc; height := height dc |}.

(** [pixelCount := dc.width * dc.height] and the length check of
    [unsafe.Slice], which panics on a negative length. *)
Definition pixelCount (dc : DrawContext) : Z := width dc *i height dc.

Definition unsafeSlice (dc : DrawContext) : option Z :=
  if pixelCount dc <? 0 then None else Some (pixelCount dc).

(** [pixels[i] = v] on the slice of [n] pixels laid over the DIB memory:
    Go panics outside [0, n); a store beyond the memory the context owns
    is refused as well. *)
Definition store (n : Z) (px : list Z) (i v : Z) : option (list Z) :=
  if (0 <=? i) && (i <? n) then sliceSet px i v else None.

(** The guarded store every shape and text routine performs:
    [if px >= 0 && px < dc.width && py >= 0 && py < dc.height
       { pixels[py*dc.width+px] = color }]. *)
Definition plot (dc : DrawContext) (n : Z) (px : list Z) (x y color : Z)
    : option (list Z) :=
  if (0 <=? x) && (x <? width dc) && (0 <=? y) && (y <? height dc)
  then store n px (y *i width dc +i x) color
  else Some px.

(** [(a << 24) | (r << 16) | (g << 8) | b] on [uint32]. *)
Definition pack (a r g b : Z) : Z :=
  Z.lor (Z.lor (Z.lor (uint32 (Z.shiftl a 24)) (uint32 (Z.shiftl r 16)))
               (uint32 (Z.shiftl g 8))) b.

Definition blue : Z := pack 255 0 120 215.
Definition white : Z := pack 255 255 255 255.

Fixpoint forEach {A S : Type} (l : list A) (body : A -> S -> option S)
    (s : S) : option S :=
  match l with
  | [] => Some s
  | a :: l' =>
      match body a s with
      | Some s' => forEach l' body s'
      | None => None
      end
  end.

(** [for i, a := range l] starting at index [i]. *)
Fixpoint forEachFrom {A S : Type} (i : Z) (l : list A)
    (body : Z -> A -> S -> option S) (s : S) : option S :=
  match l with
  | [] => Some s
  | a :: l' =>
      match body i a s with
      | Some s' => forEachFrom (i + 1) l' body s'
      | None => None
      end
  end.

(** Pixel [(x, y)] of the screenshot as the blit packs it, alpha 255. *)
Definition sourcePixel (m : image.RGBA) (x y : Z) : option Z :=
  let srcIdx := y *i image.Stride m +i x *i 4 in
  r ← sliceGet (image.Pix m) srcIdx;
  g ← sliceGet (image.Pix m) (srcIdx +i 1);
  b ← sliceGet (image.Pix m) (srcIdx +i 2);
  Some (pack 255 (uint8 r) (uint8 g) (uint8 b)).

Definition drawScreenshot (dc : DrawContext) (screenshot : option image.RGBA)
    : option DrawContext :=
  match screenshot with
  | None => Some dc
  | Some m =>
      let srcWidth := image.Dx (image.Bounds m) in
      let srcHeight := image.Dy (image.Bounds m) in
      n ← unsafeSlice dc;
      px ← forLoop 0 (minInt srcHeight (height dc)) (fun y px =>
              forLoop 0 (minInt srcWidth (width dc)) (fun x px =>
                let dstIdx := y *i width dc +i x in
                v ← sourcePixel m x y;
                store n px dstIdx v) px) (pixels dc);
      Some (setPixels dc px)
  end.

(** [factor := float64(255-alpha) / 255.0] *)
Definition overlayFactor (alpha : Z) : spec_float :=
  f64.div (f64.ofInt (uint8 (255 - alpha))) (f64.ofInt 255).

(** One colour channel of [fillOverlay]: [uint32(float64(c) * factor)]. *)
Definition darkenChannel (alpha c : Z) : Z :=
  f64.toUint32 (f64.mul (f64.ofInt c) (overlayFactor alpha)).

(** The channels of a packed pixel: [(p >> 16) & 0xFF], [(p >> 8) & 0xFF]
    and [p & 0xFF]. *)
Definition redOf (p : Z) : Z := Z.land (Z.shiftr p 16) 255.
Definition greenOf (p : Z) : Z := Z.land (Z.shiftr p 8) 255.
Definition blueOf (p : Z) : Z := Z.land p 255.

Definition darkenPixel (alpha existing : Z) : Z :=
  let r := redOf existing in
  let g := greenOf existing in
  let b := blueOf existing in
  let r := darkenChannel alpha r in
  let g := darkenChannel alpha g in
  let b := darkenChannel alpha b in
  pack 255 r g b.

Definition fillOverlay (dc : DrawContext) (alpha : Z) : option DrawContext :=
  n ← unsafeSlice dc;
  px ← forLoop 0 n (fun i px =>
          existing ← (if i <? n then sliceGet px i else None);
          store n px i (darkenPixel alpha existing)) (pixels dc);
  Some (setPixels dc px).

Definition clearRegion (dc : DrawContext) (x y w h : Z)
    (screenshot : option image.RGBA) : option DrawContext :=
  match screenshot with
  | None => Some dc
  | Some m =>
      let srcWidth := image.Dx (image.Bounds m) in
      let srcHeight := image.Dy (image.Bounds m) in
      n ← unsafeSlice dc;
      px ← forLoop 0 h (fun dy px =>
              let py := y +i dy in
              if (py <? 0) || (height dc <=? py) || (srcHeight <=? py)
              then Some px
              else
                forLoop 0 w (fun dx px =>
                  let px_ := x +i dx in
                  if (px_ <? 0) || (width dc <=? px_) || (srcWidth <=? px_)
                  then Some px
                  else
                    let dstIdx := py *i width dc +i px_ in
                    v ← sourcePixel m px_ py;
                    store n px dstIdx v) px) (pixels dc);
      Some (setPixels dc px)
  end.

Definition drawSelectionBorder (dc : DrawContext) (x y w h : Z)
    : option DrawContext :=
  n ← unsafeSlice dc;
  px ← forLoop 0 2 (fun t px =>
          px ← forLoop x (x +i w) (fun p px =>
                  plot dc n px p (y +i t) blue) px;
          px ← forLoop x (x +i w) (fun p px =>
                  plot dc n px p (y +i h -i 1 -i t) blue) px;
          px ← forLoop y (y +i h) (fun p px =>
                  plot dc n px (x +i t) p blue) px;
          forLoop y (y +i h) (fun p px =>
            plot dc n px (x +i w -i 1 -i t) p blue) px) (pixels dc);
  Some (setPixels dc px).

Definition drawCornerHandles (dc : DrawContext) (x y w h : Z)
    : option DrawContext :=
  n ← unsafeSlice dc;
  let handleSize := 6 in
  let half := Z.quot handleSize 2 in
  let corners :=
    [ (x -i half, y -i half);
      (x +i w -i half, y -i half);
      (x -i half, y +i h -i half);
      (x +i w -i half, y +i h -i half) ] in
  px ← forEach corners (fun corner px =>
          forLoop 0 handleSize (fun dy px =>
            forLoop 0 handleSize (fun dx px =>
              plot dc n px (fst corner +i dx) (snd corner +i dy) blue) px) px)
        (pixels dc);
  Some (setPixels dc px).

(** The 5x7 bitmap font of [drawText]: one byte per glyph column. *)
Definition sizeFont : list (ascii * list Z) :=
  [ ("0"%char, [0x3E; 0x45; 0x49; 0x51; 0x3E]);
    ("1"%char, [0x00; 0x21; 0x7F; 0x01; 0x00]);
    ("2"%char, [0x27; 0x49; 0x49; 0x49; 0x31]);
    ("3"%char, [0x22; 0x49; 0x49; 0x49; 0x36]);
    ("4"%char, [0x0C; 0x14; 0x24; 0x7F; 0x04]);
    ("5"%char, [0x72; 0x51; 0x51; 0x51; 0x4E]);
    ("6"%char, [0x3E; 0x49; 0x49; 0x49; 0x26]);
    ("7"%char, [0x40; 0x40; 0x47; 0x48; 0x70]);
    ("8"%char, [0x36; 0x49; 0x49; 0x49; 0x36]);
    ("9"%char, [0x32; 0x49; 0x49; 0x49; 0x3E]);
    ("x"%char, [0x00; 0x14; 0x08; 0x14; 0x00]);
    (" "%char, [0x00; 0x00; 0x00; 0x00; 0x00]) ].

(** The extended font of [drawInstructionText]. *)
Definition instructionFont : list (ascii * list Z) :=
  [ ("0"%char, [0x3E; 0x45; 0x49; 0x51; 0x3E]);
    ("1"%char, [0x00; 0x21; 0x7F; 0x01; 0x00]);
    ("2"%char, [0x27; 0x49; 0x49; 0x49; 0x31]);
    ("3"%char, [0x22; 0x49; 0x49; 0x49; 0x36]);
    ("4"%char, [0x0C; 0x14; 0x24; 0x7F; 0x04]);
    ("5"%char, [0x72; 0x51; 0x51; 0x51; 0x4E]);
    ("6"%char, [0x3E; 0x49; 0x49; 0x49; 0x26]);
    ("7"%char, [0x40; 0x40; 0x47; 0x48; 0x70]);
    ("8"%char, [0x36; 0x49; 0x49; 0x49; 0x36]);
    ("9"%char, [0x32; 0x49; 0x49; 0x49; 0x3E]);
    ("A"%char, [0x3F; 0x48; 0x48; 0x48; 0x3F]);
    ("B"%char, [0x7F; 0x49; 0x49; 0x49; 0x36]);
    ("C"%char, [0x3E; 0x41; 0x41; 0x41; 0x22]);
    ("D"%char, [0x7F; 0x41; 0x41; 0x41; 0x3E]);
    ("E"%char, [0x7F; 0x49; 0x49; 0x49; 0x41]);
    ("S"%char, [0x32; 0x49; 0x49; 0x49; 0x26]);
    ("a"%char, [0x02; 0x15; 0x15; 0x15; 0x0F]);
    ("c"%char, [0x0E; 0x11; 0x11; 0x11; 0x0A]);
    ("d"%char, [0x0E; 0x11; 0x11; 0x11; 0x7F]);
    ("e"%char, [0x0E; 0x15; 0x15; 0x15; 0x0C]);
    ("g"%char, [0x08; 0x15; 0x15; 0x15; 0x1E]);
    ("h"%char, [0x7F; 0x08; 0x08; 0x08; 0x07]);
    ("i"%char, [0x00; 0x00; 0x2F; 0x00; 0x00]);
    ("l"%char, [0x00; 0x00; 0x7F; 0x00; 0x00]);
    ("m"%char, [0x1F; 0x10; 0x0E; 0x10; 0x0F]);
    ("n"%char, [0x1F; 0x08; 0x10; 0x10; 0x0F]);
    ("o"%char, [0x0E; 0x11; 0x11; 0x11; 0x0E]);
    ("p"%char, [0x1F; 0x14; 0x14; 0x14; 0x08]);
    ("r"%char, [0x1F; 0x08; 0x10; 0x10; 0x08]);
    ("s"%char, [0x09; 0x15; 0x15; 0x15; 0x12]);
    ("t"%char, [0x10; 0x7E; 0x11; 0x01; 0x02]);
    ("u"%char, [0x1E; 0x01; 0x01; 0x01; 0x1E]);
    ("v"%char, [0x18; 0x06; 0x01; 0x06; 0x18]);
    ("x"%char, [0x11; 0x0A; 0x04; 0x0A; 0x11]);
    (" "%char, [0x00; 0x00; 0x00; 0x00; 0x00]);
    ("."%char, [0x00; 0x01; 0x00; 0x00; 0x00]);
    ("+"%char, [0x04; 0x04; 0x1F; 0x04; 0x04]);
    ("H"%char, [0x7F; 0x08; 0x08; 0x08; 0x7F]);
    ("P"%char, [0x7F; 0x48; 0x48; 0x48; 0x30]) ].

(** [glyph, ok := font[ch]] *)
Fixpoint glyphOf (font : list (ascii * list Z)) (ch : ascii)
    : option (list Z) :=
  match font with
  | [] => None
  | (k, g) :: font' => if Ascii.eqb k ch then Some g else glyphOf font' ch
  end.

(** The columns and rows of one glyph at [curX]. *)
Definition drawGlyph (dc : DrawContext) (n : Z) (curX y : Z)
    (glyph : list Z) (px : list Z) : option (list Z) :=
  forEachFrom 0 glyph (fun col bits px =>
    forLoop 0 7 (fun row px =>
      if negb (Z.land bits (Z.shiftl 1 (6 - row)) =? 0)
      then plot dc n px (curX +i col) (y +i row) white
      else Some px) px) px.

(** The text loop shared by [drawText] and [drawInstructionText], which
    differ in their font table only: the state is the cursor [curX] and
    the pixels.  The texts drawn are ASCII (a formatted size and two
    fixed instructions), so the runes of [range text] are its bytes;
    what is stated of an arbitrary text is stated of ASCII text. *)
Definition drawRunes (font : list (ascii * list Z)) (dc : DrawContext)
    (n : Z) (x y : Z) (text : string) (px : list Z) : option (list Z) :=
  snd <$> forEach (list_ascii_of_string text) (fun ch st =>
    let '(curX, px) := st in
    match glyphOf font ch with
    | None => Some (curX +i 6, px)
    | Some glyph =>
        px ← drawGlyph dc n curX y glyph px;
        Some (curX +i 6, px)
    end) (x, px).

Definition drawText (dc : DrawContext) (n : Z) (x y : Z) (text : string)
    (px : list Z) : option (list Z) :=
  drawRunes sizeFont dc n x y text px.

Definition drawInstructionText (dc : DrawContext) (n : Z) (x y : Z)
    (text : string) (px : list Z) : option (list Z) :=
  drawRunes instructionFont dc n x y text px.

(** The background of a pill: [pillWidth] x [pillHeight] guarded
    stores. *)
Definition fillPill (dc : DrawContext) (n : Z)
    (pillX pillY pillWidth pillHeight color : Z) (px : list Z)
    : option (list Z) :=
  forLoop 0 pillHeight (fun dy px =>
    forLoop 0 pillWidth (fun dx px =>
      plot dc n px (pillX +i dx) (pillY +i dy) color) px) px.

(** [len(text)] *)
Definition len (text : string) : Z := Z.of_nat (String.length text).

Definition drawSizeIndicator (dc : DrawContext) (x y w h : Z)
    : option DrawContext :=
  n ← unsafeSlice dc;
  (* fmt.Sprintf("%d x %d", w, h) *)
  let text := (pretty w ++ " x " ++ pretty h)%string in
  let textWidth := len text *i 7 in
  let pillWidth := textWidth +i 16 in
  let pillHeight := 20 in
  let pillX := x in
  let pillY := y in
  let pillY :=
    if height dc <=? pillY +i pillHeight then y -i pillHeight -i 8
    else pillY in
  let pillX :=
    if width dc <=? pillX +i pillWidth then width dc -i pillWidth -i 4
    else pillX in
  let pillX := if pillX <? 0 then 4 else pillX in
  px ← fillPill dc n pillX pillY pillWidth pillHeight blue (pixels dc);
  px ← drawText dc n (pillX +i 8) (pillY +i 4) text px;
  Some (setPixels dc px).

Definition drawInstructions (dc : DrawContext) (sel : Selection)
    : option DrawContext :=
  n ← unsafeSlice dc;
  let text :=
    if IsDragging sel && SpaceHeld sel
    then "Hold Space + Drag to reposition"%string
    else "Drag to select. Space to move. ESC cancel"%string in
  let textWidth := len text *i 7 in
  let pillWidth := textWidth +i 20 in
  let pillHeight := 24 in
  let pillX := Z.quot (width dc -i pillWidth) 2 in
  let pillY := 16 in
  let bgColor := pack 220 0 0 0 in
  px ← fillPill dc n pillX pillY pillWidth pillHeight bgColor (pixels dc);
  px ← drawInstructionText dc n (pillX +i 10) (pillY +i 6) text px;
  Some (setPixels dc px).

Definition DrawOverlay (dc : DrawContext) (screenshot : option image.RGBA)
    (sel : Selection) (scaleRatio : spec_float) : option DrawContext :=
  dc ← drawScreenshot dc screenshot;
  dc ← fillOverlay dc 128;
  dc ← (if IsDragging sel then
          let x1 := minInt (StartX sel) (EndX sel) in
          let y1 := minInt (StartY sel) (EndY sel) in
          let x2 := maxInt (StartX sel) (EndX sel) in
          let y2 := maxInt (StartY sel) (EndY sel) in
          let w := x2 -i x1 in
          let h := y2 -i y1 in
          dc ← clearRegion dc x1 y1 w h screenshot;
          dc ← drawSelectionBorder dc x1 y1 w h;
          dc ← drawCornerHandles dc x1 y1 w h;
          let scaledW := f64.toInt (f64.mul (f64.ofInt w) scaleRatio) in
          let scaledH := f64.toInt (f64.mul (f64.ofInt h) scaleRatio) in
          drawSizeIndicator dc x1 (y2 +i 8) scaledW scaledH
        else Some dc);
  drawInstructions dc sel.

End overlay.

(** ** Package image/png: the pixels of an encoded [*image.RGBA] (writer.go) *)

Module png.

Import GoInt.

(** A colour channel [v] of a pixel of alpha [a], as [png.Encode] writes
    it when [a] is neither 0 nor 255: [image.RGBA] is alpha-premultiplied
    by contract, a PNG is not, and the encoder divides by the alpha.
    [m := 0x101 * 0xffff], [a := uint32(s[3]) * 0x101] and
    [uint8((uint32(s[0]) * m / a) >> 8)], which is what
    [color.NRGBAModel.Convert] computes. *)
Definition unpremultiply (v a : Z) : Z :=
  let m := 0x101 * 0xffff in
  let a := uint32 (a * 0x101) in
  uint8 (Z.shiftr (uint32 (v * m) / a) 8).

(** One pixel of the PNG: nothing for alpha 0, a copy for alpha 255. *)
Definition encodePixel (r g b a : Z) : list Z :=
  if a =? 0 then [0; 0; 0; 0]
  else if a =? 255 then [r; g; b; a]
  else [unpremultiply r a; unpremultiply g a; unpremultiply b a; a].

(** The pixels of the PNG that [png.Encode(&buf, img)] writes for the
    [*image.RGBA] whose [Pix] is [pix]: four bytes a pixel, R, G, B and
    A, not premultiplied, in row order, as a PNG decoder reads them
    back.  An image whose pixels are all opaque is written without an
    alpha channel and reads back with alpha 255.  The file format, its
    compression and the base64 text made of it can be undone and leave
    these pixels as they are.  Writing to a [bytes.Buffer], the encoder
    refuses no image of positive width and height below 2^32, so the
    error return that follows the call is not taken. *)
Fixpoint Encode (pix : list Z) : list Z :=
  match pix with
  | r :: g :: b :: a :: rest => encodePixel r g b a ++ Encode rest
  | _ => []
  end.

End png.

(** ** Package screenshot: the virtual desktop (capture.go) *)

Module capture.

Import GoInt.

Definition MaxInt32 : Z := 2 ^ 31 - 1.
Definition MinInt32 : Z := - 2 ^ 31.

(** What the display library answers: [screenshot.NumActiveDisplays()]
    and [screenshot.GetDisplayBounds(i)]. *)
Record Displays := {
  NumActiveDisplays : Z;
  GetDisplayBounds : Z -> image.Rectangle
}.

(** One round of the loop of [GetVirtualScreenBounds] on
    [(minX, minY, maxX, maxY)]. *)
Definition widen (bounds : image.Rectangle) (acc : Z * Z * Z * Z)
    : Z * Z * Z * Z :=
  let '(minX, minY, maxX, maxY) := acc in
  let minX := if image.MinX bounds <? minX then image.MinX bounds else minX in
  let minY := if image.MinY bounds <? minY then image.MinY bounds else minY in
  let maxX := if maxX <? image.MaxX bounds then image.MaxX bounds else maxX in
  let maxY := if maxY <? image.MaxY bounds then image.MaxY bounds else maxY in
  (minX, minY, maxX, maxY).

Definition GetVirtualScreenBounds (s : Displays) : Z * Z * Z * Z :=
  let numDisplays := NumActiveDisplays s in
  if numDisplays =? 0 then (0, 0, 1920, 1080)
  else
    let '(minX, minY, maxX, maxY) :=
      fold_left (fun acc i => widen (GetDisplayBounds s i) acc)
        (map Z.of_nat (seq 0 (Z.to_nat numDisplays)))
        (MaxInt32, MaxInt32, MinInt32, MinInt32) in
    (minX, minY, int (maxX - minX), int (maxY - minY)).

End capture.

(** ** Notions used to state the decoder's properties *)

Module decoder_spec.

Import GoInt screenshot fixture.

(** Channel [k] of a converted pixel, in the order of [img.Pix]. *)
Definition channel (k : Z) (p : Z * Z * Z * Z) : Z :=
  let '(r, g, b, a) := p in
  if k =? 0 then r else if k =? 1 then g else if k =? 2 then b else a.

(** The first [n] pixels of [pix] hold the conversion of [f]. *)
Definition filled (f : Z -> Z -> Z * Z * Z * Z) (W n : Z) (pix : list Z)
    : Prop :=
  forall i, 0 <= i < 4 * n ->
    pix !! Z.to_nat i = Some (channel (i mod 4) (f (i / 4 / W) (i / 4 mod W))).

(** The nested loops over an abstract pixel source. *)
Definition storeRows (f : Z -> Z -> Z * Z * Z * Z) (W H : Z) (pix : list Z)
    : option (list Z) :=
  forLoop 0 H (fun y pix =>
    forLoop 0 W (fun x pix => storePixel pix ((y * W + x) * 4) (f y x)) pix)
    pix.

(** What remains of [GetClipboardImage] once the header is parsed. *)
Definition afterHeader (c : Clipboard) : outcome CaptureResult :=
  if (imageWidth c <=? 0) || (imageHeight c <=? 0)
  then Err ErrInvalidDimensions else
  match image.NewRGBA (image.Rect 0 0 (imageWidth c) (imageHeight c)) with
  | None => Panic
  | Some img =>
      if layoutTooSmall (globalSize c) (pixelOffset c) (rowSize c)
           (imageHeight c)
      then Err ErrInvalidLayout else
      if bitDepth c =? 24 then
        match convertRows (memory c) (uintptr (globalLock c + pixelOffset c))
                (rowSize c) (imageWidth c) (imageHeight c) (bottomUp c) 3
                pixel24 (image.Pix img) with
        | None => Panic
        | Some pix =>
            Ok {| Width := imageWidth c; Height := imageHeight c;
                  Data := pix |}
        end
      else if bitDepth c =? 32 then
        match convertRows (memory c) (uintptr (globalLock c + pixelOffset c))
                (rowSize c) (imageWidth c) (imageHeight c) (bottomUp c) 4
                pixel32 (image.Pix img) with
        | None => Panic
        | Some pix =>
            Ok {| Width := imageWidth c; Height := imageHeight c;
                  Data := pix |}
        end
      else Err ErrUnsupportedDepth
  end.

(** The pixel source of the conversion loops. *)
Definition convertedPixel (c : Clipboard) (y x : Z) : Z * Z * Z * Z :=
  if bitDepth c =? 24 then pixel24 (memory c) (sourceAddr c 3 y x)
  else pixel32 (memory c) (sourceAddr c 4 y x).

(** A well-formed buffer, as the decoder's contract words it: the
    clipboard delivers it, the depth is 24 or 32, both dimensions are
    positive and the declared length covers pixel offset plus
    stride * height. *)
Definition wellFormedBuffer (c : Clipboard) : Prop :=
  delivered c /\
  (bitDepth c = 24 \/ bitDepth c = 32) /\
  0 < imageWidth c /\ 0 < imageHeight c /\
  pixelOffset c + rowSize c * imageHeight c <= globalSize c.

(** Every pixel of a result has alpha 255. *)
Definition fullyOpaque (r : CaptureResult) : Prop :=
  forall p, 0 <= p < Width r * Height r ->
    Data r !! Z.to_nat (p * 4 + 3) = Some 255.

(** One 32-bit pixel (B,G,R,A) = (1,2,3,128) in a 1x1 top-down image. *)
Definition translucentPixel : Clipboard :=
  clipboardOf 4096 44
    (headerBytes (plainHeader 40 1 (-1) 32) ++ [1; 2; 3; 128]) 0.

(** The source row that holds logical row [y]. *)
Definition sourceRow (c : Clipboard) (y : Z) : Z :=
  if bottomUp c then imageHeight c - 1 - y else y.

Definition bytesPerPixel (c : Clipboard) : Z :=
  if bitDepth c =? 24 then 3 else 4.

(** A logical image: byte [k] of the pixel in column [x] of row [y],
    row 0 on top. *)
Definition logicalImage := Z -> Z -> Z -> Z.

(** Top-down storage: negative header height, rows in source order. *)
Definition storesTopDown (c : Clipboard) (img : logicalImage) : Prop :=
  BiHeight (header c) < 0 /\
  forall y x k,
    0 <= y < imageHeight c -> 0 <= x < imageWidth c ->
    0 <= k < bytesPerPixel c ->
    stored c (pixelOffset c + y * rowSize c + x * bytesPerPixel c + k)
      = img y x k.

(** Bottom-up storage: positive header height, logical row [y] stored
    at source row [height - 1 - y]. *)
Definition storesBottomUp (c : Clipboard) (img : logicalImage) : Prop :=
  0 < BiHeight (header c) /\
  forall y x k,
    0 <= y < imageHeight c -> 0 <= x < imageWidth c ->
    0 <= k < bytesPerPixel c ->
    stored c (pixelOffset c + (imageHeight c - 1 - y) * rowSize c
              + x * bytesPerPixel c + k)
      = img y x k.

(** The Win32 calls return the same values on both clipboards. *)
Definition sameCalls (c1 c2 : Clipboard) : Prop :=
  isClipboardFormatAvailable c1 = isClipboardFormatAvailable c2 /\
  openClipboard c1 = openClipboard c2 /\
  getClipboardData c1 = getClipboardData c2 /\
  globalLock c1 = globalLock c2 /\
  globalSize c1 = globalSize c2.

(** The two headers agree on the five fields the decoder reads. *)
Definition sameLayoutFields (c1 c2 : Clipboard) : Prop :=
  BiSize (header c1) = BiSize (header c2) /\
  BiWidth (header c1) = BiWidth (header c2) /\
  BiHeight (header c1) = BiHeight (header c2) /\
  BiBitCount (header c1) = BiBitCount (header c2) /\
  BiClrUsed (header c1) = BiClrUsed (header c2).


(** All checks of [GetClipboardImage] after the header is parsed. *)
Definition accepts (c : Clipboard) : bool :=
  (0 <? imageWidth c) && (0 <? imageHeight c) &&
  (4 * imageWidth c * imageHeight c <=? image.maxAlloc) &&
  negb (layoutTooSmall (globalSize c) (pixelOffset c) (rowSize c)
          (imageHeight c)) &&
  ((bitDepth c =? 24) || (bitDepth c =? 32)).

(** How a header that is not accepted is turned down, in the order of
    the code: dimensions, allocation, layout, depth. *)
Definition rejection (c : Clipboard) : outcome CaptureResult :=
  if (imageWidth c <=? 0) || (imageHeight c <=? 0)
  then Err ErrInvalidDimensions
  else if image.maxAlloc <? 4 * imageWidth c * imageHeight c then Panic
  else if layoutTooSmall (globalSize c) (pixelOffset c) (rowSize c)
            (imageHeight c)
  then Err ErrInvalidLayout
  else Err ErrUnsupportedDepth.



(** 16 bits per pixel and no room for the single pixel. *)
Definition depth16Short : Clipboard :=
  clipboardOf 4096 40 (headerBytes (plainHeader 40 1 1 16)) 0.

(** 16 bits per pixel with room for the pixel. *)
Definition depth16 : Clipboard :=
  clipboardOf 4096 44 (headerBytes (plainHeader 40 1 1 16) ++ [1; 2; 0; 0]) 0.

(** A block of 44 bytes whose header claims to be 1000 bytes long;
    every byte outside the block is 170. *)
Definition oversizedHeader : Clipboard :=
  clipboardOf 4096 44
    (headerBytes (plainHeader 1000 1 1 32) ++ [0; 0; 0; 0]) 170.

(** No DIB on the clipboard. *)
Definition formatAbsent : Clipboard :=
  {| isClipboardFormatAvailable := 0; openClipboard := 1;
     getClipboardData := 7; globalLock := 4096; globalSize := 44;
     memory := fun _ => 0 |}.

(** The format is announced and the clipboard opens, but the data
    handle is null. *)
Definition handleNull : Clipboard :=
  {| isClipboardFormatAvailable := 1; openClipboard := 1;
     getClipboardData := 0; globalLock := 4096; globalSize := 44;
     memory := fun _ => 0 |}.

(** Two rows of one 32-bit pixel, stored top-down. *)
Definition twoRowsTopDown : Clipboard :=
  clipboardOf 4096 48
    (headerBytes (plainHeader 40 1 (-2) 32)
     ++ [1; 2; 3; 4] ++ [17; 18; 19; 20]) 0.

(** The same two rows stored bottom-up. *)
Definition twoRowsBottomUp : Clipboard :=
  clipboardOf 8192 48
    (headerBytes (plainHeader 40 1 2 32)
     ++ [17; 18; 19; 20] ++ [1; 2; 3; 4]) 0.

Definition twoRows : logicalImage := fun y x k => 16 * y + k + 1.

(** An image of a size that a well-formed buffer under the size cap can
    describe: at most [maxClipboardSize] bytes at three bytes a pixel,
    which is 4/3 of the cap once allocated. *)
Definition withinCap (c : Clipboard) : Prop :=
  3 * imageWidth c * imageHeight c <= maxClipboardSize.

(** The error that the layout check and the switch on the depth leave
    for a buffer of another depth than 24 or 32. *)
Definition lateVerdict (c : Clipboard) : error :=
  if layoutTooSmall (globalSize c) (pixelOffset c) (rowSize c)
       (imageHeight c)
  then ErrInvalidLayout
  else ErrUnsupportedDepth.

(** The two blocks hold the same bytes wherever a pixel is stored: the
    first [bytesPerPixel * width] bytes of every row.  The padding that
    fills a row up to the stride is left out. *)
Definition samePixelsOnly (c1 c2 : Clipboard) : Prop :=
  forall row j,
    0 <= row < imageHeight c1 ->
    0 <= j < bytesPerPixel c1 * imageWidth c1 ->
    stored c1 (pixelOffset c1 + row * rowSize c1 + j)
      = stored c2 (pixelOffset c1 + row * rowSize c1 + j).

(** One 24-bit pixel (B,G,R) = (1,2,3) followed by one byte of row
    padding, 9. *)
Definition paddedPixel : Clipboard :=
  clipboardOf 4096 44 (headerBytes (plainHeader 40 1 1 24) ++ [1; 2; 3; 9]) 0.

(** The same pixel with another padding byte. *)
Definition paddedPixel' : Clipboard :=
  clipboardOf 4096 44 (headerBytes (plainHeader 40 1 1 24) ++ [1; 2; 3; 77]) 0.

(** A 32-bit 1x1 header in a block one byte short of the pixel. *)
Definition oneByteShort : Clipboard :=
  clipboardOf 4096 43 (headerBytes (plainHeader 40 1 1 32) ++ [1; 2; 3]) 0.

(** A header of 2^31-1 by 2^31-1 pixels in a block of 44 bytes. *)
Definition hugeDimensions : Clipboard :=
  clipboardOf 4096 44
    (headerBytes (plainHeader 40 (2 ^ 31 - 1) (2 ^ 31 - 1) 32)
     ++ [0; 0; 0; 0]) 0.

(** The two blocks hold the same bytes: every offset of the block, from
    0 to its size, reads the same in both.  Nothing is said of the
    memory before or after the block. *)
Definition sameBlock (c1 c2 : Clipboard) : Prop :=
  forall off, 0 <= off < globalSize c1 -> stored c1 off = stored c2 off.

(** The 44 bytes of [translucentPixel] in a memory that holds 170, not
    0, at every address outside of them. *)
Definition translucentPixelElsewhere : Clipboard :=
  clipboardOf 4096 44
    (headerBytes (plainHeader 40 1 (-1) 32) ++ [1; 2; 3; 128]) 170.

(** A header of width 0. *)
Definition zeroWidth : Clipboard :=
  clipboardOf 4096 44 (headerBytes (plainHeader 40 0 1 32) ++ [0; 0; 0; 0]) 0.

(** One 32-bit pixel (B,G,R,A) = (50,100,200,128) in a 1x1 top-down
    image. *)
Definition translucentColour : Clipboard :=
  clipboardOf 4096 44
    (headerBytes (plainHeader 40 1 (-1) 32) ++ [50; 100; 200; 128]) 0.

End decoder_spec.

(** ** Notions used to state the compositor's properties *)

Module overlay_spec.

Import GoInt overlay.

(** A routine over the pixel slice that neither panics nor changes the
    number of pixels, on a slice of [n] pixels. *)
Definition keeps (n : Z) (f : list Z -> option (list Z)) : Prop :=
  forall px, Z.of_nat (length px) = n ->
    exists px', f px = Some px' /\ Z.of_nat (length px') = n.

(** [dc'] is [dc] with other pixel values: same size, same number of
    pixels. *)
Definition sameFrame (dc dc' : DrawContext) : Prop :=
  width dc' = width dc /\ height dc' = height dc /\
  length (pixels dc') = length (pixels dc).

(** A background image, or none ([nil]). *)
Definition wellFormedBackground (screenshot : option image.RGBA) : Prop :=
  match screenshot with
  | None => True
  | Some m => image.wellFormed m
  end.

(** Every value of a byte. *)
Definition bytes : list Z := map Z.of_nat (seq 0 256).

(** The exact quotient [c * (255 - alpha) / 255], rounded down. *)
Definition scaledDown (alpha c : Z) : Z := c * (255 - alpha) / 255.

(** The bound a darkened channel [d] is checked against, for one
    [alpha] and one channel value [c]: [d] is the exact quotient or one
    below it, and a byte no larger than [c]. *)
Definition darkenWithin (alpha c d : Z) : bool :=
  (scaledDown alpha c - 1 <=? d) && (d <=? scaledDown alpha c) &&
  (0 <=? d) && (d <=? c).

Definition darkenChannelCheck (alpha c : Z) : bool :=
  darkenWithin alpha c (darkenChannel alpha c).

(** The check of every channel value for one [alpha]; the factor is
    computed once. *)
Definition darkenRowCheck (alpha : Z) : bool :=
  let factor := overlayFactor alpha in
  forallb
    (fun c => darkenWithin alpha c (f64.toUint32 (f64.mul (f64.ofInt c) factor)))
    bytes.

(** The channel extractors on each of the four parts of [pack]. *)
Definition packPartsCheck (v : Z) : bool :=
  (redOf (uint32 (Z.shiftl v 24)) =? 0) &&
  (redOf (uint32 (Z.shiftl v 16)) =? v) &&
  (redOf (uint32 (Z.shiftl v 8)) =? 0) &&
  (redOf v =? 0) &&
  (greenOf (uint32 (Z.shiftl v 24)) =? 0) &&
  (greenOf (uint32 (Z.shiftl v 16)) =? 0) &&
  (greenOf (uint32 (Z.shiftl v 8)) =? v) &&
  (greenOf v =? 0) &&
  (blueOf (uint32 (Z.shiftl v 24)) =? 0) &&
  (blueOf (uint32 (Z.shiftl v 16)) =? 0) &&
  (blueOf (uint32 (Z.shiftl v 8)) =? 0) &&
  (blueOf v =? v) &&
  (Z.shiftr (uint32 (Z.shiftl v 24)) 24 =? v) &&
  (Z.shiftr (uint32 (Z.shiftl v 16)) 24 =? 0) &&
  (Z.shiftr (uint32 (Z.shiftl v 8)) 24 =? 0) &&
  (Z.shiftr v 24 =? 0).

(** The alpha byte of a packed pixel, [p >> 24]. *)
Definition alphaOf (p : Z) : Z := Z.shiftr p 24.

(** A 1x1 buffer holding one white pixel. *)
Definition whiteDot : DrawContext :=
  {| pixels := [white]; width := 1; height := 1 |}.

(** The three colour channels. *)
Definition colourChannels : list (Z -> Z) := [redOf; greenOf; blueOf].

(** The first steps of [DrawOverlay] while a selection is dragged:
    blit, darken, and restore the normalized rectangle. *)
Definition restoredFrame (dc : DrawContext) (m : image.RGBA)
    (sel : Selection) : option DrawContext :=
  dc ← drawScreenshot dc (Some m);
  dc ← fillOverlay dc 128;
  let x1 := overlay.minInt (StartX sel) (EndX sel) in
  let y1 := overlay.minInt (StartY sel) (EndY sel) in
  let x2 := overlay.maxInt (StartX sel) (EndX sel) in
  let y2 := overlay.maxInt (StartY sel) (EndY sel) in
  let w := x2 -i x1 in
  let h := y2 -i y1 in
  clearRegion dc x1 y1 w h (Some m).

(** A 4x4 white background. *)
Definition whiteImage : image.RGBA :=
  {| image.Pix := replicate 64 255; image.Stride := 16;
     image.Bounds := image.Rect 0 0 4 4 |}.

(** A 4x4 buffer. *)
Definition smallContext : DrawContext :=
  {| pixels := replicate 16 0; width := 4; height := 4 |}.

(** A drag from (3,3) back to (1,1). *)
Definition innerDrag : Selection :=
  {| StartX := 3; StartY := 3; EndX := 1; EndY := 1;
     IsDragging := true; SpaceHeld := false |}.

(** A drag between corners far outside of any buffer. *)
Definition wildDrag : Selection :=
  {| StartX := - 2 ^ 40; StartY := 2 ^ 62; EndX := 2 ^ 62; EndY := - 7;
     IsDragging := true; SpaceHeld := true |}.

(** The pixel at position [(qx, qy)] of a buffer. *)
Definition pixelAt (dc : DrawContext) (px : list Z) (qx qy : Z) : option Z :=
  px !! Z.to_nat (qy * width dc + qx).

Definition inBuffer (dc : DrawContext) (qx qy : Z) : Prop :=
  0 <= qx < width dc /\ 0 <= qy < height dc.

(** A routine that completes and whose effect on the buffer is known
    pixel by pixel: the positions selected by [D] get the value [val],
    every other pixel keeps its value. *)
Definition writes (dc : DrawContext) (D : Z -> Z -> bool)
    (val : Z -> Z -> Z) (f : list Z -> option (list Z)) : Prop :=
  forall px, Z.of_nat (length px) = width dc * height dc ->
    exists px', f px = Some px' /\
      Z.of_nat (length px') = width dc * height dc /\
      forall qx qy, inBuffer dc qx qy ->
        pixelAt dc px' qx qy =
          if D qx qy then Some (val qx qy) else pixelAt dc px qx qy.

(** The positions written by the first [n] rounds, from round [i] on,
    of a loop whose round [j] writes the positions [Dj j]. *)
Fixpoint writtenBy (n : nat) (i : Z) (Dj : Z -> Z -> Z -> bool)
    (qx qy : Z) : bool :=
  match n with
  | O => false
  | Datatypes.S n' => Dj i qx qy || writtenBy n' (i + 1) Dj qx qy
  end.

(** Coordinates of the size of screen coordinates. *)
Definition screenCoord (v : Z) : Prop := - 2 ^ 31 <= v <= 2 ^ 31.

(** The positions [drawSelectionBorder] paints: two rows from the top
    and two from the bottom over the width, two columns from the left
    and two from the right over the height. *)
Definition borderStamp (x y w h qx qy : Z) : bool :=
  ((x <=? qx) && (qx <? x + w) &&
   ((qy =? y) || (qy =? y + 1) || (qy =? y + h - 1) || (qy =? y + h - 2)))
  || ((y <=? qy) && (qy <? y + h) &&
      ((qx =? x) || (qx =? x + 1) || (qx =? x + w - 1) || (qx =? x + w - 2))).

(** The two outer rings of the rectangle. *)
Definition onBorder (x y w h qx qy : Z) : bool :=
  (x <=? qx) && (qx <? x + w) && (y <=? qy) && (qy <? y + h) &&
  ((qx <? x + 2) || (x + w - 2 <=? qx) || (qy <? y + 2) || (y + h - 2 <=? qy)).

(** The square of side 6 whose top-left corner is [(cx, cy)]. *)
Definition inSquare6 (cx cy qx qy : Z) : bool :=
  (cx <=? qx) && (qx <? cx + 6) && (cy <=? qy) && (qy <? cy + 6).

(** The four handles: squares of side 6 centered on the corners. *)
Definition onHandle (x y w h qx qy : Z) : bool :=
  inSquare6 (x - 3) (y - 3) qx qy || inSquare6 (x + w - 3) (y - 3) qx qy ||
  inSquare6 (x - 3) (y + h - 3) qx qy ||
  inSquare6 (x + w - 3) (y + h - 3) qx qy.

(** The packed value [drawScreenshot] and [clearRegion] store for the
    background pixel [(qx, qy)]. *)
Definition backgroundAt (m : image.RGBA) (qx qy : Z) : Z :=
  default 0 (sourcePixel m qx qy).

(** The part of the buffer the background covers. *)
Definition covered (dc : DrawContext) (m : image.RGBA) (qx qy : Z) : bool :=
  (qx <? overlay.minInt (image.Dx (image.Bounds m)) (width dc)) &&
  (qy <? overlay.minInt (image.Dy (image.Bounds m)) (height dc)).

(** The part of the rectangle the background reaches. *)
Definition restored (m : image.RGBA) (x y w h qx qy : Z) : bool :=
  (x <=? qx) && (qx <? x + w) && (y <=? qy) && (qy <? y + h) &&
  (qx <? image.Dx (image.Bounds m)) && (qy <? image.Dy (image.Bounds m)).

(** A 12x12 buffer of zero pixels. *)
Definition blankContext : DrawContext :=
  {| pixels := replicate 144 0; width := 12; height := 12 |}.

(** The same drag, described from its other corner. *)
Definition swapCorners (sel : Selection) : Selection :=
  {| StartX := EndX sel; StartY := EndY sel;
     EndX := StartX sel; EndY := StartY sel;
     IsDragging := IsDragging sel; SpaceHeld := SpaceHeld sel |}.

(** A 4x4 buffer left over from an earlier frame. *)
Definition staleContext : DrawContext :=
  {| pixels := replicate 16 blue; width := 4; height := 4 |}.

(** The positions written by the rounds of a [range] loop that starts at
    index [i]. *)
Fixpoint writtenFrom {A : Type} (i : Z) (l : list A)
    (Da : Z -> A -> Z -> Z -> bool) (qx qy : Z) : bool :=
  match l with
  | [] => false
  | a :: l' => Da i a qx qy || writtenFrom (i + 1) l' Da qx qy
  end.

(** Whether a glyph is lit at column [col] and row [row]: bit [6 - row]
    of its column byte [col]. *)
Definition glyphBit (glyph : list Z) (col row : Z) : bool :=
  match glyph !! Z.to_nat col with
  | Some bits =>
      (0 <=? col) && (0 <=? row) && (row <? 7) && Z.testbit bits (6 - row)
  | None => false
  end.

(** Whether character [ch] of [font], set at [(x, y)], is lit at
    [(qx, qy)]. *)
Definition runeAt (font : list (ascii * list Z)) (ch : ascii)
    (x y qx qy : Z) : bool :=
  match glyphOf font ch with
  | Some glyph => glyphBit glyph (qx - x) (qy - y)
  | None => false
  end.

(** The characters of a text one after the other, 6 columns apart. *)
Fixpoint runesAt (font : list (ascii * list Z)) (l : list ascii)
    (x y qx qy : Z) : bool :=
  match l with
  | [] => false
  | ch :: l' => runeAt font ch x y qx qy || runesAt font l' (x + 6) y qx qy
  end.

(** Whether [text], set in [font] from [(x, y)], is lit at [(qx, qy)]:
    the character at index [(qx - x) / 6], in its column
    [(qx - x) mod 6]. *)
Definition textPixel (font : list (ascii * list Z)) (text : string)
    (x y qx qy : Z) : bool :=
  (x <=? qx) &&
  match list_ascii_of_string text !! Z.to_nat ((qx - x) / 6) with
  | Some ch => runeAt font ch (x + 6 * ((qx - x) / 6)) y qx qy
  | None => false
  end.

(** No glyph of the font is wider than the advance of the cursor. *)
Definition narrow (font : list (ascii * list Z)) : bool :=
  forallb (fun kg => (length (snd kg) <=? 6)%nat) font.

(** The rectangle [w] x [h] at [(x, y)]. *)
Definition inRect (x y w h qx qy : Z) : bool :=
  (x <=? qx) && (qx <? x + w) && (y <=? qy) && (qy <? y + h).

(** The text [drawInstructions] shows. *)
Definition instructionsText (sel : Selection) : string :=
  if IsDragging sel && SpaceHeld sel
  then "Hold Space + Drag to reposition"%string
  else "Drag to select. Space to move. ESC cancel"%string.

(** The text [drawSizeIndicator] shows. *)
Definition sizeText (w h : Z) : string :=
  (pretty w ++ " x " ++ pretty h)%string.

(** Every byte of the text is below 128: each is a rune of its own, and
    [range text] yields the bytes one by one. *)
Fixpoint isASCII (text : string) : bool :=
  match text with
  | EmptyString => true
  | String ch rest => (nat_of_ascii ch <? 128)%nat && isASCII rest
  end.

(** A 64x32 buffer of zero pixels. *)
Definition bannerContext : DrawContext :=
  {| pixels := replicate 2048 0; width := 64; height := 32 |}.

(** No selection. *)
Definition idle : Selection :=
  {| StartX := 0; StartY := 0; EndX := 0; EndY := 0;
     IsDragging := false; SpaceHeld := false |}.

(** Both corners of the drag are screen positions. *)
Definition onScreen (sel : Selection) : Prop :=
  - 2 ^ 30 <= StartX sel <= 2 ^ 30 /\ - 2 ^ 30 <= StartY sel <= 2 ^ 30 /\
  - 2 ^ 30 <= EndX sel <= 2 ^ 30 /\ - 2 ^ 30 <= EndY sel <= 2 ^ 30.

(** A routine that turns every context of the frame of [dc] into one of
    the same frame, whose pixel at [(qx, qy)] is [F old qx qy] for the
    pixel [old] that was there. *)
Definition frameEffect (dc : DrawContext)
    (F : option Z -> Z -> Z -> option Z)
    (f : DrawContext -> option DrawContext) : Prop :=
  forall d, sameFrame dc d ->
    exists d', f d = Some d' /\ sameFrame dc d' /\
      forall qx qy, inBuffer dc qx qy ->
        pixelAt dc (pixels d') qx qy = F (pixelAt dc (pixels d) qx qy) qx qy.

(** The background over the old pixel: nothing without a background
    ([nil]). *)
Definition backgroundPixel (dc : DrawContext)
    (screenshot : option image.RGBA) (old : option Z) (qx qy : Z)
    : option Z :=
  match screenshot with
  | Some m => if covered dc m qx qy then sourcePixel m qx qy else old
  | None => old
  end.

(** The background restored in the rectangle, over [under]. *)
Definition restoredPixel (screenshot : option image.RGBA) (x y w h : Z)
    (under : option Z) (qx qy : Z) : option Z :=
  match screenshot with
  | Some m => if restored m x y w h qx qy then sourcePixel m qx qy else under
  | None => under
  end.

(** The darkened background: layers 1 and 2 of [DrawOverlay]. *)
Definition backdropPixel (dc : DrawContext)
    (screenshot : option image.RGBA) (old : option Z) (qx qy : Z)
    : option Z :=
  darkenPixel 128 <$> backgroundPixel dc screenshot old qx qy.

(** The selection on top of [under]: layers 4 to 7. *)
Definition selectionPixel (dc : DrawContext)
    (screenshot : option image.RGBA) (sel : Selection) (scaleRatio : spec_float) (under : option Z)
    (qx qy : Z) : option Z :=
  let x1 := overlay.minInt (StartX sel) (EndX sel) in
  let y1 := overlay.minInt (StartY sel) (EndY sel) in
  let x2 := overlay.maxInt (StartX sel) (EndX sel) in
  let y2 := overlay.maxInt (StartY sel) (EndY sel) in
  let w := x2 - x1 in
  let h := y2 - y1 in
  let text :=
    sizeText (f64.toInt (f64.mul (f64.ofInt w) scaleRatio))
             (f64.toInt (f64.mul (f64.ofInt h) scaleRatio)) in
  let pillWidth := 7 * len text + 16 in
  let pillY := if height dc <=? y2 + 8 + 20 then y2 + 8 - 28 else y2 + 8 in
  let pillX :=
    if width dc <=? x1 + pillWidth then width dc - pillWidth - 4 else x1 in
  let pillX := if pillX <? 0 then 4 else pillX in
  if textPixel sizeFont text (pillX + 8) (pillY + 4) qx qy then Some white
  else if inRect pillX pillY pillWidth 20 qx qy then Some blue
  else if onHandle x1 y1 w h qx qy then Some blue
  else if borderStamp x1 y1 w h qx qy then Some blue
  else restoredPixel screenshot x1 y1 w h under qx qy.

(** The instructions on top of [under]: layer 8. *)
Definition bannerPixel (dc : DrawContext) (sel : Selection)
    (under : option Z) (qx qy : Z) : option Z :=
  let text := instructionsText sel in
  let pillWidth := 7 * len text + 20 in
  let pillX := Z.quot (width dc - pillWidth) 2 in
  if textPixel instructionFont text (pillX + 10) 22 qx qy then Some white
  else if inRect pillX 16 pillWidth 24 qx qy then Some (pack 220 0 0 0)
  else under.

(** The frame of [DrawOverlay], pixel by pixel. *)
Definition overlayPixel (dc : DrawContext)
    (screenshot : option image.RGBA) (sel : Selection)
    (scaleRatio : spec_float) (old : option Z) (qx qy : Z) : option Z :=
  let under := backdropPixel dc screenshot old qx qy in
  bannerPixel dc sel
    (if IsDragging sel
     then selectionPixel dc screenshot sel scaleRatio under qx qy
     else under) qx qy.

End overlay_spec.

(** ** Package overlay: the GDI resources of a drawing context (draw.go) *)

Module gdi.

Import GoInt.

(** What the system answers to the calls of [NewDrawContext] whose
    results the code reads: the handle of [CreateCompatibleDC], the
    handle of [CreateDIBSection] and the pointer it stores through its
    fourth argument, and the handle [SelectObject] returns. *)
Record System := {
  createCompatibleDC : Z;
  createDIBSection : Z;
  dibPixels : Z;
  selectObject : Z
}.

(** The GDI calls in the order they are made, with their handle
    arguments; the two creating calls carry the handle returned, and
    [CreateDIBSection] the width, height and depth of its header. *)
Inductive call :=
| CreateCompatibleDC (screenDC ret : Z)
| CreateDIBSection (hdc biWidth biHeight biBitCount ret : Z)
| SelectObject (hdc obj : Z)
| DeleteObject (obj : Z)
| DeleteDC (hdc : Z).

(** The struct as [NewDrawContext] fills it: the handles, the pointer to
    the pixels and the size. *)
Record DrawContext := {
  HMemDC : Z;
  hBitmap : Z;
  hOldBitmap : Z;
  pixels : Z;
  width : Z;
  height : Z
}.

Inductive error :=
| ErrCompatibleDC   (* "failed to create compatible DC" *)
| ErrDIBSection.    (* "failed to create DIB section" *)

Definition NewDrawContext (os : System) (screenDC width height : Z)
    : (DrawContext + error) * list call :=
  let hMemDC := createCompatibleDC os in
  if hMemDC =? 0
  then (inr ErrCompatibleDC, [CreateCompatibleDC screenDC hMemDC])
  else
    let biWidth := int32 width in
    let biHeight := int32 (int (- height)) in
    let hBitmap := createDIBSection os in
    if hBitmap =? 0
    then (inr ErrDIBSection,
          [CreateCompatibleDC screenDC hMemDC;
           CreateDIBSection hMemDC biWidth biHeight 32 hBitmap;
           DeleteDC hMemDC])
    else
      let hOldBitmap := selectObject os in
      (inl {| HMemDC := hMemDC; hBitmap := hBitmap;
              hOldBitmap := hOldBitmap; pixels := dibPixels os;
              width := width; height := height |},
       [CreateCompatibleDC screenDC hMemDC;
        CreateDIBSection hMemDC biWidth biHeight 32 hBitmap;
        SelectObject hMemDC hBitmap]).

Definition Cleanup (dc : DrawContext) : list call :=
  (if negb (hOldBitmap dc =? 0)
   then [SelectObject (HMemDC dc) (hOldBitmap dc)] else []) ++
  (if negb (hBitmap dc =? 0) then [DeleteObject (hBitmap dc)] else []) ++
  (if negb (HMemDC dc =? 0) then [DeleteDC (HMemDC dc)] else []).

End gdi.

(** ** Notions used to state the properties of the virtual desktop *)

Module capture_spec.

Import GoInt capture.

(** A display of the Windows desktop: its corners are 32-bit
    coordinates. *)
Definition int32Rect (r : image.Rectangle) : Prop :=
  MinInt32 <= image.MinX r <= MaxInt32 /\
  MinInt32 <= image.MinY r <= MaxInt32 /\
  MinInt32 <= image.MaxX r <= MaxInt32 /\
  MinInt32 <= image.MaxY r <= MaxInt32.

(** The state of the loop after the displays below [n]: each bound is
    the start value or the coordinate of a display, and no display
    reaches beyond it. *)
Definition boundsAfter (s : Displays) (n : nat) (acc : Z * Z * Z * Z)
    : Prop :=
  let '(minX, minY, maxX, maxY) := acc in
  (forall i, 0 <= i < Z.of_nat n ->
     minX <= image.MinX (GetDisplayBounds s i) /\
     minY <= image.MinY (GetDisplayBounds s i) /\
     image.MaxX (GetDisplayBounds s i) <= maxX /\
     image.MaxY (GetDisplayBounds s i) <= maxY) /\
  (minX = MaxInt32 \/
   exists i, 0 <= i < Z.of_nat n /\ minX = image.MinX (GetDisplayBounds s i)) /\
  (minY = MaxInt32 \/
   exists i, 0 <= i < Z.of_nat n /\ minY = image.MinY (GetDisplayBounds s i)) /\
  (maxX = MinInt32 \/
   exists i, 0 <= i < Z.of_nat n /\ maxX = image.MaxX (GetDisplayBounds s i)) /\
  (maxY = MinInt32 \/
   exists i, 0 <= i < Z.of_nat n /\ maxY = image.MaxY (GetDisplayBounds s i)).

(** A laptop with a second monitor to its left. *)
Definition twoDisplays : Displays :=
  {| NumActiveDisplays := 2;
     GetDisplayBounds := fun i =>
       if i =? 0 then image.Rect 0 0 1920 1080
       else image.Rect (- 2560) (- 200) 0 1240 |}.

End capture_spec.

(** ** Notions used to state the properties of the GDI resources *)

Module gdi_spec.

Import GoInt gdi.

(** The handles alive after a sequence of calls: the device contexts and
    the bitmaps created (a null handle is a failed creation) and not yet
    deleted. *)
Fixpoint live (t : list call) (dcs bitmaps : list Z) : list Z * list Z :=
  match t with
  | [] => (dcs, bitmaps)
  | CreateCompatibleDC _ ret :: t =>
      live t (if ret =? 0 then dcs else ret :: dcs) bitmaps
  | CreateDIBSection _ _ _ _ ret :: t =>
      live t dcs (if ret =? 0 then bitmaps else ret :: bitmaps)
  | SelectObject _ _ :: t => live t dcs bitmaps
  | DeleteObject obj :: t => live t dcs (remove Z.eq_dec obj bitmaps)
  | DeleteDC hdc :: t => live t (remove Z.eq_dec hdc dcs) bitmaps
  end.

(** The calls of a context from its creation to its end. *)
Definition lifetime (os : System) (screenDC width height : Z) : list call :=
  match NewDrawContext os screenDC width height with
  | (inl dc, t) => t ++ Cleanup dc
  | (inr _, t) => t
  end.

(** A system on which every call succeeds. *)
Definition healthy : System :=
  {| createCompatibleDC := 1001; createDIBSection := 2002;
     dibPixels := 65536; selectObject := 3003 |}.

End gdi_spec.

(** * Loop rules *)

Section loop_rules.

Context {S : Type}.
Implicit Types (body : Z -> S -> option S) (P : Z -> S -> Prop).

Lemma loopFrom_invariant P body (n : nat) (i : Z) (s : S) :
  P i s ->
  (forall j t, i <= j < i + Z.of_nat n -> P j t ->
     exists t', body j t = Some t' /\ P (j + 1) t') ->
  exists t, loopFrom n i body s = Some t /\ P (i + Z.of_nat n) t.
Proof.
  revert i s. induction n as [|n IH]; intros i s Hi Hstep.
  - exists s. split; [reflexivity|]. now replace (i + Z.of_nat 0) with i by lia.
  - destruct (Hstep i s) as (t' & Hb & Ht'); [lia|assumption|].
    cbn [loopFrom]. rewrite Hb.
    destruct (IH (i + 1) t' Ht') as (t & Hl & Ht).
    + intros j u Hj Hu. apply Hstep; [lia|assumption].
    + exists t. split; [assumption|].
      now replace (i + Z.of_nat (Datatypes.S n)) with (i + 1 + Z.of_nat n) by lia.
Qed.

Lemma forLoop_invariant P body (lo hi : Z) (s : S) :
  lo <= hi ->
  P lo s ->
  (forall j t, lo <= j < hi -> P j t ->
     exists t', body j t = Some t' /\ P (j + 1) t') ->
  exists t, forLoop lo hi body s = Some t /\ P hi t.
Proof.
  intros Hle H0 Hstep. unfold forLoop.
  destruct (loopFrom_invariant P body (Z.to_nat (hi - lo)) lo s H0)
    as (t & Hl & Ht).
  - intros j u Hj. apply Hstep. lia.
  - exists t. split; [assumption|].
    now replace (lo + Z.of_nat (Z.to_nat (hi - lo))) with hi in Ht by lia.
Qed.

Lemma forLoop_empty body (lo hi : Z) (s : S) :
  hi <= lo -> forLoop lo hi body s = Some s.
Proof.
  intros Hle. unfold forLoop.
  now replace (Z.to_nat (hi - lo)) with O by lia.
Qed.

(** A property of the state alone that every iteration keeps. *)
Lemma forLoop_preserves (Q : S -> Prop) body (lo hi : Z) (s : S) :
  Q s ->
  (forall j t, lo <= j < hi -> Q t -> exists t', body j t = Some t' /\ Q t') ->
  exists t, forLoop lo hi body s = Some t /\ Q t.
Proof.
  intros H0 Hstep. destruct (Z_le_gt_dec lo hi) as [Hle|Hgt].
  - apply (forLoop_invariant (fun _ => Q)); assumption.
  - exists s. split; [apply forLoop_empty; lia|assumption].
Qed.

End loop_rules.

(** * Slices *)

Lemma sliceSet_Some (s : list Z) (i v : Z) :
  0 <= i < Z.of_nat (length s) ->
  sliceSet s i v = Some (<[Z.to_nat i := v]> s).
Proof.
  intros Hi. unfold sliceSet.
  destruct (Z.leb_spec 0 i); [|lia].
  destruct (Z.ltb_spec i (Z.of_nat (length s))); [reflexivity|lia].
Qed.

Lemma sliceSet_inv (s s' : list Z) (i v : Z) :
  sliceSet s i v = Some s' ->
  0 <= i < Z.of_nat (length s) /\ s' = <[Z.to_nat i := v]> s.
Proof.
  unfold sliceSet.
  destruct (Z.leb_spec 0 i); [|discriminate].
  destruct (Z.ltb_spec i (Z.of_nat (length s))); [|discriminate].
  intros [= <-]. split; [lia|reflexivity].
Qed.

Lemma sliceGet_Some (s : list Z) (i : Z) :
  0 <= i < Z.of_nat (length s) -> exists v, sliceGet s i = Some v.
Proof.
  intros Hi. unfold sliceGet.
  destruct (Z.leb_spec 0 i); [|lia].
  apply lookup_lt_is_Some_2. lia.
Qed.

(** * The clipboard decoder *)

Module decoder_proofs.

Import GoInt screenshot fixture decoder_spec.

Lemma storePixel_spec (pix : list Z) (base : Z) (p : Z * Z * Z * Z) :
  0 <= base -> base + 3 < Z.of_nat (length pix) ->
  exists pix', storePixel pix base p = Some pix' /\
    length pix' = length pix /\
    (forall k, 0 <= k < 4 -> pix' !! Z.to_nat (base + k) = Some (channel k p)) /\
    (forall j, (j < Z.to_nat base)%nat -> pix' !! j = pix !! j).
Proof.
  intros Hb Hlen. destruct p as [[[r g] b] a]. unfold storePixel.
  rewrite sliceSet_Some by lia. cbn [mbind option_bind].
  rewrite sliceSet_Some by (rewrite length_insert; lia). cbn [mbind option_bind].
  rewrite sliceSet_Some by (rewrite !length_insert; lia). cbn [mbind option_bind].
  rewrite sliceSet_Some by (rewrite !length_insert; lia).
  eexists. split; [reflexivity|]. split; [now rewrite !length_insert|]. split.
  - intros k Hk. unfold channel.
    assert (k = 0 \/ k = 1 \/ k = 2 \/ k = 3) as [-> | [-> | [-> | ->]]] by lia; cbn.
    + rewrite !list_lookup_insert_ne by lia.
      apply list_lookup_insert_eq. lia.
    + rewrite !list_lookup_insert_ne by lia.
      apply list_lookup_insert_eq. rewrite !length_insert. lia.
    + rewrite !list_lookup_insert_ne by lia.
      apply list_lookup_insert_eq. rewrite !length_insert. lia.
    + apply list_lookup_insert_eq. rewrite !length_insert. lia.
  - intros j Hj. rewrite !list_lookup_insert_ne by lia. reflexivity.
Qed.

Lemma pixel_index (W y x k : Z) :
  0 < W -> 0 <= y -> 0 <= x < W -> 0 <= k < 4 ->
  let i := (y * W + x) * 4 + k in
  i mod 4 = k /\ i / 4 / W = y /\ i / 4 mod W = x.
Proof.
  intros HW Hy Hx Hk i. subst i.
  assert (E4 : ((y * W + x) * 4 + k) / 4 = y * W + x).
  { rewrite Z.div_add_l by lia. rewrite Z.div_small by lia. lia. }
  split; [|split].
  - rewrite Z.add_comm, Z.mod_add by lia. apply Z.mod_small; lia.
  - rewrite E4. rewrite Z.div_add_l by lia. rewrite Z.div_small by lia. lia.
  - rewrite E4. rewrite Z.add_comm, Z.mod_add by lia. apply Z.mod_small; lia.
Qed.

(** One more pixel stored after [n = y*W + x] filled ones. *)
Lemma filled_step f (W y x : Z) (pix : list Z) (L : nat) :
  0 < W -> 0 <= y -> 0 <= x < W ->
  length pix = L -> 4 * (y * W + x + 1) <= Z.of_nat L ->
  filled f W (y * W + x) pix ->
  exists pix', storePixel pix ((y * W + x) * 4) (f y x) = Some pix' /\
    length pix' = L /\ filled f W (y * W + (x + 1)) pix'.
Proof.
  intros HW Hy Hx HL Hfit Hf.
  destruct (storePixel_spec pix ((y * W + x) * 4) (f y x))
    as (pix' & Hs & Hl & Hnew & Hold); [nia|nia|].
  exists pix'. split; [assumption|]. split; [congruence|].
  intros i Hi.
  destruct (Z_lt_ge_dec i ((y * W + x) * 4)) as [Hlt|Hge].
  - rewrite Hold by lia. apply Hf. lia.
  - set (k := i - (y * W + x) * 4).
    assert (Hk : 0 <= k < 4) by lia.
    replace i with ((y * W + x) * 4 + k) by lia.
    destruct (pixel_index W y x k) as (-> & -> & ->); try lia.
    apply Hnew. assumption.
Qed.

Lemma storeRows_spec f (W H : Z) (pix : list Z) :
  0 < W -> 0 <= H -> Z.of_nat (length pix) = 4 * W * H ->
  exists pix', storeRows f W H pix = Some pix' /\
    length pix' = length pix /\ filled f W (H * W) pix'.
Proof.
  intros HW HH Hlen. unfold storeRows.
  destruct (forLoop_invariant
    (fun y p => length p = length pix /\ filled f W (y * W) p)
    (fun y p => forLoop 0 W
       (fun x p => storePixel p ((y * W + x) * 4) (f y x)) p)
    0 H pix HH) as (pix' & Hrun & Hl & Hf).
  - split; [reflexivity|]. intros i Hi. lia.
  - intros y p Hy [Hl Hf].
    destruct (forLoop_invariant
      (fun x q => length q = length pix /\ filled f W (y * W + x) q)
      (fun x q => storePixel q ((y * W + x) * 4) (f y x))
      0 W p) as (q & Hrun & Hl' & Hf').
    + lia.
    + split; [assumption|]. now rewrite Z.add_0_r.
    + intros x q Hx [Hlq Hfq].
      destruct (filled_step f W y x q (length pix)) as (q' & ? & ? & ?);
        try assumption; try lia; [nia|].
      exists q'. auto.
    + exists q. split; [assumption|]. split; [assumption|].
      now replace ((y + 1) * W) with (y * W + W) by lia.
  - exists pix'. auto.
Qed.

Lemma filled_lookup f (W H y x k : Z) (pix : list Z) :
  0 < W -> filled f W (H * W) pix ->
  0 <= y < H -> 0 <= x < W -> 0 <= k < 4 ->
  pix !! Z.to_nat ((y * W + x) * 4 + k) = Some (channel k (f y x)).
Proof.
  intros HW Hf Hy Hx Hk.
  destruct (pixel_index W y x k) as (E1 & E2 & E3); try lia.
  cbv zeta in E1, E2, E3.
  rewrite Hf by nia. now rewrite E1, E2, E3.
Qed.

(** Two filled buffers of the same size whose sources agree are equal. *)
Lemma filled_ext f g (W H : Z) (p q : list Z) :
  0 < W -> 0 <= H ->
  Z.of_nat (length p) = 4 * W * H -> Z.of_nat (length q) = 4 * W * H ->
  filled f W (H * W) p -> filled g W (H * W) q ->
  (forall y x, 0 <= y < H -> 0 <= x < W -> f y x = g y x) ->
  p = q.
Proof.
  intros HW HH Hp Hq Hf Hg Hfg. apply list_eq. intros i.
  destruct (decide (i < length p)%nat) as [Hi|Hi].
  - specialize (Hf (Z.of_nat i)). specialize (Hg (Z.of_nat i)).
    rewrite Nat2Z.id in Hf, Hg. rewrite Hf, Hg by lia.
    rewrite Hfg; [reflexivity| |].
    + split; [apply Z.div_pos; [apply Z.div_pos|]; lia|].
      apply Z.div_lt_upper_bound; [lia|].
      apply Z.div_lt_upper_bound; lia.
    + apply Z.mod_pos_bound. lia.
  - rewrite !lookup_ge_None_2 by lia. reflexivity.
Qed.

Lemma NewRGBA_Rect (w h : Z) :
  0 < w -> 0 < h -> 4 * w * h <= image.maxAlloc ->
  image.NewRGBA (image.Rect 0 0 w h) =
    Some {| image.Pix := replicate (Z.to_nat (4 * w * h)) 0;
            image.Stride := 4 * w;
            image.Bounds := image.Rect 0 0 w h |}.
Proof.
  intros Hw Hh Hfit. unfold image.NewRGBA, image.Rect, image.Dx, image.Dy.
  cbn [image.MaxX image.MinX image.MaxY image.MinY].
  rewrite !Z.max_r, !Z.min_l by lia. rewrite !Z.sub_0_r.
  destruct (Z.ltb_spec w 0); [lia|].
  destruct (Z.ltb_spec h 0); [lia|].
  destruct (Z.ltb_spec maxInt (4 * w * h));
    [unfold maxInt, image.maxAlloc in *; lia|].
  destruct (Z.ltb_spec image.maxAlloc (4 * w * h)); [lia|]. reflexivity.
Qed.

Lemma NewRGBA_Rect_None (w h : Z) :
  0 < w -> 0 < h -> image.maxAlloc < 4 * w * h ->
  image.NewRGBA (image.Rect 0 0 w h) = None.
Proof.
  intros Hw Hh Hfit. unfold image.NewRGBA, image.Rect, image.Dx, image.Dy.
  cbn [image.MaxX image.MinX image.MaxY image.MinY].
  rewrite !Z.max_r, !Z.min_l by lia. rewrite !Z.sub_0_r.
  destruct (Z.ltb_spec w 0); [lia|].
  destruct (Z.ltb_spec h 0); [lia|].
  destruct (Z.ltb_spec image.maxAlloc (4 * w * h)); [|lia].
  now rewrite orb_true_r.
Qed.

Lemma GetClipboardImage_unfold (c : Clipboard) :
  GetClipboardImage c =
    if isClipboardFormatAvailable c =? 0 then Err ErrNoImageInClipboard else
    if openClipboard c =? 0 then Err ErrOpenClipboard else
    if getClipboardData c =? 0 then Err ErrNoImageInClipboard else
    if globalLock c =? 0 then Err ErrLockData else
    if globalSize c =? 0 then Err ErrDataSize else
    if maxClipboardSize <? globalSize c then Err ErrTooLarge else
    afterHeader c.
Proof.
  unfold GetClipboardImage, afterHeader.
  destruct (isClipboardFormatAvailable c =? 0); [reflexivity|].
  destruct (openClipboard c =? 0); [reflexivity|].
  destruct (getClipboardData c =? 0); [reflexivity|].
  destruct (globalLock c =? 0); [reflexivity|].
  destruct (globalSize c =? 0); [reflexivity|].
  destruct (maxClipboardSize <? globalSize c); [reflexivity|].
  fold (header c). fold (imageWidth c) (imageHeight c) (bitDepth c).
  fold (pixelOffset c). fold (rowSize c) (bottomUp c).
  destruct ((imageWidth c <=? 0) || (imageHeight c <=? 0)); [reflexivity|].
  destruct (image.NewRGBA (image.Rect 0 0 (imageWidth c) (imageHeight c)));
    [|reflexivity].
  destruct (layoutTooSmall _ _ _ _); [reflexivity|].
  destruct (bitDepth c =? 24); [reflexivity|].
  destruct (bitDepth c =? 32); reflexivity.
Qed.

Lemma delivered_afterHeader (c : Clipboard) :
  delivered c -> GetClipboardImage c = afterHeader c.
Proof.
  intros (H1 & H2 & H3 & H4 & H5 & H6). rewrite GetClipboardImage_unfold.
  apply Z.eqb_neq in H1, H2, H3, H4, H5. rewrite H1, H2, H3, H4, H5.
  destruct (Z.ltb_spec maxClipboardSize (globalSize c)); [lia|reflexivity].
Qed.

(** A result other than the six early errors went through the header. *)
Lemma afterHeader_delivered (c : Clipboard) :
  (forall e, In e [ErrNoImageInClipboard; ErrOpenClipboard; ErrLockData;
                   ErrDataSize; ErrTooLarge] ->
             GetClipboardImage c <> Err e) ->
  delivered c.
Proof.
  intros Hne. rewrite GetClipboardImage_unfold in Hne. unfold delivered.
  destruct (Z.eqb_spec (isClipboardFormatAvailable c) 0).
  { exfalso. apply (Hne ErrNoImageInClipboard); cbn; auto. }
  destruct (Z.eqb_spec (openClipboard c) 0).
  { exfalso. apply (Hne ErrOpenClipboard); cbn; auto. }
  destruct (Z.eqb_spec (getClipboardData c) 0).
  { exfalso. apply (Hne ErrNoImageInClipboard); cbn; auto. }
  destruct (Z.eqb_spec (globalLock c) 0).
  { exfalso. apply (Hne ErrLockData); cbn; auto. }
  destruct (Z.eqb_spec (globalSize c) 0).
  { exfalso. apply (Hne ErrDataSize); cbn; auto. }
  destruct (Z.ltb_spec maxClipboardSize (globalSize c)).
  { exfalso. apply (Hne ErrTooLarge); cbn; auto 10. }
  repeat split; assumption.
Qed.

Lemma Ok_delivered (c : Clipboard) (r : CaptureResult) :
  GetClipboardImage c = Ok r -> delivered c.
Proof.
  intros HOk. apply afterHeader_delivered. intros e _. rewrite HOk. discriminate.
Qed.

(** The conversion succeeds once the checks before it have passed. *)
Lemma afterHeader_converts (c : Clipboard) :
  0 < imageWidth c -> 0 < imageHeight c ->
  4 * imageWidth c * imageHeight c <= image.maxAlloc ->
  layoutTooSmall (globalSize c) (pixelOffset c) (rowSize c) (imageHeight c)
    = false ->
  bitDepth c = 24 \/ bitDepth c = 32 ->
  exists pix,
    afterHeader c =
      Ok {| Width := imageWidth c; Height := imageHeight c; Data := pix |} /\
    Z.of_nat (length pix) = 4 * imageWidth c * imageHeight c /\
    filled (convertedPixel c) (imageWidth c)
      (imageHeight c * imageWidth c) pix.
Proof.
  intros HW HH Hfit Hlay Hd. unfold afterHeader.
  destruct (Z.leb_spec (imageWidth c) 0); [lia|].
  destruct (Z.leb_spec (imageHeight c) 0); [lia|]. cbn [orb].
  rewrite NewRGBA_Rect by assumption. rewrite Hlay. cbn [image.Pix].
  set (buf := replicate (Z.to_nat (4 * imageWidth c * imageHeight c)) 0).
  assert (Hlen : Z.of_nat (length buf) = 4 * imageWidth c * imageHeight c).
  { subst buf. rewrite length_replicate. lia. }
  destruct (storeRows_spec (convertedPixel c) (imageWidth c) (imageHeight c) buf)
    as (pix & Hrun & Hl & Hf); [lia|lia|assumption|].
  exists pix. split; [|split; [lia|assumption]].
  unfold storeRows, convertedPixel in Hrun. unfold convertRows.
  destruct Hd as [Hd|Hd]; rewrite Hd in *; cbn [Z.eqb Pos.eqb] in *;
    unfold sourceAddr in Hrun; rewrite Hrun; reflexivity.
Qed.

(** Conversely, a successful run passed every check. *)
Lemma afterHeader_Ok_inv (c : Clipboard) (r : CaptureResult) :
  afterHeader c = Ok r ->
  0 < imageWidth c /\ 0 < imageHeight c /\
  4 * imageWidth c * imageHeight c <= image.maxAlloc /\
  layoutTooSmall (globalSize c) (pixelOffset c) (rowSize c) (imageHeight c)
    = false /\
  (bitDepth c = 24 \/ bitDepth c = 32).
Proof.
  unfold afterHeader.
  destruct (Z.leb_spec (imageWidth c) 0); [discriminate|].
  destruct (Z.leb_spec (imageHeight c) 0); [discriminate|]. cbn [orb].
  destruct (Z_le_gt_dec (4 * imageWidth c * imageHeight c) image.maxAlloc) as [Hfit|Hfit].
  2: { rewrite NewRGBA_Rect_None by lia. discriminate. }
  rewrite NewRGBA_Rect by lia.
  destruct (layoutTooSmall _ _ _ _); [discriminate|].
  destruct (Z.eqb_spec (bitDepth c) 24); [intros _; repeat split; auto; lia|].
  destruct (Z.eqb_spec (bitDepth c) 32); [intros _; repeat split; auto; lia|].
  discriminate.
Qed.

Lemma GetClipboardImage_Ok (c : Clipboard) (r : CaptureResult) :
  GetClipboardImage c = Ok r ->
  Width r = imageWidth c /\ Height r = imageHeight c /\
  0 < imageWidth c /\ 0 < imageHeight c /\
  (bitDepth c = 24 \/ bitDepth c = 32) /\
  Z.of_nat (length (Data r)) = 4 * imageWidth c * imageHeight c /\
  filled (convertedPixel c) (imageWidth c)
    (imageHeight c * imageWidth c) (Data r).
Proof.
  intros HOk. pose proof (Ok_delivered c r HOk) as Hdel.
  rewrite (delivered_afterHeader c Hdel) in HOk.
  destruct (afterHeader_Ok_inv c r HOk) as (HW & HH & Hfit & Hlay & Hd).
  destruct (afterHeader_converts c HW HH Hfit Hlay Hd) as (pix & E & Hl & Hf).
  rewrite E in HOk. injection HOk as <-. cbn. auto 10.
Qed.

Lemma uintptr_range z : 0 <= uintptr z < 2 ^ 64.
Proof. unfold uintptr. apply Z.mod_pos_bound. lia. Qed.

Lemma uintptr_small z : 0 <= z < 2 ^ 64 -> uintptr z = z.
Proof. intros Hz. unfold uintptr. apply Z.mod_small. assumption. Qed.

Lemma uintptr_add_l a b : uintptr (uintptr a + b) = uintptr (a + b).
Proof. unfold uintptr. apply Zplus_mod_idemp_l. Qed.

Lemma uintptr_add_r a b : uintptr (a + uintptr b) = uintptr (a + b).
Proof. unfold uintptr. apply Zplus_mod_idemp_r. Qed.

Lemma loadByte_range mem a : 0 <= loadByte mem a < 2 ^ 8.
Proof. unfold loadByte, uint8. apply Z.mod_pos_bound. lia. Qed.

Lemma loadByte_uintptr mem a : loadByte mem (uintptr a) = loadByte mem a.
Proof.
  unfold loadByte. f_equal. f_equal. unfold uintptr. apply Z.mod_mod. lia.
Qed.

Lemma loadU16_range mem a : 0 <= loadU16 mem a < 2 ^ 16.
Proof.
  unfold loadU16.
  pose proof (loadByte_range mem a). pose proof (loadByte_range mem (a + 1)).
  lia.
Qed.

Lemma loadU32_range mem a : 0 <= loadU32 mem a < 2 ^ 32.
Proof.
  unfold loadU32.
  pose proof (loadU16_range mem a). pose proof (loadU16_range mem (a + 2)).
  lia.
Qed.

Lemma int32_range z : - 2 ^ 31 <= int32 z < 2 ^ 31.
Proof.
  unfold int32, uint32.
  pose proof (Z.mod_pos_bound z (2 ^ 32) ltac:(lia)).
  destruct (Z.ltb_spec (z mod 2 ^ 32) (2 ^ 31)); lia.
Qed.

Lemma imageWidth_range c : - 2 ^ 31 <= imageWidth c < 2 ^ 31.
Proof. apply int32_range. Qed.

Lemma bitDepth_range c : 0 <= bitDepth c < 2 ^ 16.
Proof. apply loadU16_range. Qed.

(** Without a colour table the pixel data starts right after the
    header. *)
Lemma pixelOffset_deep (c : Clipboard) :
  8 < bitDepth c -> pixelOffset c = BiSize (header c).
Proof.
  intros Hd. unfold pixelOffset, pixelOffsetOf. fold (bitDepth c).
  destruct (Z.leb_spec (bitDepth c) 8); [lia|].
  apply uintptr_small. pose proof (loadU32_range (memory c) (globalLock c)).
  cbn [header headerAt BiSize]. lia.
Qed.

Lemma pixelOffset_range (c : Clipboard) : 0 <= pixelOffset c < 2 ^ 64.
Proof.
  unfold pixelOffset, pixelOffsetOf.
  destruct (_ <=? 8); apply uintptr_range.
Qed.

Lemma rowSizeOf_24 (w : Z) :
  0 < w -> 3 * w <= rowSizeOf w 24 <= 4 * w.
Proof.
  intros Hw. unfold rowSizeOf. rewrite Z.quot_div_nonneg by lia.
  pose proof (Z.div_mod (w * 24 + 31) 32 ltac:(lia)).
  pose proof (Z.mod_pos_bound (w * 24 + 31) 32 ltac:(lia)). lia.
Qed.

Lemma rowSizeOf_32 (w : Z) : 0 < w -> rowSizeOf w 32 = 4 * w.
Proof.
  intros Hw. unfold rowSizeOf. rewrite Z.quot_div_nonneg by lia.
  replace (w * 32 + 31) with (w * 32 + 31) by lia.
  rewrite Z.div_add_l by lia. change (31 / 32) with 0. lia.
Qed.

(** A row holds its pixels: [bpp * w <= rowSize <= 4 * w]. *)
Lemma rowSize_bounds (c : Clipboard) (bpp : Z) :
  0 < imageWidth c ->
  (bitDepth c = 24 /\ bpp = 3) \/ (bitDepth c = 32 /\ bpp = 4) ->
  bpp * imageWidth c <= rowSize c <= 4 * imageWidth c.
Proof.
  intros HW [[Hd ->]|[Hd ->]]; unfold rowSize; rewrite Hd.
  - pose proof (rowSizeOf_24 (imageWidth c) HW). lia.
  - rewrite rowSizeOf_32 by assumption. lia.
Qed.

Lemma wellFormed_layout (c : Clipboard) :
  wellFormedBuffer c ->
  4 * imageWidth c * imageHeight c <= image.maxAlloc /\
  layoutTooSmall (globalSize c) (pixelOffset c) (rowSize c) (imageHeight c)
    = false.
Proof.
  intros (Hdel & Hd & HW & HH & Hfit).
  destruct Hdel as (_ & _ & _ & _ & _ & Hmax).
  pose proof (pixelOffset_range c) as Hoff.
  assert (Hrow : 3 * imageWidth c <= rowSize c <= 4 * imageWidth c).
  { destruct Hd as [Hd|Hd].
    - apply (rowSize_bounds c 3); auto.
    - pose proof (rowSize_bounds c 4 HW). lia. }
  unfold maxClipboardSize in Hmax.
  assert (0 <= rowSize c * imageHeight c) by nia.
  split.
  - unfold image.maxAlloc. nia.
  - unfold layoutTooSmall. rewrite !uintptr_small by lia.
    apply Z.ltb_ge. lia.
Qed.

(** The alpha byte the decoder stores for logical pixel [(x, y)]. *)
Lemma convertedPixel_alpha (c : Clipboard) (y x : Z) :
  bitDepth c = 24 \/ bitDepth c = 32 ->
  let a := loadByte (memory c) (sourceAddr c 4 y x + 3) in
  channel 3 (convertedPixel c y x) =
    if bitDepth c =? 24 then 255 else if a =? 0 then 255 else a.
Proof.
  intros [Hd|Hd] a; unfold convertedPixel; rewrite Hd; reflexivity.
Qed.

(** C3, as amended: a well-formed buffer decodes to W*H pixels of four
    bytes; the alpha of a 24-bit image is 255 everywhere, the alpha of a
    32-bit image is the source alpha where that is not zero and 255
    where it is zero, hence never zero. *)
Theorem wellFormed_decodes (c : Clipboard) :
  wellFormedBuffer c ->
  exists r,
    GetClipboardImage c = Ok r /\
    Width r = imageWidth c /\ Height r = imageHeight c /\
    Z.of_nat (length (Data r)) = 4 * (imageWidth c * imageHeight c) /\
    forall y x, 0 <= y < imageHeight c -> 0 <= x < imageWidth c ->
      exists a,
        Data r !! Z.to_nat ((y * imageWidth c + x) * 4 + 3) = Some a /\
        1 <= a <= 255 /\
        (bitDepth c = 24 -> a = 255) /\
        (bitDepth c = 32 ->
           let srcA := loadByte (memory c) (sourceAddr c 4 y x + 3) in
           a = if srcA =? 0 then 255 else srcA).
Proof.
  intros Hwf. destruct (wellFormed_layout c Hwf) as (Hfit & Hlay).
  destruct Hwf as (Hdel & Hd & HW & HH & _).
  destruct (afterHeader_converts c HW HH Hfit Hlay Hd) as (pix & E & Hl & Hf).
  exists {| Width := imageWidth c; Height := imageHeight c; Data := pix |}.
  rewrite (delivered_afterHeader c Hdel). cbn [Width Height Data].
  split; [assumption|]. split; [reflexivity|]. split; [reflexivity|].
  split; [lia|]. intros y x Hy Hx.
  exists (channel 3 (convertedPixel c y x)).
  split; [apply (filled_lookup _ _ (imageHeight c)); auto; lia|].
  rewrite (convertedPixel_alpha c y x Hd). cbv zeta.
  pose proof (loadByte_range (memory c) (sourceAddr c 4 y x + 3)) as Hr.
  destruct Hd as [Hd|Hd]; rewrite Hd; cbn [Z.eqb Pos.eqb].
  - repeat split; try lia; intros [=].
  - destruct (Z.eqb_spec (loadByte (memory c) (sourceAddr c 4 y x + 3)) 0);
      repeat split; try lia; try (intros [=]); reflexivity.
Qed.

Lemma translucentPixel_wellFormed : wellFormedBuffer translucentPixel.
Proof.
  unfold wellFormedBuffer, delivered.
  repeat split; try (vm_compute; congruence).
  right. reflexivity.
Qed.

Lemma wellFormed_decodes_witness :
  wellFormedBuffer translucentPixel /\
  exists r, GetClipboardImage translucentPixel = Ok r /\
            Z.of_nat (length (Data r)) = 4 /\
            Data r !! 3%nat = Some 128.
Proof.
  assert (Hwf : wellFormedBuffer translucentPixel).
  { unfold wellFormedBuffer, delivered.
    repeat split; try (vm_compute; congruence).
    right. reflexivity. }
  split; [exact Hwf|].
  destruct (wellFormed_decodes translucentPixel Hwf)
    as (r & E & _ & _ & Hlen & Halpha).
  exists r. split; [assumption|]. split; [exact Hlen|].
  destruct (Halpha 0 0) as (a & Ha & _ & _ & H32); [vm_compute; split; congruence..|].
  rewrite (H32 eq_refl) in Ha. exact Ha.
Defined.

(** C3 as stated fails: a well-formed 32-bit buffer whose only pixel has
    source alpha 128 decodes to alpha 128, not 255. *)
Lemma translucent_not_opaque :
  wellFormedBuffer translucentPixel /\
  exists r, GetClipboardImage translucentPixel = Ok r /\
            Data r = [3; 2; 1; 128] /\ ~ fullyOpaque r.
Proof.
  split; [apply translucentPixel_wellFormed|].
  eexists. split; [vm_compute; reflexivity|]. split; [reflexivity|].
  intros Hop. specialize (Hop 0). cbn in Hop.
  specialize (Hop ltac:(lia)). discriminate.
Qed.

(** In the image the loops build from a 32-bit buffer the pixel at
    [(x, y)] is the source quadruplet (B,G,R,A) reordered to
    (R,G,B,A'), where A' is 255 when A is 0 and A otherwise. *)
Lemma decode32_pixel (c : Clipboard) (r : CaptureResult) (y x : Z) :
  GetClipboardImage c = Ok r ->
  bitDepth c = 32 ->
  0 <= y < Height r -> 0 <= x < Width r ->
  let addr := sourceAddr c 4 y x in
  let B := loadByte (memory c) addr in
  let G := loadByte (memory c) (addr + 1) in
  let R := loadByte (memory c) (addr + 2) in
  let A := loadByte (memory c) (addr + 3) in
  let base := (y * Width r + x) * 4 in
  Data r !! Z.to_nat (base + 0) = Some R /\
  Data r !! Z.to_nat (base + 1) = Some G /\
  Data r !! Z.to_nat (base + 2) = Some B /\
  Data r !! Z.to_nat (base + 3) = Some (if A =? 0 then 255 else A) /\
  (A = 0 -> Data r !! Z.to_nat (base + 3) = Some 255) /\
  (A <> 0 -> Data r !! Z.to_nat (base + 3) = Some A).
Proof.
  intros HOk Hd Hy Hx. cbv zeta.
  destruct (GetClipboardImage_Ok c r HOk) as (EW & EH & HW & HH & _ & _ & Hf).
  rewrite EW in *. rewrite EH in *.
  assert (Hk : forall k, 0 <= k < 4 ->
    Data r !! Z.to_nat ((y * imageWidth c + x) * 4 + k) =
      Some (channel k (pixel32 (memory c) (sourceAddr c 4 y x)))).
  { intros k Hk.
    rewrite (filled_lookup _ _ (imageHeight c) y x k _ HW Hf) by lia.
    unfold convertedPixel. rewrite Hd. reflexivity. }
  rewrite !Hk by lia. unfold pixel32, channel; cbn [Z.eqb Pos.eqb].
  repeat split.
  - intros ->. reflexivity.
  - intros HA. apply Z.eqb_neq in HA. rewrite HA. reflexivity.
Qed.

Lemma uintptr_sum3 (a b k : Z) :
  uintptr (uintptr a + uintptr b + k) = uintptr (a + b + k).
Proof.
  unfold uintptr.
  replace (a mod 2 ^ 64 + b mod 2 ^ 64 + k)
    with (b mod 2 ^ 64 + (a mod 2 ^ 64 + k)) by ring.
  rewrite Zplus_mod_idemp_l.
  replace (b + (a mod 2 ^ 64 + k)) with (a mod 2 ^ 64 + (b + k)) by ring.
  rewrite Zplus_mod_idemp_l. f_equal. ring.
Qed.

Lemma pixelAddr_wrap (p q r k : Z) :
  uintptr (uintptr (uintptr (uintptr p + uintptr q) + uintptr r) + k) =
    uintptr (p + q + r + k).
Proof.
  rewrite (uintptr_add_l (uintptr (uintptr p + uintptr q) + uintptr r) k).
  rewrite <- (Z.add_0_r (uintptr p + uintptr q)).
  rewrite (uintptr_sum3 (uintptr p + uintptr q + 0) r k).
  replace (uintptr p + uintptr q + 0 + r + k)
    with (uintptr p + uintptr q + (r + k)) by ring.
  rewrite (uintptr_sum3 p q). apply (f_equal uintptr). ring.
Qed.

Lemma load_source (c : Clipboard) (bpp y x k : Z) :
  loadByte (memory c) (sourceAddr c bpp y x + k) =
    stored c (pixelOffset c + sourceRow c y * rowSize c + x * bpp + k).
Proof.
  unfold stored, sourceAddr, pixelAddrOf, sourceRow. cbv zeta.
  rewrite <- (loadByte_uintptr _ (_ + k)).
  rewrite <- (loadByte_uintptr _ (globalLock c + _)).
  apply (f_equal (loadByte (memory c))).
  rewrite pixelAddr_wrap. apply (f_equal uintptr). ring.
Qed.

(** The converted pixel in terms of the bytes stored in the block. *)
Lemma convertedPixel_stored (c : Clipboard) (y x : Z) :
  let o := pixelOffset c + sourceRow c y * rowSize c
           + x * bytesPerPixel c in
  convertedPixel c y x =
    if bitDepth c =? 24
    then (stored c (o + 2), stored c (o + 1), stored c (o + 0), 255)
    else (stored c (o + 2), stored c (o + 1), stored c (o + 0),
          if stored c (o + 3) =? 0 then 255 else stored c (o + 3)).
Proof.
  cbv zeta. unfold convertedPixel, bytesPerPixel.
  destruct (bitDepth c =? 24); unfold pixel24, pixel32;
    rewrite <- !load_source, Z.add_0_r; reflexivity.
Qed.

(** C5: a top-down and a bottom-up buffer that store the same logical
    image decode to the same result. *)
Theorem rowOrder_same_image (c1 c2 : Clipboard) (img : logicalImage) :
  wellFormedBuffer c1 -> wellFormedBuffer c2 ->
  imageWidth c1 = imageWidth c2 ->
  imageHeight c1 = imageHeight c2 ->
  bitDepth c1 = bitDepth c2 ->
  storesTopDown c1 img -> storesBottomUp c2 img ->
  exists r, GetClipboardImage c1 = Ok r /\ GetClipboardImage c2 = Ok r.
Proof.
  intros Hwf1 Hwf2 EW EH Ed [Hneg Htd] [Hpos Hbu].
  destruct (wellFormed_layout c1 Hwf1) as (Hfit1 & Hlay1).
  destruct (wellFormed_layout c2 Hwf2) as (Hfit2 & Hlay2).
  destruct Hwf1 as (Hdel1 & Hd1 & HW1 & HH1 & _).
  destruct Hwf2 as (Hdel2 & Hd2 & HW2 & HH2 & _).
  destruct (afterHeader_converts c1 HW1 HH1 Hfit1 Hlay1 Hd1)
    as (p1 & E1 & Hl1 & Hf1).
  destruct (afterHeader_converts c2 HW2 HH2 Hfit2 Hlay2 Hd2)
    as (p2 & E2 & Hl2 & Hf2).
  rewrite (delivered_afterHeader c1 Hdel1), (delivered_afterHeader c2 Hdel2).
  rewrite E1, E2. rewrite <- EW, <- EH in *.
  assert (p1 = p2) as ->; [|eexists; split; reflexivity].
  apply (filled_ext (convertedPixel c1) (convertedPixel c2)
           (imageWidth c1) (imageHeight c1)); try assumption; try lia.
  intros y x Hy Hx.
  pose proof (convertedPixel_stored c1 y x) as S1.
  pose proof (convertedPixel_stored c2 y x) as S2. cbv zeta in S1, S2.
  rewrite S1, S2. clear S1 S2.
  assert (Eb : bytesPerPixel c2 = bytesPerPixel c1)
    by (unfold bytesPerPixel; now rewrite Ed).
  assert (Hb : 3 <= bytesPerPixel c1 <= 4)
    by (unfold bytesPerPixel; destruct (_ =? 24); lia).
  assert (R1 : sourceRow c1 y = y).
  { unfold sourceRow, bottomUp.
    destruct (Z.ltb_spec 0 (BiHeight (header c1))); [lia|reflexivity]. }
  assert (R2 : sourceRow c2 y = imageHeight c1 - 1 - y).
  { unfold sourceRow, bottomUp.
    destruct (Z.ltb_spec 0 (BiHeight (header c2))); [lia|lia]. }
  rewrite R1, R2, <- Ed.
  assert (K : forall k, 0 <= k < bytesPerPixel c1 ->
    stored c1 (pixelOffset c1 + y * rowSize c1 + x * bytesPerPixel c1 + k) =
    stored c2 (pixelOffset c2 + (imageHeight c1 - 1 - y) * rowSize c2
               + x * bytesPerPixel c2 + k)).
  { intros k Hk. rewrite Htd by assumption.
    symmetry. apply Hbu; auto. now rewrite Eb. }
  rewrite !K by lia.
  destruct (Z.eqb_spec (bitDepth c1) 24) as [E24|N24]; [reflexivity|].
  assert (bytesPerPixel c1 = 4) as Hb4.
  { unfold bytesPerPixel. destruct (Z.eqb_spec (bitDepth c1) 24); [lia|reflexivity]. }
  rewrite !K by lia. reflexivity.
Qed.

Lemma sameLayout_scalars (c1 c2 : Clipboard) :
  sameLayoutFields c1 c2 ->
  imageWidth c1 = imageWidth c2 /\ imageHeight c1 = imageHeight c2 /\
  bitDepth c1 = bitDepth c2 /\ bottomUp c1 = bottomUp c2 /\
  pixelOffset c1 = pixelOffset c2 /\ rowSize c1 = rowSize c2.
Proof.
  intros (ES & EW & EH & EB & EC).
  unfold imageWidth, imageHeight, bitDepth, bottomUp, pixelOffset, rowSize,
    pixelOffsetOf, imageWidth, bitDepth.
  rewrite ES, EW, EH, EB, EC. repeat split.
Qed.

Lemma accepts_true (c : Clipboard) :
  accepts c = true ->
  0 < imageWidth c /\ 0 < imageHeight c /\
  4 * imageWidth c * imageHeight c <= image.maxAlloc /\
  layoutTooSmall (globalSize c) (pixelOffset c) (rowSize c) (imageHeight c)
    = false /\
  (bitDepth c = 24 \/ bitDepth c = 32).
Proof.
  unfold accepts. rewrite !andb_true_iff, orb_true_iff, negb_true_iff.
  rewrite !Z.ltb_lt, Z.leb_le, !Z.eqb_eq. tauto.
Qed.

Lemma afterHeader_rejects (c : Clipboard) :
  accepts c = false -> afterHeader c = rejection c.
Proof.
  unfold accepts, afterHeader, rejection. intros Hacc.
  destruct ((imageWidth c <=? 0) || (imageHeight c <=? 0)) eqn:Hdim;
    [reflexivity|].
  apply orb_false_elim in Hdim as [HW HH]. apply Z.leb_gt in HW, HH.
  destruct (Z.ltb_spec image.maxAlloc (4 * imageWidth c * imageHeight c)) as [Hfit|Hfit].
  { now rewrite NewRGBA_Rect_None by lia. }
  rewrite NewRGBA_Rect by lia.
  destruct (layoutTooSmall _ _ _ _); [reflexivity|].
  apply Z.ltb_lt in HW, HH. apply Z.leb_le in Hfit.
  rewrite HW, HH, Hfit in Hacc. cbn [andb negb] in Hacc.
  apply orb_false_elim in Hacc as [-> ->]. reflexivity.
Qed.


Lemma rowOrder_same_image_witness :
  exists r, GetClipboardImage twoRowsTopDown = Ok r /\
            GetClipboardImage twoRowsBottomUp = Ok r.
Proof.
  apply (rowOrder_same_image twoRowsTopDown twoRowsBottomUp twoRows).
  - unfold wellFormedBuffer, delivered.
    repeat split; try (vm_compute; congruence). right. reflexivity.
  - unfold wellFormedBuffer, delivered.
    repeat split; try (vm_compute; congruence). right. reflexivity.
  - reflexivity.
  - reflexivity.
  - reflexivity.
  - split; [vm_compute; reflexivity|].
    change (imageHeight twoRowsTopDown) with 2.
    change (imageWidth twoRowsTopDown) with 1.
    change (bytesPerPixel twoRowsTopDown) with 4.
    intros y x k Hy Hx Hk.
    assert (x = 0) as -> by lia.
    assert (y = 0 \/ y = 1) as [-> | ->] by lia;
      assert (k = 0 \/ k = 1 \/ k = 2 \/ k = 3) as [-> | [-> | [-> | ->]]]
        by lia; vm_compute; reflexivity.
  - split; [vm_compute; reflexivity|].
    change (imageHeight twoRowsBottomUp) with 2.
    change (imageWidth twoRowsBottomUp) with 1.
    change (bytesPerPixel twoRowsBottomUp) with 4.
    intros y x k Hy Hx Hk.
    assert (x = 0) as -> by lia.
    assert (y = 0 \/ y = 1) as [-> | ->] by lia;
      assert (k = 0 \/ k = 1 \/ k = 2 \/ k = 3) as [-> | [-> | [-> | ->]]]
        by lia; vm_compute; reflexivity.
Defined.


(** C2 as stated fails: a 16-bit buffer that is too short for one pixel
    is turned down for its layout, not for its depth. *)
Lemma depth16Short_invalid_layout :
  bitDepth depth16Short = 16 /\
  GetClipboardImage depth16Short = Err ErrInvalidLayout /\
  GetClipboardImage depth16Short <> Err ErrUnsupportedDepth.
Proof.
  split; [reflexivity|]. split; [vm_compute; reflexivity|].
  vm_compute. discriminate.
Qed.

(** C2, as amended: the depth is looked at last, after the image has
    been allocated and the layout has been checked.  A delivered buffer
    with positive dimensions whose depth is neither 24 nor 32 never
    decodes; an error it returns is InvalidLayout when the layout check
    fails and UnsupportedDepth otherwise; and it does return that error
    when the image is of a size within the cap. *)
Theorem depth_checked_last (c : Clipboard) :
  delivered c ->
  0 < imageWidth c -> 0 < imageHeight c ->
  bitDepth c <> 24 -> bitDepth c <> 32 ->
  (forall r, GetClipboardImage c <> Ok r) /\
  (forall e, GetClipboardImage c = Err e -> e = lateVerdict c) /\
  (withinCap c -> GetClipboardImage c = Err (lateVerdict c)).
Proof.
  intros Hdel HW HH N24 N32.
  assert (E : GetClipboardImage c =
              if image.maxAlloc <? 4 * imageWidth c * imageHeight c
              then Panic else Err (lateVerdict c)).
  { rewrite (delivered_afterHeader c Hdel), afterHeader_rejects.
    - unfold rejection, lateVerdict.
      destruct (Z.leb_spec (imageWidth c) 0); [lia|].
      destruct (Z.leb_spec (imageHeight c) 0); [lia|]. cbn [orb].
      destruct (image.maxAlloc <? 4 * imageWidth c * imageHeight c);
        [reflexivity|].
      destruct (layoutTooSmall _ _ _ _); reflexivity.
    - unfold accepts. apply Z.eqb_neq in N24, N32. rewrite N24, N32.
      now rewrite andb_false_r. }
  rewrite E. split; [|split].
  - intros r. destruct (_ <? _); discriminate.
  - intros e. destruct (_ <? _); [discriminate|]. now intros [= <-].
  - unfold withinCap, maxClipboardSize, image.maxAlloc. intros Hcap.
    destruct (Z.ltb_spec (2 ^ 48) (4 * imageWidth c * imageHeight c));
      [lia|reflexivity].
Qed.

Lemma depth_checked_last_witness :
  GetClipboardImage depth16Short = Err ErrInvalidLayout /\
  GetClipboardImage depth16 = Err ErrUnsupportedDepth.
Proof.
  split.
  - destruct (depth_checked_last depth16Short) as (_ & _ & H).
    + unfold delivered. repeat split; vm_compute; congruence.
    + reflexivity.
    + reflexivity.
    + vm_compute. congruence.
    + vm_compute. congruence.
    + apply H. vm_compute. congruence.
  - destruct (depth_checked_last depth16) as (_ & _ & H).
    + unfold delivered. repeat split; vm_compute; congruence.
    + reflexivity.
    + reflexivity.
    + vm_compute. congruence.
    + vm_compute. congruence.
    + apply H. vm_compute. congruence.
Defined.

(** C9: the package-level not-found error is returned at two sites: when
    the format is absent, before the clipboard is opened, and when the
    data handle is null, after it has been opened. *)
Theorem notFound_two_sites (c1 c2 : Clipboard) :
  isClipboardFormatAvailable c1 = 0 ->
  isClipboardFormatAvailable c2 <> 0 ->
  openClipboard c2 <> 0 ->
  getClipboardData c2 = 0 ->
  GetClipboardImage c1 = Err ErrNoImageInClipboard /\
  GetClipboardImage c2 = Err ErrNoImageInClipboard.
Proof.
  intros H1 H2 H3 H4. rewrite !GetClipboardImage_unfold.
  apply Z.eqb_neq in H2, H3. rewrite H1, H2, H3, H4. split; reflexivity.
Qed.

Lemma notFound_two_sites_witness :
  GetClipboardImage formatAbsent = Err ErrNoImageInClipboard /\
  GetClipboardImage handleNull = Err ErrNoImageInClipboard.
Proof.
  apply notFound_two_sites.
  - reflexivity.
  - vm_compute. congruence.
  - vm_compute. congruence.
  - reflexivity.
Defined.

(** When the pixel offset lies inside the block, the validation does
    bound the reads: every source byte of a decoded image sits at an
    offset below the declared length. *)
Lemma reads_within_block (c : Clipboard) (r : CaptureResult) (y x k : Z) :
  GetClipboardImage c = Ok r ->
  pixelOffset c <= globalSize c ->
  0 <= y < imageHeight c -> 0 <= x < imageWidth c ->
  0 <= k < bytesPerPixel c ->
  0 <= pixelOffset c + sourceRow c y * rowSize c + x * bytesPerPixel c + k
    < globalSize c.
Proof.
  intros HOk Hoff Hy Hx Hk.
  pose proof (Ok_delivered c r HOk) as Hdel.
  rewrite (delivered_afterHeader c Hdel) in HOk.
  destruct (afterHeader_Ok_inv c r HOk) as (HW & HH & Hfit & Hlay & Hd).
  destruct Hdel as (_ & _ & _ & _ & _ & Hmax). unfold maxClipboardSize in Hmax.
  pose proof (pixelOffset_range c) as Ho.
  assert (Hrow : bytesPerPixel c * imageWidth c <= rowSize c
                 <= 4 * imageWidth c).
  { apply rowSize_bounds; [assumption|]. unfold bytesPerPixel.
    destruct Hd as [Hd|Hd]; rewrite Hd; cbn; auto. }
  assert (Hb : 3 <= bytesPerPixel c <= 4)
    by (unfold bytesPerPixel; destruct (_ =? 24); lia).
  assert (Hs : 0 <= sourceRow c y < imageHeight c)
    by (unfold sourceRow; destruct (bottomUp c); lia).
  unfold layoutTooSmall, image.maxAlloc in *.
  rewrite !uintptr_small in Hlay by nia.
  apply Z.ltb_ge in Hlay. nia.
Qed.

(** The size cap comes first: a block above 100 MiB is turned down
    whatever its header says. *)
Lemma tooLarge_first (c : Clipboard) :
  isClipboardFormatAvailable c <> 0 -> openClipboard c <> 0 ->
  getClipboardData c <> 0 -> globalLock c <> 0 ->
  maxClipboardSize < globalSize c ->
  GetClipboardImage c = Err ErrTooLarge.
Proof.
  intros H1 H2 H3 H4 H5. rewrite GetClipboardImage_unfold.
  apply Z.eqb_neq in H1, H2, H3, H4. rewrite H1, H2, H3, H4.
  destruct (Z.eqb_spec (globalSize c) 0); [unfold maxClipboardSize in *; lia|].
  destruct (Z.ltb_spec maxClipboardSize (globalSize c)); [reflexivity|lia].
Qed.

(** The validation is void once the pixel offset exceeds the declared
    length: the unsigned difference wraps around to a huge value, and
    any image of fewer bytes than that passes. *)
Lemma validation_wraps (c : Clipboard) :
  0 <= globalSize c < pixelOffset c ->
  0 <= rowSize c * imageHeight c
    <= 2 ^ 64 - (pixelOffset c - globalSize c) ->
  layoutTooSmall (globalSize c) (pixelOffset c) (rowSize c) (imageHeight c)
    = false.
Proof.
  intros Hoff Himg. pose proof (pixelOffset_range c) as Ho.
  unfold layoutTooSmall. apply Z.ltb_ge.
  assert (E : uintptr (globalSize c - pixelOffset c)
              = globalSize c - pixelOffset c + 2 ^ 64).
  { unfold uintptr. symmetry. apply (Z.mod_unique_pos _ _ (-1)); lia. }
  rewrite E. unfold uintptr.
  pose proof (Z.mod_le (rowSize c * imageHeight c) (2 ^ 64)
                ltac:(lia) ltac:(lia)).
  lia.
Qed.

(** C1 at the failing input: the header claims 1000 bytes in a block of
    44; the subtraction of the validation wraps around, the check
    passes, and the pixel is read 1000 bytes after the start of the
    block, where memory holds 170. *)
Theorem oversizedHeader_reads_outside :
  globalSize oversizedHeader = 44 /\
  pixelOffset oversizedHeader = 1000 /\
  layoutTooSmall 44 1000 (rowSize oversizedHeader) 1 = false /\
  GetClipboardImage oversizedHeader =
    Ok {| Width := 1; Height := 1; Data := [170; 170; 170; 170] |} /\
  sourceAddr oversizedHeader 4 0 0 = globalLock oversizedHeader + 1000 /\
  globalLock oversizedHeader + globalSize oversizedHeader
    <= sourceAddr oversizedHeader 4 0 0.
Proof.
  repeat split; vm_compute; congruence.
Qed.



(** Two clipboards that agree on the call results, on the five layout
    fields and, when the header is accepted, on the pixel bytes of every
    row give the same result. *)
Lemma same_result (c1 c2 : Clipboard) :
  sameCalls c1 c2 -> sameLayoutFields c1 c2 ->
  (accepts c1 = true -> samePixelsOnly c1 c2) ->
  GetClipboardImage c1 = GetClipboardImage c2.
Proof.
  intros (E1 & E2 & E3 & E4 & E5) Hhdr Hpix.
  destruct (sameLayout_scalars c1 c2 Hhdr) as (EW & EH & Ed & Ebu & Eo & Er).
  rewrite !GetClipboardImage_unfold, <- E1, <- E2, <- E3, <- E4, <- E5.
  destruct (isClipboardFormatAvailable c1 =? 0); [reflexivity|].
  destruct (openClipboard c1 =? 0); [reflexivity|].
  destruct (getClipboardData c1 =? 0); [reflexivity|].
  destruct (globalLock c1 =? 0); [reflexivity|].
  destruct (globalSize c1 =? 0); [reflexivity|].
  destruct (maxClipboardSize <? globalSize c1); [reflexivity|].
  assert (Eacc : accepts c2 = accepts c1)
    by (unfold accepts; now rewrite <- EW, <- EH, <- Ed, <- Eo, <- Er, <- E5).
  destruct (accepts c1) eqn:A1.
  - specialize (Hpix eq_refl).
    destruct (accepts_true c1 A1) as (HW & HH & Hfit & Hlay & Hd).
    destruct (accepts_true c2 Eacc) as (HW2 & HH2 & Hfit2 & Hlay2 & Hd2).
    destruct (afterHeader_converts c1 HW HH Hfit Hlay Hd)
      as (p1 & F1 & Hl1 & Hf1).
    destruct (afterHeader_converts c2 HW2 HH2 Hfit2 Hlay2 Hd2)
      as (p2 & F2 & Hl2 & Hf2).
    rewrite F1, F2, <- EW, <- EH. rewrite <- EW, <- EH in Hl2, Hf2.
    assert (p1 = p2) as ->; [|reflexivity].
    apply (filled_ext (convertedPixel c1) (convertedPixel c2)
             (imageWidth c1) (imageHeight c1)); try assumption; try lia.
    intros y x Hy Hx.
    pose proof (convertedPixel_stored c1 y x) as S1.
    pose proof (convertedPixel_stored c2 y x) as S2. cbv zeta in S1, S2.
    rewrite S1, S2. clear S1 S2.
    assert (Eb : bytesPerPixel c2 = bytesPerPixel c1)
      by (unfold bytesPerPixel; now rewrite Ed).
    assert (Es : sourceRow c2 y = sourceRow c1 y)
      by (unfold sourceRow; now rewrite Ebu, EH).
    rewrite <- Ed, <- Eo, <- Er, Eb, Es.
    assert (Hs : 0 <= sourceRow c1 y < imageHeight c1)
      by (unfold sourceRow; destruct (bottomUp c1); lia).
    assert (Hb : 3 <= bytesPerPixel c1 <= 4)
      by (unfold bytesPerPixel; destruct (_ =? 24); lia).
    assert (K : forall k, 0 <= k < bytesPerPixel c1 ->
      stored c1 (pixelOffset c1 + sourceRow c1 y * rowSize c1
                 + x * bytesPerPixel c1 + k) =
      stored c2 (pixelOffset c1 + sourceRow c1 y * rowSize c1
                 + x * bytesPerPixel c1 + k)).
    { intros k Hk.
      replace (pixelOffset c1 + sourceRow c1 y * rowSize c1
               + x * bytesPerPixel c1 + k)
        with (pixelOffset c1 + sourceRow c1 y * rowSize c1
               + (x * bytesPerPixel c1 + k)) by ring.
      apply Hpix; [assumption|nia]. }
    rewrite !K by lia.
    destruct (Z.eqb_spec (bitDepth c1) 24) as [E24|N24]; [reflexivity|].
    assert (bytesPerPixel c1 = 4) as Hb4.
    { unfold bytesPerPixel.
      destruct (Z.eqb_spec (bitDepth c1) 24); [lia|reflexivity]. }
    rewrite !K by lia. reflexivity.
  - rewrite !afterHeader_rejects by assumption.
    unfold rejection. now rewrite <- EW, <- EH, <- Eo, <- Er, <- E5.
Qed.

(** A load inside the block reads the same byte from both memories. *)
Lemma loadByte_block (c1 c2 : Clipboard) (a : Z) :
  globalLock c1 = globalLock c2 -> sameBlock c1 c2 ->
  0 <= a - globalLock c1 < globalSize c1 ->
  loadByte (memory c1) a = loadByte (memory c2) a.
Proof.
  intros El Hb Ha. specialize (Hb (a - globalLock c1) Ha).
  unfold stored in Hb. rewrite <- El in Hb.
  replace (globalLock c1 + (a - globalLock c1)) with a in Hb by ring.
  exact Hb.
Qed.

(** The header is read from the first 40 bytes of the block. *)
Lemma sameBlock_header (c1 c2 : Clipboard) :
  globalLock c1 = globalLock c2 -> sameBlock c1 c2 ->
  40 <= globalSize c1 ->
  header c1 = header c2.
Proof.
  intros El Hb Hsz. unfold header, headerAt. rewrite <- El.
  unfold loadI32, loadU32, loadU16.
  rewrite !(loadByte_block c1 c2 _ El Hb) by lia. reflexivity.
Qed.

(** The pixel bytes of an accepted header whose pixel offset lies
    inside the block are bytes of the block. *)
Lemma pixels_within_block (c : Clipboard) (row j : Z) :
  globalSize c <= maxClipboardSize ->
  accepts c = true -> pixelOffset c <= globalSize c ->
  0 <= row < imageHeight c ->
  0 <= j < bytesPerPixel c * imageWidth c ->
  0 <= pixelOffset c + row * rowSize c + j < globalSize c.
Proof.
  intros Hmax Hacc Hoff Hrow Hj.
  destruct (accepts_true c Hacc) as (HW & HH & Hfit & Hlay & Hd).
  unfold maxClipboardSize in Hmax.
  pose proof (pixelOffset_range c) as Ho.
  assert (Hr : bytesPerPixel c * imageWidth c <= rowSize c
               <= 4 * imageWidth c).
  { apply rowSize_bounds; [assumption|]. unfold bytesPerPixel.
    destruct Hd as [Hd|Hd]; rewrite Hd; cbn; auto. }
  unfold layoutTooSmall, image.maxAlloc in *.
  rewrite !uintptr_small in Hlay by nia.
  apply Z.ltb_ge in Hlay. nia.
Qed.

(** X2: when the block holds the header and the pixel offset lies inside
    the block, no byte outside the block has a part in the result: two
    clipboards with the same call results whose blocks hold the same
    bytes give the same result, an image or an error, whatever the
    memory around the blocks holds. *)
Theorem reads_confined_to_block (c1 c2 : Clipboard) :
  sameCalls c1 c2 -> sameBlock c1 c2 ->
  40 <= globalSize c1 -> pixelOffset c1 <= globalSize c1 ->
  GetClipboardImage c1 = GetClipboardImage c2.
Proof.
  intros Hcalls Hb Hsz Hoff.
  pose proof Hcalls as (E1 & E2 & E3 & El & Es).
  destruct (Z.ltb_spec maxClipboardSize (globalSize c1)) as [Hbig|Hmax].
  { rewrite !GetClipboardImage_unfold, <- E1, <- E2, <- E3, <- El, <- Es.
    destruct (isClipboardFormatAvailable c1 =? 0); [reflexivity|].
    destruct (openClipboard c1 =? 0); [reflexivity|].
    destruct (getClipboardData c1 =? 0); [reflexivity|].
    destruct (globalLock c1 =? 0); [reflexivity|].
    destruct (globalSize c1 =? 0); [reflexivity|].
    destruct (Z.ltb_spec maxClipboardSize (globalSize c1)); [reflexivity|lia]. }
  pose proof (sameBlock_header c1 c2 El Hb Hsz) as Eh.
  apply same_result; [assumption| |].
  - unfold sameLayoutFields. rewrite Eh. repeat split.
  - intros Hacc row j Hrow Hj. apply Hb.
    apply pixels_within_block; assumption.
Qed.

Lemma reads_confined_to_block_witness :
  memory translucentPixel 5000 = 0 /\
  memory translucentPixelElsewhere 5000 = 170 /\
  GetClipboardImage translucentPixel
    = GetClipboardImage translucentPixelElsewhere.
Proof.
  split; [reflexivity|]. split; [reflexivity|].
  apply reads_confined_to_block.
  - unfold sameCalls. repeat split.
  - intros off Hoff. change (globalSize translucentPixel) with 44 in Hoff.
    unfold stored, loadByte, translucentPixel, translucentPixelElsewhere,
      clipboardOf, memory, globalLock, memoryOf.
    rewrite uintptr_small by lia.
    change (Z.of_nat (length (headerBytes (plainHeader 40 1 (-1) 32)
                              ++ [1; 2; 3; 128]))) with 44.
    destruct (Z.leb_spec 4096 (4096 + off)); [|lia].
    destruct (Z.ltb_spec (4096 + off) (4096 + 44)); [|lia].
    cbn [andb]. f_equal. apply nth_indep.
    change (length (headerBytes (plainHeader 40 1 (-1) 32)
                    ++ [1; 2; 3; 128])) with 44%nat.
    lia.
  - vm_compute. congruence.
  - vm_compute. congruence.
Defined.

(** X3: an image too large to allocate panics: a delivered buffer that
    holds the 40 bytes of the header and passes the dimension check
    panics in [image.NewRGBA] when 4 * width * height is above what
    [make] accepts, whatever the depth and the size of the block are;
    the layout check comes too late to turn it down. *)
Theorem huge_image_panics (c : Clipboard) :
  delivered c -> 40 <= globalSize c ->
  0 < imageWidth c -> 0 < imageHeight c ->
  image.maxAlloc < 4 * imageWidth c * imageHeight c ->
  GetClipboardImage c = Panic.
Proof.
  intros Hdel _ HW HH Hbig.
  rewrite (delivered_afterHeader c Hdel), afterHeader_rejects.
  - unfold rejection.
    destruct (Z.leb_spec (imageWidth c) 0); [lia|].
    destruct (Z.leb_spec (imageHeight c) 0); [lia|]. cbn [orb].
    destruct (Z.ltb_spec image.maxAlloc (4 * imageWidth c * imageHeight c));
      [reflexivity|lia].
  - unfold accepts.
    destruct (Z.leb_spec (4 * imageWidth c * imageHeight c) image.maxAlloc);
      [lia|].
    now rewrite andb_false_r.
Qed.

Lemma huge_image_panics_witness :
  GetClipboardImage hugeDimensions = Panic.
Proof.
  apply (huge_image_panics hugeDimensions).
  - unfold delivered. repeat split; vm_compute; congruence.
  - vm_compute. congruence.
  - reflexivity.
  - reflexivity.
  - vm_compute. reflexivity.
Defined.

(** X4: the layout check is exact when the block holds the header and
    the pixel offset lies inside the block.  Such a delivered 24- or
    32-bit buffer with positive dimensions decodes exactly when stride * height bytes follow the pixel offset;
    InvalidLayout is returned only when fewer do, and it is returned,
    one byte short included, when the image is of a size within the
    cap. *)
Theorem layout_threshold (c : Clipboard) :
  delivered c ->
  bitDepth c = 24 \/ bitDepth c = 32 ->
  0 < imageWidth c -> 0 < imageHeight c ->
  40 <= globalSize c -> pixelOffset c <= globalSize c ->
  ((exists r, GetClipboardImage c = Ok r) <->
   pixelOffset c + rowSize c * imageHeight c <= globalSize c) /\
  (GetClipboardImage c = Err ErrInvalidLayout ->
   globalSize c < pixelOffset c + rowSize c * imageHeight c) /\
  (globalSize c < pixelOffset c + rowSize c * imageHeight c ->
   withinCap c ->
   GetClipboardImage c = Err ErrInvalidLayout).
Proof.
  intros Hdel Hd HW HH _ Hoff.
  pose proof (pixelOffset_range c) as Ho.
  assert (Hrow : 3 * imageWidth c <= rowSize c <= 4 * imageWidth c).
  { destruct Hd as [Hd|Hd].
    - apply (rowSize_bounds c 3); auto.
    - pose proof (rowSize_bounds c 4 HW). lia. }
  pose proof Hdel as (_ & _ & _ & _ & _ & Hmax).
  unfold maxClipboardSize in Hmax.
  rewrite (delivered_afterHeader c Hdel).
  destruct (Z.ltb_spec image.maxAlloc (4 * imageWidth c * imageHeight c))
    as [Hbig|Hfit].
  { rewrite afterHeader_rejects.
    - unfold rejection.
      destruct (Z.leb_spec (imageWidth c) 0); [lia|].
      destruct (Z.leb_spec (imageHeight c) 0); [lia|]. cbn [orb].
      destruct (Z.ltb_spec image.maxAlloc
                  (4 * imageWidth c * imageHeight c)); [|lia].
      unfold withinCap, maxClipboardSize, image.maxAlloc in *.
      split; [split|split].
      + intros [r Hr]. discriminate.
      + intros Hle. exfalso. nia.
      + discriminate.
      + intros _ Hcap. exfalso. lia.
    - unfold accepts.
      destruct (Z.leb_spec (4 * imageWidth c * imageHeight c)
                  image.maxAlloc); [lia|].
      now rewrite andb_false_r. }
  assert (Elay : layoutTooSmall (globalSize c) (pixelOffset c) (rowSize c)
                   (imageHeight c)
                 = (globalSize c - pixelOffset c <?
                    rowSize c * imageHeight c)).
  { unfold layoutTooSmall, image.maxAlloc in *. rewrite !uintptr_small by nia.
    reflexivity. }
  destruct (Z.ltb_spec (globalSize c - pixelOffset c)
              (rowSize c * imageHeight c)) as [Hshort|Hlong].
  - rewrite afterHeader_rejects.
    + unfold rejection.
      destruct (Z.leb_spec (imageWidth c) 0); [lia|].
      destruct (Z.leb_spec (imageHeight c) 0); [lia|]. cbn [orb].
      destruct (Z.ltb_spec image.maxAlloc (4 * imageWidth c * imageHeight c));
        [lia|].
      rewrite Elay.
      split; [split|split]; try (intros; lia); try reflexivity.
      intros [r Hr]. discriminate.
    + unfold accepts. rewrite Elay. cbn [negb].
      now rewrite andb_false_r.
  - destruct (afterHeader_converts c HW HH Hfit) as (p & E & _);
      [rewrite Elay; reflexivity|assumption|].
    rewrite E. split; [split|split]; try (intros; lia); try discriminate;
      eauto.
Qed.

Lemma layout_threshold_witness :
  GetClipboardImage oneByteShort = Err ErrInvalidLayout /\
  exists r, GetClipboardImage translucentPixel = Ok r.
Proof.
  split.
  - destruct (layout_threshold oneByteShort) as (_ & _ & H).
    + unfold delivered. repeat split; vm_compute; congruence.
    + right. reflexivity.
    + reflexivity.
    + reflexivity.
    + vm_compute. congruence.
    + vm_compute. congruence.
    + apply H; vm_compute; [reflexivity|congruence].
  - destruct (layout_threshold translucentPixel) as (H & _).
    + unfold delivered. repeat split; vm_compute; congruence.
    + right. reflexivity.
    + reflexivity.
    + reflexivity.
    + vm_compute. congruence.
    + vm_compute. congruence.
    + apply H. vm_compute. congruence.
Defined.

(** X5: row padding is never read: two clipboards with the same call
    results and the same five layout fields that agree on the pixel
    bytes of every row decode to the same result, whatever the padding
    bytes between the rows hold. *)
Theorem padding_ignored (c1 c2 : Clipboard) :
  sameCalls c1 c2 -> sameLayoutFields c1 c2 -> samePixelsOnly c1 c2 ->
  GetClipboardImage c1 = GetClipboardImage c2.
Proof.
  intros Hcalls Hhdr Hpix. apply same_result; auto.
Qed.

Lemma padding_ignored_witness :
  stored paddedPixel 43 = 9 /\ stored paddedPixel' 43 = 77 /\
  GetClipboardImage paddedPixel = GetClipboardImage paddedPixel'.
Proof.
  split; [reflexivity|]. split; [reflexivity|].
  apply padding_ignored.
  - unfold sameCalls. repeat split.
  - unfold sameLayoutFields. repeat split.
  - unfold samePixelsOnly.
    change (imageHeight paddedPixel) with 1.
    change (bytesPerPixel paddedPixel * imageWidth paddedPixel) with 3.
    intros row j Hrow Hj. assert (row = 0) as -> by lia.
    assert (j = 0 \/ j = 1 \/ j = 2) as [-> | [-> | ->]] by lia;
      vm_compute; reflexivity.
Defined.

Lemma absHeight_abs (h : Z) : absHeight h = Z.abs h.
Proof. unfold absHeight. destruct (Z.ltb_spec h 0); lia. Qed.

Lemma convertedPixel_bytes (c : Clipboard) (y x k : Z) :
  0 <= channel k (convertedPixel c y x) <= 255 /\
  (k = 3 -> channel k (convertedPixel c y x) <> 0).
Proof.
  unfold convertedPixel, pixel24, pixel32, channel.
  destruct (bitDepth c =? 24).
  - pose proof (loadByte_range (memory c) (sourceAddr c 3 y x)).
    pose proof (loadByte_range (memory c) (sourceAddr c 3 y x + 1)).
    pose proof (loadByte_range (memory c) (sourceAddr c 3 y x + 2)).
    destruct (Z.eqb_spec k 0); [lia|]. destruct (Z.eqb_spec k 1); [lia|].
    destruct (Z.eqb_spec k 2); lia.
  - pose proof (loadByte_range (memory c) (sourceAddr c 4 y x)).
    pose proof (loadByte_range (memory c) (sourceAddr c 4 y x + 1)).
    pose proof (loadByte_range (memory c) (sourceAddr c 4 y x + 2)).
    pose proof (loadByte_range (memory c) (sourceAddr c 4 y x + 3)).
    destruct (Z.eqb_spec k 0); [lia|]. destruct (Z.eqb_spec k 1); [lia|].
    destruct (Z.eqb_spec k 2); [lia|].
    destruct (Z.eqb_spec (loadByte (memory c) (sourceAddr c 4 y x + 3)) 0);
      lia.
Qed.

(** The shape of the image the loops have built: its width is the
    header width, its height the absolute header height, it holds four
    bytes per pixel, every byte is in 0..255 and no alpha byte is 0. *)
Lemma decoded_shape (c : Clipboard) (r : CaptureResult) :
  GetClipboardImage c = Ok r ->
  Width r = BiWidth (header c) /\
  Height r = Z.abs (BiHeight (header c)) /\
  0 < Width r /\ 0 < Height r /\
  Z.of_nat (length (Data r)) = 4 * Width r * Height r /\
  forall (i : nat) (v : Z), Data r !! i = Some v ->
    0 <= v <= 255 /\ (Z.of_nat i mod 4 = 3 -> v <> 0).
Proof.
  intros HOk.
  destruct (GetClipboardImage_Ok c r HOk) as (EW & EH & HW & HH & _ & Hl & Hf).
  rewrite EW, EH. unfold imageWidth at 1, imageHeight at 1.
  rewrite absHeight_abs.
  repeat (split; [first [reflexivity|assumption]|]).
  intros i v Hv.
  assert (Hi : (i < length (Data r))%nat) by (eapply lookup_lt_Some; eauto).
  specialize (Hf (Z.of_nat i)). rewrite Nat2Z.id in Hf.
  rewrite Hf in Hv by lia. injection Hv as <-.
  apply convertedPixel_bytes.
Qed.

(** X7: InvalidDimensions is returned exactly for a delivered buffer
    whose header width is zero or negative or whose header height is
    zero, whatever the depth and the length are. *)
Theorem invalidDimensions_iff (c : Clipboard) :
  GetClipboardImage c = Err ErrInvalidDimensions <->
  delivered c /\ (BiWidth (header c) <= 0 \/ BiHeight (header c) = 0).
Proof.
  assert (EH : imageHeight c <= 0 <-> BiHeight (header c) = 0).
  { unfold imageHeight. rewrite absHeight_abs. lia. }
  split.
  - intros HE.
    assert (Hdel : delivered c).
    { apply afterHeader_delivered. intros e He. rewrite HE.
      cbn in He. intuition (subst; discriminate). }
    split; [assumption|].
    rewrite (delivered_afterHeader c Hdel) in HE.
    destruct (accepts c) eqn:Hacc.
    + destruct (accepts_true c Hacc) as (HW & HH & Hfit & Hlay & Hd).
      destruct (afterHeader_converts c HW HH Hfit Hlay Hd) as (p & E & _).
      rewrite E in HE. discriminate.
    + rewrite (afterHeader_rejects c Hacc) in HE. unfold rejection in HE.
      destruct (Z.leb_spec (imageWidth c) 0); [left; assumption|].
      destruct (Z.leb_spec (imageHeight c) 0); [right; apply EH; assumption|].
      cbn [orb] in HE.
      destruct (_ <? _); [discriminate|].
      destruct (layoutTooSmall _ _ _ _); discriminate.
  - intros (Hdel & Hbad).
    rewrite (delivered_afterHeader c Hdel), afterHeader_rejects.
    + unfold rejection.
      destruct (Z.leb_spec (imageWidth c) 0); [reflexivity|].
      destruct (Z.leb_spec (imageHeight c) 0); [reflexivity|].
      exfalso. unfold imageWidth in *. destruct Hbad; lia.
    + unfold accepts.
      destruct (Z.ltb_spec 0 (imageWidth c)); [|reflexivity].
      destruct (Z.ltb_spec 0 (imageHeight c)); [|reflexivity].
      exfalso. unfold imageWidth in *. destruct Hbad; lia.
Qed.

Lemma invalidDimensions_iff_witness :
  GetClipboardImage zeroWidth = Err ErrInvalidDimensions.
Proof.
  apply (invalidDimensions_iff zeroWidth). split.
  - unfold delivered. repeat split; vm_compute; congruence.
  - left. vm_compute. congruence.
Defined.

Lemma encodePixel_length (r g b a : Z) :
  length (png.encodePixel r g b a) = 4%nat.
Proof.
  unfold png.encodePixel. destruct (a =? 0); [reflexivity|].
  destruct (a =? 255); reflexivity.
Qed.

(** The PNG pixel by pixel. *)
Lemma Encode_lookup (n : nat) (pix : list Z) :
  length pix = (4 * n)%nat ->
  length (png.Encode pix) = (4 * n)%nat /\
  forall p k, (p < n)%nat -> (k < 4)%nat ->
    exists r g b a,
      pix !! (4 * p)%nat = Some r /\ pix !! (4 * p + 1)%nat = Some g /\
      pix !! (4 * p + 2)%nat = Some b /\ pix !! (4 * p + 3)%nat = Some a /\
      png.Encode pix !! (4 * p + k)%nat = png.encodePixel r g b a !! k.
Proof.
  revert pix. induction n as [|n IH]; intros pix Hlen.
  - destruct pix; [|discriminate]. split; [reflexivity|]. intros; lia.
  - destruct pix as [|r [|g [|b [|a rest]]]]; try (cbn in Hlen; lia).
    assert (Hrest : length rest = (4 * n)%nat) by (cbn in Hlen; lia).
    destruct (IH rest Hrest) as (Hl & Hp).
    cbn [png.Encode]. split.
    + rewrite length_app, encodePixel_length, Hl. lia.
    + intros p k Hpn Hk. destruct p as [|p].
      * exists r, g, b, a. repeat split.
        rewrite lookup_app_l by (rewrite encodePixel_length; lia).
        reflexivity.
      * destruct (Hp p k ltac:(lia) Hk)
          as (r' & g' & b' & a' & H0 & H1 & H2 & H3 & HE).
        exists r', g', b', a'.
        replace (4 * S p)%nat with (4 + 4 * p)%nat by lia.
        repeat split; try assumption.
        rewrite lookup_app_r by (rewrite encodePixel_length; lia).
        rewrite encodePixel_length.
        replace (4 + 4 * p + k - 4)%nat with (4 * p + k)%nat by lia.
        exact HE.
Qed.

(** An image without a translucent pixel is written as it is. *)
Lemma Encode_opaque (n : nat) (pix : list Z) :
  length pix = (4 * n)%nat ->
  (forall p, (p < n)%nat -> pix !! (4 * p + 3)%nat = Some 255) ->
  png.Encode pix = pix.
Proof.
  revert pix. induction n as [|n IH]; intros pix Hlen Hop.
  - destruct pix; [reflexivity|discriminate].
  - destruct pix as [|r [|g [|b [|a rest]]]]; try (cbn in Hlen; lia).
    cbn [png.Encode].
    pose proof (Hop O ltac:(lia)) as H0. cbn in H0. injection H0 as ->.
    cbn. do 4 f_equal. apply IH; [cbn in Hlen; lia|].
    intros p Hp. specialize (Hop (S p) ltac:(lia)).
    replace (4 * S p + 3)%nat with (4 + (4 * p + 3))%nat in Hop by lia.
    exact Hop.
Qed.


(** X6: what a successful call returns.  The width and the height are
    those of the header, the height without its sign.  The PNG holds
    width * height pixels.  Each has the alpha of the converted pixel,
    which is never 0; its colour is the converted colour where that
    alpha is 255, so for every pixel of a 24-bit buffer, and the
    converted colour divided by the alpha elsewhere. *)
Theorem returned_image (c : Clipboard) (r : CaptureResult) :
  GetClipboardImage c = Ok r ->
  Width r = BiWidth (header c) /\
  Height r = Z.abs (BiHeight (header c)) /\
  0 < Width r /\ 0 < Height r /\
  Z.of_nat (length (png.Encode (Data r))) = 4 * Width r * Height r /\
  (bitDepth c = 24 -> png.Encode (Data r) = Data r) /\
  forall p k, 0 <= p < Width r * Height r -> 0 <= k < 3 ->
    exists v a,
      Data r !! Z.to_nat (4 * p + k) = Some v /\
      Data r !! Z.to_nat (4 * p + 3) = Some a /\
      0 < a <= 255 /\
      png.Encode (Data r) !! Z.to_nat (4 * p + 3) = Some a /\
      png.Encode (Data r) !! Z.to_nat (4 * p + k) =
        Some (if a =? 255 then v else png.unpremultiply v a).
Proof.
  intros HOk.
  destruct (decoded_shape c r HOk) as (EW & EH & HW & HH & Hl & Hb).
  destruct (GetClipboardImage_Ok c r HOk)
    as (EW' & EH' & _ & _ & _ & _ & Hf).
  set (n := Z.to_nat (Width r * Height r)).
  assert (Hn : length (Data r) = (4 * n)%nat) by (subst n; nia).
  destruct (Encode_lookup n (Data r) Hn) as (HEl & HEp).
  repeat (split; [first [assumption|subst n; nia]|]).
  split.
  - intros E24. apply (Encode_opaque n); [assumption|].
    intros p Hp. rewrite <- EW', <- EH' in Hf.
    specialize (Hf (Z.of_nat (4 * p + 3))). rewrite Nat2Z.id in Hf.
    rewrite Hf by (subst n; nia).
    replace (Z.of_nat (4 * p + 3) mod 4) with 3
      by (apply (Z.mod_unique_pos _ _ (Z.of_nat p)); lia).
    unfold convertedPixel. rewrite E24. reflexivity.
  - intros p k Hp Hk.
    destruct (HEp (Z.to_nat p) (Z.to_nat k) ltac:(subst n; lia) ltac:(lia))
      as (cr & cg & cb & ca & H0 & H1 & H2 & H3 & HE).
    destruct (HEp (Z.to_nat p) 3%nat ltac:(subst n; lia) ltac:(lia))
      as (cr' & cg' & cb' & ca' & H0' & H1' & H2' & H3' & HE3).
    rewrite H0' in H0. rewrite H1' in H1. rewrite H2' in H2.
    rewrite H3' in H3. injection H0 as <-. injection H1 as <-.
    injection H2 as <-. injection H3 as <-.
    destruct (Hb _ _ H3') as (Ha & Hnz).
    assert (Ha0 : ca' <> 0).
    { apply Hnz.
      replace (Z.of_nat (4 * Z.to_nat p + 3)) with (3 + p * 4) by lia.
      rewrite Z.mod_add by lia. reflexivity. }
    replace (Z.to_nat (4 * p + 3)) with (4 * Z.to_nat p + 3)%nat by lia.
    replace (Z.to_nat (4 * p + k)) with (4 * Z.to_nat p + Z.to_nat k)%nat
      by lia.
    rewrite HE, HE3. unfold png.encodePixel.
    destruct (Z.eqb_spec ca' 0); [contradiction|].
    assert (Hk3 : k = 0 \/ k = 1 \/ k = 2) by lia.
    destruct Hk3 as [-> | [-> | ->]]; cbn [Z.to_nat Pos.to_nat Pos.iter_op
      Nat.add];
      [exists cr'|exists cg'|exists cb']; exists ca';
      (split; [first [assumption|rewrite Nat.add_0_r; assumption]|]);
      (split; [assumption|]); (split; [lia|]);
      destruct (Z.eqb_spec ca' 255); split; reflexivity.
Qed.

Lemma returned_image_witness :
  exists r,
    GetClipboardImage translucentColour = Ok r /\
    Width r = 1 /\ Height r = 1 /\
    png.Encode (Data r) !! 3%nat = Some 128 /\
    png.Encode (Data r) !! 0%nat = Some (png.unpremultiply 200 128).
Proof.
  assert (E : GetClipboardImage translucentColour =
                Ok {| Width := 1; Height := 1;
                      Data := [200; 100; 50; 128] |})
    by (vm_compute; reflexivity).
  eexists. split; [exact E|].
  destruct (returned_image translucentColour _ E)
    as (_ & _ & _ & _ & _ & _ & Hp).
  destruct (Hp 0 0 ltac:(cbn; lia) ltac:(lia))
    as (v & a & Hv & Ha & _ & HA & HV).
  cbn in Hv, Ha. injection Hv as <-. injection Ha as <-.
  repeat split; assumption.
Defined.

End decoder_proofs.

(** * The frame compositor *)

Module overlay_proofs.

Import GoInt overlay overlay_spec.

Lemma int_small (z : Z) : GoInt.minInt <= z <= GoInt.maxInt -> int z = z.
Proof.
  unfold GoInt.minInt, GoInt.maxInt, int, uintptr. intros Hz.
  destruct (Z_lt_ge_dec z 0) as [Hneg|Hpos].
  - replace (z mod 2 ^ 64) with (z + 2 ^ 64).
    + destruct (Z.ltb_spec (z + 2 ^ 64) (2 ^ 63)); lia.
    + apply (Z.mod_unique_pos _ _ (-1)); lia.
  - rewrite Z.mod_small by lia.
    destruct (Z.ltb_spec z (2 ^ 63)); lia.
Qed.

Lemma pixel_index_small (dc : DrawContext) (x y : Z) :
  validContext dc -> 0 <= x < width dc -> 0 <= y < height dc ->
  y *i width dc +i x = y * width dc + x /\
  0 <= y * width dc + x < width dc * height dc.
Proof.
  intros (Hw & Hh & Hfit & Hlen) Hx Hy. unfold addi, muli, GoInt.maxInt in *.
  assert (0 <= y * width dc + x < width dc * height dc) by nia.
  unfold GoInt.minInt in *.
  rewrite (int_small (y * width dc)) by (unfold GoInt.minInt, GoInt.maxInt; nia).
  rewrite int_small by (unfold GoInt.minInt, GoInt.maxInt; nia). auto.
Qed.

Lemma unsafeSlice_valid (dc : DrawContext) :
  validContext dc -> unsafeSlice dc = Some (width dc * height dc).
Proof.
  intros (Hw & Hh & Hfit & Hlen). unfold unsafeSlice, pixelCount, muli.
  rewrite int_small by (unfold GoInt.minInt, GoInt.maxInt in *; nia).
  destruct (Z.ltb_spec (width dc * height dc) 0); [nia|reflexivity].
Qed.

Lemma store_ok (n : Z) (px : list Z) (i v : Z) :
  Z.of_nat (length px) = n -> 0 <= i < n ->
  store n px i v = Some (<[Z.to_nat i := v]> px).
Proof.
  intros Hlen Hi. unfold store.
  destruct (Z.leb_spec 0 i); [|lia].
  destruct (Z.ltb_spec i n); [|lia]. cbn [andb].
  apply sliceSet_Some. lia.
Qed.

Lemma keeps_store (n i v : Z) :
  0 <= i < n -> keeps n (fun px => store n px i v).
Proof.
  intros Hi px Hlen. rewrite (store_ok n px i v Hlen Hi).
  eexists. split; [reflexivity|]. now rewrite length_insert.
Qed.

Lemma keeps_skip (n : Z) : keeps n Some.
Proof. intros px Hlen. eauto. Qed.

(** The guarded store never leaves the pixel buffer. *)
Lemma keeps_plot (dc : DrawContext) (x y color : Z) :
  validContext dc ->
  keeps (width dc * height dc)
    (fun px => plot dc (width dc * height dc) px x y color).
Proof.
  intros Hdc px Hlen. unfold plot.
  destruct (Z.leb_spec 0 x); cbn [andb]; [|eauto].
  destruct (Z.ltb_spec x (width dc)); cbn [andb]; [|eauto].
  destruct (Z.leb_spec 0 y); cbn [andb]; [|eauto].
  destruct (Z.ltb_spec y (height dc)); cbn [andb]; [|eauto].
  destruct (pixel_index_small dc x y Hdc) as [-> Hi]; [lia|lia|].
  apply keeps_store; assumption.
Qed.

Lemma keeps_forLoop (n lo hi : Z) (body : Z -> list Z -> option (list Z)) :
  (forall j, lo <= j < hi -> keeps n (body j)) ->
  keeps n (forLoop lo hi body).
Proof.
  intros Hbody px Hlen.
  apply (forLoop_preserves (fun p => Z.of_nat (length p) = n)); [assumption|].
  intros j t Hj Ht. apply (Hbody j Hj t Ht).
Qed.

Lemma keeps_bind (n : Z) (f g : list Z -> option (list Z)) :
  keeps n f -> keeps n g -> keeps n (fun px => px ← f px; g px).
Proof.
  intros Hf Hg px Hlen. destruct (Hf px Hlen) as (px' & -> & Hlen').
  cbn. apply Hg. assumption.
Qed.

Lemma keeps_forEach {A : Type} (n : Z) (l : list A)
    (body : A -> list Z -> option (list Z)) :
  (forall a, keeps n (body a)) -> keeps n (forEach l body).
Proof.
  intros Hbody. induction l as [|a l IH]; intros px Hlen; cbn.
  - eauto.
  - destruct (Hbody a px Hlen) as (px' & -> & Hlen'). apply IH. assumption.
Qed.

Lemma keeps_forEachFrom {A : Type} (n i : Z) (l : list A)
    (body : Z -> A -> list Z -> option (list Z)) :
  (forall j a, keeps n (body j a)) -> keeps n (forEachFrom i l body).
Proof.
  intros Hbody. revert i.
  induction l as [|a l IH]; intros i px Hlen; cbn.
  - eauto.
  - destruct (Hbody i a px Hlen) as (px' & -> & Hlen'). apply IH. assumption.
Qed.

Lemma keeps_ext (n : Z) (f g : list Z -> option (list Z)) :
  (forall px, f px = g px) -> keeps n f -> keeps n g.
Proof. intros E Hf px Hlen. rewrite <- E. apply Hf. assumption. Qed.

Section shapes.

Variable dc : DrawContext.
Hypothesis Hdc : validContext dc.

Lemma keeps_fillPill (pillX pillY pillWidth pillHeight color : Z) :
  keeps (width dc * height dc)
    (fillPill dc (width dc * height dc) pillX pillY pillWidth pillHeight
       color).
Proof.
  unfold fillPill. apply keeps_forLoop. intros dy _.
  apply keeps_forLoop. intros dx _. apply keeps_plot. assumption.
Qed.

Lemma keeps_drawGlyph (curX y : Z) (glyph : list Z) :
  keeps (width dc * height dc)
    (drawGlyph dc (width dc * height dc) curX y glyph).
Proof.
  unfold drawGlyph. apply keeps_forEachFrom. intros col bits.
  apply keeps_forLoop. intros row _.
  destruct (negb _); [apply keeps_plot; assumption|apply keeps_skip].
Qed.

Lemma keeps_drawRunes (font : list (ascii * list Z)) (x y : Z)
    (text : string) :
  keeps (width dc * height dc)
    (drawRunes font dc (width dc * height dc) x y text).
Proof.
  unfold drawRunes. generalize (list_ascii_of_string text) as l.
  intros l. revert x.
  induction l as [|ch l IH]; intros x px Hlen; cbn.
  - eauto.
  - destruct (glyphOf font ch) as [glyph|].
    + destruct (keeps_drawGlyph x y glyph px Hlen) as (px' & -> & Hlen').
      cbn. apply IH. assumption.
    + apply IH. assumption.
Qed.

End shapes.

Lemma sameFrame_refl (dc : DrawContext) : sameFrame dc dc.
Proof. repeat split. Qed.

Lemma sameFrame_trans (a b c : DrawContext) :
  sameFrame a b -> sameFrame b c -> sameFrame a c.
Proof. unfold sameFrame. intros (-> & -> & ->) (-> & -> & ->). auto. Qed.

Lemma sameFrame_valid (dc dc' : DrawContext) :
  validContext dc -> sameFrame dc dc' -> validContext dc'.
Proof.
  unfold validContext, sameFrame. intros H (-> & -> & ->). assumption.
Qed.

(** A routine that keeps the slice yields a context of the same
    frame. *)
Lemma keeps_frame (dc : DrawContext) (f : list Z -> option (list Z)) :
  validContext dc -> keeps (width dc * height dc) f ->
  exists dc', (px ← f (pixels dc); Some (setPixels dc px)) = Some dc' /\
              sameFrame dc dc'.
Proof.
  intros Hdc Hf. destruct Hdc as (_ & _ & _ & Hlen).
  destruct (Hf (pixels dc) Hlen) as (px & -> & Hlen').
  eexists. split; [reflexivity|]. unfold sameFrame, setPixels; cbn. 
  repeat split. lia.
Qed.

Lemma keeps_frame2 (dc : DrawContext) (f g : list Z -> option (list Z)) :
  validContext dc ->
  keeps (width dc * height dc) f -> keeps (width dc * height dc) g ->
  exists dc',
    (px ← f (pixels dc); px ← g px; Some (setPixels dc px)) = Some dc' /\
    sameFrame dc dc'.
Proof.
  intros Hdc Hf Hg. destruct Hdc as (_ & _ & _ & Hlen).
  destruct (Hf (pixels dc) Hlen) as (px & -> & Hlen').
  destruct (Hg px Hlen') as (px' & E & Hlen''). cbn. rewrite E. cbn.
  eexists. split; [reflexivity|]. unfold sameFrame, setPixels; cbn.
  repeat split. lia.
Qed.

(** A pixel inside a well-formed image can be read. *)
Lemma sourcePixel_ok (m : image.RGBA) (x y : Z) :
  image.wellFormed m ->
  0 <= x < image.Dx (image.Bounds m) ->
  0 <= y < image.Dy (image.Bounds m) ->
  exists r g b,
    image.Pix m !! Z.to_nat (y * image.Stride m + x * 4) = Some r /\
    image.Pix m !! Z.to_nat (y * image.Stride m + x * 4 + 1) = Some g /\
    image.Pix m !! Z.to_nat (y * image.Stride m + x * 4 + 2) = Some b /\
    sourcePixel m x y = Some (pack 255 (uint8 r) (uint8 g) (uint8 b)).
Proof.
  intros (Hs & Hmax & Hfit) Hx Hy. specialize (Hfit ltac:(lia) ltac:(lia)).
  set (i := y * image.Stride m + x * 4).
  assert (Hi : 0 <= i /\ i + 3 < Z.of_nat (length (image.Pix m)))
    by (subst i; nia).
  assert (Ei : y *i image.Stride m +i x *i 4 = i).
  { unfold addi, muli, GoInt.maxInt in *.
    rewrite (int_small (y * _)) by (unfold GoInt.minInt, GoInt.maxInt; nia).
    rewrite (int_small (x * 4)) by (unfold GoInt.minInt, GoInt.maxInt; nia).
    apply int_small. unfold GoInt.minInt, GoInt.maxInt; subst i; nia. }
  destruct (lookup_lt_is_Some_2 (image.Pix m) (Z.to_nat i)) as [r Hr]; [lia|].
  destruct (lookup_lt_is_Some_2 (image.Pix m) (Z.to_nat (i + 1))) as [g Hg];
    [lia|].
  destruct (lookup_lt_is_Some_2 (image.Pix m) (Z.to_nat (i + 2))) as [b Hb];
    [lia|].
  exists r, g, b. repeat split; try assumption.
  unfold sourcePixel. rewrite Ei. unfold addi, GoInt.maxInt in *.
  rewrite !int_small by (unfold GoInt.minInt, GoInt.maxInt; lia).
  unfold sliceGet.
  destruct (Z.leb_spec 0 i); [|lia].
  destruct (Z.leb_spec 0 (i + 1)); [|lia].
  destruct (Z.leb_spec 0 (i + 2)); [|lia].
  rewrite Hr, Hg, Hb. reflexivity.
Qed.

Section primitives.

Variable dc : DrawContext.
Hypothesis Hdc : validContext dc.

Lemma minInt_le_l a b : overlay.minInt a b <= a.
Proof. unfold overlay.minInt. destruct (Z.ltb_spec a b); lia. Qed.

Lemma minInt_le_r a b : overlay.minInt a b <= b.
Proof. unfold overlay.minInt. destruct (Z.ltb_spec a b); lia. Qed.

Lemma drawScreenshot_ok (screenshot : option image.RGBA) :
  wellFormedBackground screenshot ->
  exists dc', drawScreenshot dc screenshot = Some dc' /\ sameFrame dc dc'.
Proof.
  intros Hm. destruct screenshot as [m|]; cbn in Hm.
  2: { exists dc. split; [reflexivity|apply sameFrame_refl]. }
  unfold drawScreenshot. rewrite (unsafeSlice_valid dc Hdc). cbn [mbind option_bind].
  apply (keeps_frame dc); [assumption|].
  apply keeps_forLoop. intros y Hy. apply keeps_forLoop. intros x Hx.
  pose proof (minInt_le_l (image.Dy (image.Bounds m)) (height dc)).
  pose proof (minInt_le_r (image.Dy (image.Bounds m)) (height dc)).
  pose proof (minInt_le_l (image.Dx (image.Bounds m)) (width dc)).
  pose proof (minInt_le_r (image.Dx (image.Bounds m)) (width dc)).
  destruct (sourcePixel_ok m x y Hm) as (r & g & b & _ & _ & _ & ->);
    [lia|lia|]. cbn [mbind option_bind].
  destruct (pixel_index_small dc x y Hdc) as [-> Hi]; [lia|lia|].
  apply keeps_store. assumption.
Qed.

Lemma fillOverlay_ok (alpha : Z) :
  exists dc', fillOverlay dc alpha = Some dc' /\ sameFrame dc dc'.
Proof.
  unfold fillOverlay. rewrite (unsafeSlice_valid dc Hdc). cbn [mbind option_bind].
  apply (keeps_frame dc); [assumption|].
  apply keeps_forLoop. intros i Hi px Hlen.
  destruct (Z.ltb_spec i (width dc * height dc)); [|lia].
  destruct (sliceGet_Some px i) as [e ->]; [lia|]. cbn [mbind option_bind].
  apply keeps_store; assumption.
Qed.

Lemma clearRegion_ok (x y w h : Z) (screenshot : option image.RGBA) :
  wellFormedBackground screenshot ->
  exists dc', clearRegion dc x y w h screenshot = Some dc' /\
              sameFrame dc dc'.
Proof.
  intros Hm. destruct screenshot as [m|]; cbn in Hm.
  2: { exists dc. split; [reflexivity|apply sameFrame_refl]. }
  unfold clearRegion. rewrite (unsafeSlice_valid dc Hdc). cbn [mbind option_bind].
  apply (keeps_frame dc); [assumption|].
  apply keeps_forLoop. intros dy _.
  destruct (Z.ltb_spec (y +i dy) 0); cbn [orb]; [apply keeps_skip|].
  destruct (Z.leb_spec (height dc) (y +i dy)); cbn [orb];
    [apply keeps_skip|].
  destruct (Z.leb_spec (image.Dy (image.Bounds m)) (y +i dy)); cbn [orb];
    [apply keeps_skip|].
  apply keeps_forLoop. intros dx _.
  destruct (Z.ltb_spec (x +i dx) 0); cbn [orb]; [apply keeps_skip|].
  destruct (Z.leb_spec (width dc) (x +i dx)); cbn [orb];
    [apply keeps_skip|].
  destruct (Z.leb_spec (image.Dx (image.Bounds m)) (x +i dx)); cbn [orb];
    [apply keeps_skip|].
  destruct (sourcePixel_ok m (x +i dx) (y +i dy) Hm)
    as (r & g & b & _ & _ & _ & E); [lia|lia|].
  intros px Hlen. rewrite E. cbn [mbind option_bind].
  destruct (pixel_index_small dc (x +i dx) (y +i dy) Hdc) as [-> Hi];
    [lia|lia|].
  apply keeps_store; assumption.
Qed.

Lemma drawSelectionBorder_ok (x y w h : Z) :
  exists dc', drawSelectionBorder dc x y w h = Some dc' /\
              sameFrame dc dc'.
Proof.
  unfold drawSelectionBorder. rewrite (unsafeSlice_valid dc Hdc).
  cbn [mbind option_bind].
  apply (keeps_frame dc); [assumption|].
  apply keeps_forLoop. intros t _.
  repeat apply keeps_bind;
    apply keeps_forLoop; intros p _; apply keeps_plot; assumption.
Qed.

Lemma drawCornerHandles_ok (x y w h : Z) :
  exists dc', drawCornerHandles dc x y w h = Some dc' /\
              sameFrame dc dc'.
Proof.
  unfold drawCornerHandles. rewrite (unsafeSlice_valid dc Hdc).
  cbn [mbind option_bind].
  apply (keeps_frame dc); [assumption|].
  apply keeps_forEach. intros corner.
  apply keeps_forLoop. intros dy _. apply keeps_forLoop. intros dx _.
  apply keeps_plot. assumption.
Qed.

Lemma drawSizeIndicator_ok (x y w h : Z) :
  exists dc', drawSizeIndicator dc x y w h = Some dc' /\
              sameFrame dc dc'.
Proof.
  unfold drawSizeIndicator. rewrite (unsafeSlice_valid dc Hdc).
  cbn [mbind option_bind]. cbv zeta.
  apply (keeps_frame2 dc); [assumption| |].
  - apply keeps_fillPill; assumption.
  - apply keeps_drawRunes. assumption.
Qed.

Lemma drawInstructions_ok (sel : Selection) :
  exists dc', drawInstructions dc sel = Some dc' /\ sameFrame dc dc'.
Proof.
  unfold drawInstructions. rewrite (unsafeSlice_valid dc Hdc).
  cbn [mbind option_bind]. cbv zeta.
  apply (keeps_frame2 dc); [assumption| |].
  - apply keeps_fillPill; assumption.
  - apply keeps_drawRunes. assumption.
Qed.

End primitives.

Lemma forall_bytes (P : Z -> bool) :
  forallb P bytes = true -> forall v, 0 <= v < 256 -> P v = true.
Proof.
  intros Hall v Hv. rewrite forallb_forall in Hall. apply Hall.
  unfold bytes. replace v with (Z.of_nat (Z.to_nat v)) by lia.
  apply in_map, in_seq. lia.
Qed.

Lemma packParts (v : Z) : 0 <= v < 256 -> packPartsCheck v = true.
Proof. apply forall_bytes. vm_compute. reflexivity. Qed.

Lemma redOf_lor a b : redOf (Z.lor a b) = Z.lor (redOf a) (redOf b).
Proof. unfold redOf. now rewrite Z.shiftr_lor, Z.land_lor_distr_l. Qed.

Lemma greenOf_lor a b : greenOf (Z.lor a b) = Z.lor (greenOf a) (greenOf b).
Proof. unfold greenOf. now rewrite Z.shiftr_lor, Z.land_lor_distr_l. Qed.

Lemma blueOf_lor a b : blueOf (Z.lor a b) = Z.lor (blueOf a) (blueOf b).
Proof. unfold blueOf. now rewrite Z.land_lor_distr_l. Qed.

Lemma alphaOf_lor a b : alphaOf (Z.lor a b) = Z.lor (alphaOf a) (alphaOf b).
Proof. unfold alphaOf. now rewrite Z.shiftr_lor. Qed.

(** The channels of a packed pixel are the bytes it was packed from. *)
Lemma pack_channels (a r g b : Z) :
  0 <= a < 256 -> 0 <= r < 256 -> 0 <= g < 256 -> 0 <= b < 256 ->
  alphaOf (pack a r g b) = a /\ redOf (pack a r g b) = r /\
  greenOf (pack a r g b) = g /\ blueOf (pack a r g b) = b.
Proof.
  intros Ha Hr Hg Hb.
  pose proof (packParts a Ha) as Pa. pose proof (packParts r Hr) as Pr.
  pose proof (packParts g Hg) as Pg. pose proof (packParts b Hb) as Pb.
  unfold packPartsCheck in *.
  rewrite !andb_true_iff, !Z.eqb_eq in Pa, Pr, Pg, Pb.
  unfold pack.
  rewrite !alphaOf_lor, !redOf_lor, !greenOf_lor, !blueOf_lor.
  unfold alphaOf.
  repeat match goal with H : _ /\ _ |- _ => destruct H end.
  repeat split;
    repeat match goal with H : _ = _ |- _ => rewrite H; clear H end;
    rewrite ?Z.lor_0_l, ?Z.lor_0_r; reflexivity.
Qed.

Lemma channel_byte (p : Z) :
  0 <= redOf p < 256 /\ 0 <= greenOf p < 256 /\ 0 <= blueOf p < 256.
Proof.
  unfold redOf, greenOf, blueOf. change 255 with (Z.ones 8).
  rewrite !Z.land_ones by lia.
  repeat split; apply Z.mod_pos_bound; lia.
Qed.

Lemma uint8_byte (v : Z) : 0 <= uint8 v < 256.
Proof. unfold uint8. apply Z.mod_pos_bound. lia. Qed.

Lemma darkenChannel_checked (alpha c : Z) :
  0 <= alpha < 256 -> 0 <= c < 256 -> darkenChannelCheck alpha c = true.
Proof.
  intros Ha Hc.
  assert (Hrow : darkenRowCheck alpha = true).
  { apply (forall_bytes darkenRowCheck); [vm_compute; reflexivity|assumption]. }
  unfold darkenRowCheck in Hrow. cbv zeta in Hrow.
  exact (forall_bytes _ Hrow c Hc).
Qed.

(** [fillOverlay] replaces every pixel by its darkened value. *)
Lemma fillOverlay_map (dc : DrawContext) (alpha : Z) :
  validContext dc ->
  fillOverlay dc alpha =
    Some (setPixels dc (map (darkenPixel alpha) (pixels dc))).
Proof.
  intros Hdc. unfold fillOverlay. rewrite (unsafeSlice_valid dc Hdc).
  cbn [mbind option_bind].
  destruct Hdc as (Hw & Hh & Hfit & Hlen).
  set (n := width dc * height dc) in *.
  destruct (forLoop_invariant
    (fun i px =>
       length px = length (pixels dc) /\
       (forall j, (Z.of_nat j < i) ->
          px !! j = darkenPixel alpha <$> pixels dc !! j) /\
       (forall j, (i <= Z.of_nat j) -> px !! j = pixels dc !! j))
    (fun i px =>
       existing ← (if i <? n then sliceGet px i else None);
       store n px i (darkenPixel alpha existing))
    0 n (pixels dc)) as (px & -> & Hl & Hdone & _).
  - lia.
  - split; [reflexivity|]. split; [intros j Hj; lia|reflexivity].
  - intros i px Hi (Hl & Hdone & Hrest).
    destruct (Z.ltb_spec i n); [|lia].
    assert (Hex : px !! Z.to_nat i = pixels dc !! Z.to_nat i)
      by (apply Hrest; lia).
    destruct (lookup_lt_is_Some_2 (pixels dc) (Z.to_nat i)) as [e He]; [lia|].
    unfold sliceGet. destruct (Z.leb_spec 0 i); [|lia].
    rewrite Hex, He. cbn [mbind option_bind].
    rewrite store_ok by lia.
    eexists. split; [reflexivity|]. rewrite length_insert.
    split; [assumption|]. split.
    + intros j Hj. destruct (decide (j = Z.to_nat i)) as [->|Hne].
      * rewrite list_lookup_insert_eq by lia. now rewrite He.
      * rewrite list_lookup_insert_ne by lia. apply Hdone. lia.
    + intros j Hj. rewrite list_lookup_insert_ne by lia. apply Hrest. lia.
  - cbn [mbind option_bind]. f_equal. f_equal.
    apply list_eq. intros j. rewrite list_lookup_fmap.
    destruct (decide (j < length (pixels dc))%nat) as [Hj|Hj].
    + apply Hdone. lia.
    + rewrite !lookup_ge_None_2 by lia. reflexivity.
Qed.

Lemma darkenChannel_byte (alpha c : Z) :
  0 <= alpha < 256 -> 0 <= c < 256 ->
  scaledDown alpha c - 1 <= darkenChannel alpha c <= scaledDown alpha c /\
  0 <= darkenChannel alpha c < 256.
Proof.
  intros Ha Hc. pose proof (darkenChannel_checked alpha c Ha Hc) as H.
  unfold darkenChannelCheck, darkenWithin in H.
  rewrite !andb_true_iff, !Z.leb_le in H. lia.
Qed.

Lemma darkenChannel_0 (c : Z) : 0 <= c < 256 -> darkenChannel 0 c = c.
Proof.
  intros Hc. apply Z.eqb_eq.
  apply (forall_bytes (fun c => darkenChannel 0 c =? c)); [|assumption].
  vm_compute. reflexivity.
Qed.

(** The channels of a darkened pixel. *)
Lemma darkenPixel_channels (alpha e : Z) :
  0 <= alpha < 256 ->
  alphaOf (darkenPixel alpha e) = 255 /\
  redOf (darkenPixel alpha e) = darkenChannel alpha (redOf e) /\
  greenOf (darkenPixel alpha e) = darkenChannel alpha (greenOf e) /\
  blueOf (darkenPixel alpha e) = darkenChannel alpha (blueOf e).
Proof.
  intros Ha. unfold darkenPixel. cbv zeta.
  destruct (channel_byte e) as (Hr & Hg & Hb).
  apply pack_channels; try lia; apply darkenChannel_byte; assumption.
Qed.

(** C6, as amended: [fillOverlay(alpha)] sets the alpha of every pixel
    to 255 and scales each colour channel [c] to the truncated float64
    product [c * ((255 - alpha) / 255)], which is the exact quotient
    [c * (255 - alpha) / 255] rounded down, or one less; [fillOverlay(0)]
    leaves the colour channels as they are, and [fillOverlay(128)] turns
    a channel of 255 into 127. *)
Theorem fillOverlay_scales (dc : DrawContext) (alpha : Z) :
  validContext dc -> 0 <= alpha <= 255 ->
  exists dc',
    fillOverlay dc alpha = Some dc' /\ sameFrame dc dc' /\
    forall i e, pixels dc !! i = Some e ->
      exists e', pixels dc' !! i = Some e' /\
        alphaOf e' = 255 /\
        forall ch, In ch colourChannels ->
          ch e' = darkenChannel alpha (ch e) /\
          scaledDown alpha (ch e) - 1 <= ch e' <= scaledDown alpha (ch e) /\
          (alpha = 0 -> ch e' = ch e) /\
          (alpha = 128 -> ch e = 255 -> ch e' = 127).
Proof.
  intros Hdc Ha. rewrite (fillOverlay_map dc alpha Hdc).
  eexists. split; [reflexivity|]. split.
  { unfold sameFrame, setPixels; cbn. now rewrite length_map. }
  intros i e He. exists (darkenPixel alpha e). cbn [pixels setPixels].
  split; [rewrite list_lookup_fmap, He; reflexivity|].
  destruct (darkenPixel_channels alpha e) as (EA & ER & EG & EB); [lia|].
  split; [assumption|].
  destruct (channel_byte e) as (Hr & Hg & Hb).
  assert (K : forall c, 0 <= c < 256 ->
    scaledDown alpha c - 1 <= darkenChannel alpha c <= scaledDown alpha c /\
    (alpha = 0 -> darkenChannel alpha c = c) /\
    (alpha = 128 -> c = 255 -> darkenChannel alpha c = 127)).
  { intros c Hc. split; [apply darkenChannel_byte; lia|]. split.
    - intros ->. apply darkenChannel_0. assumption.
    - intros -> ->. vm_compute. reflexivity. }
  intros ch [<- | [<- | [<- | []]]].
  - rewrite ER. split; [reflexivity|]. apply K. assumption.
  - rewrite EG. split; [reflexivity|]. apply K. assumption.
  - rewrite EB. split; [reflexivity|]. apply K. assumption.
Qed.

Lemma fillOverlay_scales_witness :
  exists dc',
    fillOverlay whiteDot 128 = Some dc' /\
    exists e', pixels dc' !! 0%nat = Some e' /\ redOf e' = 127.
Proof.
  destruct (fillOverlay_scales whiteDot 128) as (dc' & E & _ & H).
  - unfold validContext. repeat split; vm_compute; congruence.
  - lia.
  - exists dc'. split; [assumption|].
    destruct (H 0%nat white eq_refl) as (e' & He' & _ & Hch).
    exists e'. split; [assumption|].
    destruct (Hch redOf) as (_ & _ & _ & H128); [cbn; auto|].
    apply H128; reflexivity.
Defined.

(** C6 as stated fails: with the argument 255 the routine does not keep
    the colours, it turns a white pixel black. *)
Lemma fillOverlay_255_blackens :
  fillOverlay whiteDot 255 = Some (setPixels whiteDot [pack 255 0 0 0]) /\
  redOf white = 255 /\ greenOf white = 255 /\ blueOf white = 255 /\
  redOf (pack 255 0 0 0) = 0 /\ greenOf (pack 255 0 0 0) = 0 /\
  blueOf (pack 255 0 0 0) = 0.
Proof. repeat split; vm_compute; reflexivity. Qed.

(** The truncated float product is not always the exact quotient. *)
Lemma darkenChannel_one_below :
  darkenChannel 60 153 = 116 /\ scaledDown 60 153 = 117.
Proof. split; vm_compute; reflexivity. Qed.

Lemma index_inj (W qx qy px py : Z) :
  0 <= qx < W -> 0 <= px < W -> 0 <= qy -> 0 <= py ->
  Z.to_nat (qy * W + qx) = Z.to_nat (py * W + px) -> qx = px /\ qy = py.
Proof.
  intros Hq Hp Hqy Hpy E.
  assert (E' : qy * W + qx = py * W + px) by nia.
  assert (qy = py).
  { destruct (Z.lt_trichotomy qy py) as [H|[H|H]]; [|assumption|].
    - assert ((py - qy) * W >= W) by nia. nia.
    - assert ((qy - py) * W >= W) by nia. nia. }
  subst. lia.
Qed.

(** Inside the buffer and the image, [clearRegion] writes the source
    pixel at every position of the rectangle. *)
Lemma clearRegion_restores (dc : DrawContext) (m : image.RGBA)
    (x y w h : Z) :
  validContext dc -> image.wellFormed m ->
  0 <= x -> 0 <= y -> 0 <= w -> 0 <= h ->
  x + w <= width dc -> x + w <= image.Dx (image.Bounds m) ->
  y + h <= height dc -> y + h <= image.Dy (image.Bounds m) ->
  exists dc',
    clearRegion dc x y w h (Some m) = Some dc' /\ sameFrame dc dc' /\
    forall qx qy, x <= qx < x + w -> y <= qy < y + h ->
      pixels dc' !! Z.to_nat (qy * width dc + qx) = sourcePixel m qx qy.
Proof.
  intros Hdc Hm Hx Hy Hw Hh HxW HxS HyH HyS.
  unfold clearRegion. rewrite (unsafeSlice_valid dc Hdc).
  cbn [mbind option_bind].
  pose proof Hdc as ((_ & HWmax) & (_ & HHmax) & Hfit & Hlen).
  set (n := width dc * height dc) in *.
  match goal with |- context [forLoop 0 h ?body (pixels dc)] =>
    set (outer := body) end.
  assert (Hsmall : forall a d, 0 <= a -> 0 <= d -> a + d <= GoInt.maxInt ->
                     a +i d = a + d).
  { intros a d Ha Hd Hs. unfold addi. apply int_small.
    unfold GoInt.minInt, GoInt.maxInt in *. lia. }
  destruct (forLoop_invariant
    (fun dy px =>
       Z.of_nat (length px) = n /\
       forall qx qy, x <= qx < x + w -> y <= qy < y + dy ->
         px !! Z.to_nat (qy * width dc + qx) = sourcePixel m qx qy)
    outer 0 h (pixels dc)) as (px & E & Hl & Hdone).
  - lia.
  - split; [assumption|]. intros qx qy _ Hq. lia.
  - intros dy px Hdy (Hl & Hrows). subst outer. cbv beta zeta.
    rewrite (Hsmall y dy) by lia.
    destruct (Z.ltb_spec (y + dy) 0); [lia|].
    destruct (Z.leb_spec (height dc) (y + dy)); [lia|].
    destruct (Z.leb_spec (image.Dy (image.Bounds m)) (y + dy)); [lia|].
    cbn [orb].
    match goal with |- context [forLoop 0 w ?body px] =>
      set (inner := body) end.
    destruct (forLoop_invariant
      (fun dx q =>
         Z.of_nat (length q) = n /\
         forall qx qy, x <= qx < x + w -> y <= qy < y + h ->
           qy < y + dy \/ (qy = y + dy /\ qx < x + dx) ->
           q !! Z.to_nat (qy * width dc + qx) = sourcePixel m qx qy)
      inner 0 w px) as (q & Eq & Hlq & Hq).
    + lia.
    + split; [assumption|]. intros qx qy Hqx Hqy [Hlt|[_ Hlt]]; [|lia].
      apply Hrows; lia.
    + intros dx q Hdx (Hlq & Hq). subst inner. cbv beta zeta.
      rewrite (Hsmall x dx) by lia.
      destruct (Z.ltb_spec (x + dx) 0); [lia|].
      destruct (Z.leb_spec (width dc) (x + dx)); [lia|].
      destruct (Z.leb_spec (image.Dx (image.Bounds m)) (x + dx)); [lia|].
      cbn [orb].
      destruct (sourcePixel_ok m (x + dx) (y + dy) Hm)
        as (r & g & b & _ & _ & _ & Ev); [lia|lia|].
      rewrite Ev. cbn [mbind option_bind].
      destruct (pixel_index_small dc (x + dx) (y + dy) Hdc) as [-> Hi];
        [lia|lia|].
      rewrite store_ok by (fold n; lia).
      eexists. split; [reflexivity|]. rewrite length_insert.
      split; [assumption|].
      intros qx qy Hqx Hqy Hpos.
      destruct (decide (Z.to_nat (qy * width dc + qx) =
                        Z.to_nat ((y + dy) * width dc + (x + dx))))
        as [Esame|Hne].
      * apply index_inj in Esame as [-> ->]; try lia.
        rewrite list_lookup_insert_eq by nia. now rewrite Ev.
      * rewrite list_lookup_insert_ne by congruence.
        apply Hq; try assumption.
        destruct Hpos as [Hlt|[-> Hlt]]; [left; assumption|].
        right. split; [reflexivity|].
        destruct (Z.eq_dec qx (x + dx)) as [->|]; [congruence|lia].
    + exists q. split; [assumption|]. split; [assumption|].
      intros qx qy Hqx Hqy. apply Hq; lia.
  - rewrite E. cbn [mbind option_bind]. eexists. split; [reflexivity|].
    split.
    + unfold sameFrame, setPixels; cbn. repeat split. lia.
    + intros qx qy Hqx Hqy. cbn [pixels setPixels]. apply Hdone; lia.
Qed.

(** C8: after blit, darken and restore, every pixel of a selection
    rectangle that lies inside the buffer and the background holds the
    red, green and blue bytes of the background at that position (and
    alpha 255). *)
Theorem restore_reproduces_background (dc : DrawContext) (m : image.RGBA)
    (sel : Selection) (qx qy : Z) :
  validContext dc -> image.wellFormed m ->
  let x1 := overlay.minInt (StartX sel) (EndX sel) in
  let y1 := overlay.minInt (StartY sel) (EndY sel) in
  let x2 := overlay.maxInt (StartX sel) (EndX sel) in
  let y2 := overlay.maxInt (StartY sel) (EndY sel) in
  0 <= x1 -> 0 <= y1 ->
  x2 <= width dc -> y2 <= height dc ->
  x2 <= image.Dx (image.Bounds m) -> y2 <= image.Dy (image.Bounds m) ->
  x1 <= qx < x2 -> y1 <= qy < y2 ->
  exists dc' r g b p,
    restoredFrame dc m sel = Some dc' /\
    image.Pix m !! Z.to_nat (qy * image.Stride m + qx * 4) = Some r /\
    image.Pix m !! Z.to_nat (qy * image.Stride m + qx * 4 + 1) = Some g /\
    image.Pix m !! Z.to_nat (qy * image.Stride m + qx * 4 + 2) = Some b /\
    pixels dc' !! Z.to_nat (qy * width dc + qx) = Some p /\
    redOf p = uint8 r /\ greenOf p = uint8 g /\ blueOf p = uint8 b /\
    alphaOf p = 255.
Proof.
  intros Hdc Hm x1 y1 x2 y2 Hx1 Hy1 Hx2 Hy2 Hsx Hsy Hqx Hqy.
  unfold restoredFrame. fold x1 y1 x2 y2.
  destruct (drawScreenshot_ok dc Hdc (Some m) Hm) as (dc1 & -> & F1).
  cbn [mbind option_bind].
  pose proof (sameFrame_valid dc dc1 Hdc F1) as Hdc1.
  destruct (fillOverlay_ok dc1 Hdc1 128) as (dc2 & -> & F2).
  cbn [mbind option_bind]. cbv zeta.
  pose proof (sameFrame_valid dc1 dc2 Hdc1 F2) as Hdc2.
  pose proof (sameFrame_trans dc dc1 dc2 F1 F2) as (EW & EH & _).
  pose proof Hdc as ((_ & HWmax) & (_ & HHmax) & _).
  assert (Ew : x2 -i x1 = x2 - x1).
  { unfold subi. apply int_small.
    unfold GoInt.minInt, GoInt.maxInt in *. lia. }
  assert (Eh : y2 -i y1 = y2 - y1).
  { unfold subi. apply int_small.
    unfold GoInt.minInt, GoInt.maxInt in *. lia. }
  rewrite Ew, Eh.
  destruct (clearRegion_restores dc2 m x1 y1 (x2 - x1) (y2 - y1) Hdc2 Hm)
    as (dc' & -> & _ & Hpix); try lia.
  destruct (sourcePixel_ok m qx qy Hm) as (r & g & b & Hr & Hg & Hb & Ev);
    [lia|lia|].
  exists dc', r, g, b, (pack 255 (uint8 r) (uint8 g) (uint8 b)).
  split; [reflexivity|]. repeat (split; [assumption|]).
  split; [rewrite <- EW, Hpix, Ev by lia; reflexivity|].
  destruct (pack_channels 255 (uint8 r) (uint8 g) (uint8 b))
    as (EA & ER & EG & EB); [lia|apply uint8_byte..|].
  auto.
Qed.

Lemma restore_reproduces_background_witness :
  exists dc' p,
    restoredFrame smallContext whiteImage innerDrag = Some dc' /\
    pixels dc' !! 5%nat = Some p /\ redOf p = 255.
Proof.
  destruct (restore_reproduces_background smallContext whiteImage
              innerDrag 1 1)
    as (dc' & r & g & b & p & E & Hr & _ & _ & Hp & ER & _).
  - unfold validContext. repeat split; vm_compute; congruence.
  - unfold image.wellFormed. repeat split; vm_compute; congruence.
  - vm_compute. congruence.
  - vm_compute. congruence.
  - vm_compute. congruence.
  - vm_compute. congruence.
  - vm_compute. congruence.
  - vm_compute. congruence.
  - vm_compute. split; congruence.
  - vm_compute. split; congruence.
  - exists dc', p. split; [assumption|]. split; [assumption|].
    rewrite ER. vm_compute in Hr. injection Hr as <-. reflexivity.
Defined.

(** [restoredFrame] is the head of [DrawOverlay] during a drag. *)
Lemma DrawOverlay_restoredFrame (dc : DrawContext) (m : image.RGBA)
    (sel : Selection) (scaleRatio : spec_float) :
  IsDragging sel = true ->
  DrawOverlay dc (Some m) sel scaleRatio =
    (let x1 := overlay.minInt (StartX sel) (EndX sel) in
     let y1 := overlay.minInt (StartY sel) (EndY sel) in
     let x2 := overlay.maxInt (StartX sel) (EndX sel) in
     let y2 := overlay.maxInt (StartY sel) (EndY sel) in
     let w := x2 -i x1 in
     let h := y2 -i y1 in
     d ← restoredFrame dc m sel;
     d ← drawSelectionBorder d x1 y1 w h;
     d ← drawCornerHandles d x1 y1 w h;
     d ← drawSizeIndicator d x1 (y2 +i 8)
           (f64.toInt (f64.mul (f64.ofInt w) scaleRatio))
           (f64.toInt (f64.mul (f64.ofInt h) scaleRatio));
     drawInstructions d sel).
Proof.
  intros Hdrag. unfold DrawOverlay, restoredFrame. rewrite Hdrag. cbv zeta.
  destruct (drawScreenshot dc (Some m)) as [d1|]; [|reflexivity].
  cbn [mbind option_bind].
  destruct (fillOverlay d1 128) as [d2|]; [|reflexivity].
  cbn [mbind option_bind].
  destruct (clearRegion d2 _ _ _ _ _) as [d3|]; [|reflexivity].
  cbn [mbind option_bind].
  destruct (drawSelectionBorder d3 _ _ _ _) as [d4|]; [|reflexivity].
  cbn [mbind option_bind].
  destruct (drawCornerHandles d4 _ _ _ _) as [d5|]; reflexivity.
Qed.

Lemma DrawOverlay_ok (dc : DrawContext) (screenshot : option image.RGBA)
    (sel : Selection) (scaleRatio : spec_float) :
  validContext dc -> wellFormedBackground screenshot ->
  exists dc',
    DrawOverlay dc screenshot sel scaleRatio = Some dc' /\ sameFrame dc dc'.
Proof.
  intros Hdc Hm. unfold DrawOverlay.
  destruct (drawScreenshot_ok dc Hdc screenshot Hm) as (dc1 & -> & F1).
  cbn [mbind option_bind].
  pose proof (sameFrame_valid dc dc1 Hdc F1) as Hdc1.
  destruct (fillOverlay_ok dc1 Hdc1 128) as (dc2 & -> & F2).
  cbn [mbind option_bind].
  pose proof (sameFrame_valid dc1 dc2 Hdc1 F2) as Hdc2.
  pose proof (sameFrame_trans dc dc1 dc2 F1 F2) as F12.
  destruct (IsDragging sel); cbv zeta.
  - match goal with |- context [clearRegion dc2 ?a ?b ?c ?d screenshot] =>
      destruct (clearRegion_ok dc2 Hdc2 a b c d screenshot Hm)
        as (d1 & -> & G1) end.
    cbn [mbind option_bind].
    pose proof (sameFrame_valid _ _ Hdc2 G1) as Hd1.
    match goal with |- context [drawSelectionBorder d1 ?a ?b ?c ?d] =>
      destruct (drawSelectionBorder_ok d1 Hd1 a b c d) as (d2 & -> & G2) end.
    cbn [mbind option_bind].
    pose proof (sameFrame_valid _ _ Hd1 G2) as Hd2.
    match goal with |- context [drawCornerHandles d2 ?a ?b ?c ?d] =>
      destruct (drawCornerHandles_ok d2 Hd2 a b c d) as (d3 & -> & G3) end.
    cbn [mbind option_bind].
    pose proof (sameFrame_valid _ _ Hd2 G3) as Hd3.
    match goal with |- context [drawSizeIndicator d3 ?a ?b ?c ?d] =>
      destruct (drawSizeIndicator_ok d3 Hd3 a b c d) as (d4 & -> & G4) end.
    cbn [mbind option_bind].
    pose proof (sameFrame_valid _ _ Hd3 G4) as Hd4.
    destruct (drawInstructions_ok d4 Hd4 sel) as (d5 & -> & G5).
    exists d5. split; [reflexivity|]. eauto 10 using sameFrame_trans.
  - cbn [mbind option_bind].
    destruct (drawInstructions_ok dc2 Hdc2 sel) as (d5 & -> & G5).
    exists d5. split; [reflexivity|]. eauto using sameFrame_trans.
Qed.

(** A store that succeeds hits a pixel position of the buffer. *)
Lemma store_position (dc : DrawContext) (px px' : list Z) (i v : Z) :
  validContext dc ->
  store (width dc * height dc) px i v = Some px' ->
  0 <= i mod width dc < width dc /\ 0 <= i / width dc < height dc /\
  Z.of_nat (length px') = Z.of_nat (length px) /\
  (i < Z.of_nat (length px)).
Proof.
  intros ((Hw & _) & (Hh & _) & _).
  unfold store. destruct (Z.leb_spec 0 i); [|discriminate].
  destruct (Z.ltb_spec i (width dc * height dc)); [|discriminate].
  cbn [andb]. intros Hs. apply sliceSet_inv in Hs as [Hi ->].
  rewrite length_insert.
  assert (0 < width dc) by nia.
  repeat split; try lia.
  - apply Z.mod_pos_bound. lia.
  - apply Z.mod_pos_bound. lia.
  - apply Z.div_pos; lia.
  - apply Z.div_lt_upper_bound; lia.
Qed.

(** C7: on a valid drawing context and with a well-formed (or absent)
    background, the frame assembly and each drawing routine run to
    completion for every selection, rectangle and scale ratio, and leave
    a buffer of the same size; every store they perform is checked
    against the pixel buffer, and a store that passes the check hits a
    position (x, y) with 0 <= x < width and 0 <= y < height. *)
Theorem overlay_stays_in_buffer (dc : DrawContext)
    (screenshot : option image.RGBA) (sel : Selection)
    (scaleRatio : spec_float) (x y w h alpha : Z) :
  validContext dc -> wellFormedBackground screenshot ->
  (exists dc', DrawOverlay dc screenshot sel scaleRatio = Some dc' /\
               sameFrame dc dc') /\
  (exists dc', drawScreenshot dc screenshot = Some dc' /\ sameFrame dc dc') /\
  (exists dc', fillOverlay dc alpha = Some dc' /\ sameFrame dc dc') /\
  (exists dc', clearRegion dc x y w h screenshot = Some dc' /\
               sameFrame dc dc') /\
  (exists dc', drawSelectionBorder dc x y w h = Some dc' /\
               sameFrame dc dc') /\
  (exists dc', drawCornerHandles dc x y w h = Some dc' /\
               sameFrame dc dc') /\
  (exists dc', drawSizeIndicator dc x y w h = Some dc' /\
               sameFrame dc dc') /\
  (exists dc', drawInstructions dc sel = Some dc' /\ sameFrame dc dc') /\
  (forall px px' i v,
     store (width dc * height dc) px i v = Some px' ->
     0 <= i mod width dc < width dc /\ 0 <= i / width dc < height dc).
Proof.
  intros Hdc Hm.
  split; [apply DrawOverlay_ok; assumption|].
  split; [apply drawScreenshot_ok; assumption|].
  split; [apply fillOverlay_ok; assumption|].
  split; [apply clearRegion_ok; assumption|].
  split; [apply drawSelectionBorder_ok; assumption|].
  split; [apply drawCornerHandles_ok; assumption|].
  split; [apply drawSizeIndicator_ok; assumption|].
  split; [apply drawInstructions_ok; assumption|].
  intros px px' i v Hs.
  destruct (store_position dc px px' i v Hdc Hs) as (? & ? & _). auto.
Qed.

Lemma overlay_stays_in_buffer_witness :
  exists dc',
    DrawOverlay smallContext (Some whiteImage) wildDrag (f64.ofInt 2)
      = Some dc' /\
    sameFrame smallContext dc'.
Proof.
  destruct (overlay_stays_in_buffer smallContext (Some whiteImage) wildDrag
              (f64.ofInt 2) 0 0 0 0 0) as (H & _).
  - unfold validContext. repeat split; vm_compute; congruence.
  - unfold wellFormedBackground, image.wellFormed.
    repeat split; vm_compute; congruence.
  - exact H.
Defined.

Lemma writes_skip (dc : DrawContext) (val : Z -> Z -> Z) :
  writes dc (fun _ _ => false) val Some.
Proof. intros px Hlen. exists px. auto. Qed.

Lemma writes_ext (dc : DrawContext) (D D' : Z -> Z -> bool)
    (val val' : Z -> Z -> Z) (f : list Z -> option (list Z)) :
  (forall qx qy, inBuffer dc qx qy -> D qx qy = D' qx qy) ->
  (forall qx qy, inBuffer dc qx qy -> D qx qy = true ->
     val qx qy = val' qx qy) ->
  writes dc D val f -> writes dc D' val' f.
Proof.
  intros HD Hval Hf px Hlen. destruct (Hf px Hlen) as (px' & E & Hl & Hp).
  exists px'. split; [assumption|]. split; [assumption|].
  intros qx qy Hq. rewrite (Hp qx qy Hq), <- (HD qx qy Hq).
  destruct (D qx qy) eqn:Ed; [|reflexivity].
  now rewrite (Hval qx qy Hq Ed).
Qed.

Lemma writes_bind (dc : DrawContext) (D1 D2 : Z -> Z -> bool)
    (val : Z -> Z -> Z) (f g : list Z -> option (list Z)) :
  writes dc D1 val f -> writes dc D2 val g ->
  writes dc (fun qx qy => D1 qx qy || D2 qx qy) val
    (fun px => px ← f px; g px).
Proof.
  intros Hf Hg px Hlen. destruct (Hf px Hlen) as (px1 & -> & Hl1 & Hp1).
  destruct (Hg px1 Hl1) as (px2 & E2 & Hl2 & Hp2). cbn.
  exists px2. split; [assumption|]. split; [assumption|].
  intros qx qy Hq. rewrite (Hp2 qx qy Hq), (Hp1 qx qy Hq).
  destruct (D1 qx qy), (D2 qx qy); reflexivity.
Qed.

Lemma writes_loopFrom (dc : DrawContext) (Dj : Z -> Z -> Z -> bool)
    (val : Z -> Z -> Z) (body : Z -> list Z -> option (list Z))
    (n : nat) (i : Z) :
  (forall j, i <= j < i + Z.of_nat n -> writes dc (Dj j) val (body j)) ->
  writes dc (writtenBy n i Dj) val (loopFrom n i body).
Proof.
  revert i. induction n as [|n IH]; intros i Hbody.
  - apply writes_skip.
  - intros px Hlen. cbn [loopFrom writtenBy].
    destruct (Hbody i ltac:(lia) px Hlen) as (px1 & -> & Hl1 & Hp1).
    destruct (IH (i + 1) ltac:(intros j Hj; apply Hbody; lia) px1 Hl1)
      as (px2 & E2 & Hl2 & Hp2).
    exists px2. split; [assumption|]. split; [assumption|].
    intros qx qy Hq. rewrite (Hp2 qx qy Hq), (Hp1 qx qy Hq).
    destruct (Dj i qx qy), (writtenBy n (i + 1) Dj qx qy); reflexivity.
Qed.

Lemma writtenBy_spec (n : nat) (i : Z) (Dj : Z -> Z -> Z -> bool)
    (qx qy : Z) :
  writtenBy n i Dj qx qy = true <->
  exists j, i <= j < i + Z.of_nat n /\ Dj j qx qy = true.
Proof.
  revert i. induction n as [|n IH]; intros i; cbn [writtenBy].
  - split; [discriminate|]. intros (j & Hj & _). lia.
  - rewrite orb_true_iff, IH. split.
    + intros [H|(j & Hj & H)]; [exists i|exists j]; split; auto; lia.
    + intros (j & Hj & H). destruct (Z.eq_dec j i) as [->|Hne]; [auto|].
      right. exists j. split; [lia|assumption].
Qed.

(** The rounds of a [for] loop, each with its own positions. *)
Lemma writes_forLoop (dc : DrawContext) (D : Z -> Z -> bool)
    (Dj : Z -> Z -> Z -> bool) (val : Z -> Z -> Z)
    (body : Z -> list Z -> option (list Z)) (lo hi : Z) :
  (forall j, lo <= j < hi -> writes dc (Dj j) val (body j)) ->
  (forall qx qy, inBuffer dc qx qy ->
     (D qx qy = true <-> exists j, lo <= j < hi /\ Dj j qx qy = true)) ->
  writes dc D val (forLoop lo hi body).
Proof.
  intros Hbody HD. unfold forLoop.
  apply (writes_ext dc (writtenBy (Z.to_nat (hi - lo)) lo Dj) D val val).
  - intros qx qy Hq. apply eq_true_iff_eq.
    rewrite writtenBy_spec, (HD qx qy Hq).
    split; intros (j & Hj & H); exists j; split; auto; lia.
  - reflexivity.
  - apply writes_loopFrom. intros j Hj. apply Hbody. lia.
Qed.

Lemma writes_forEach {A : Type} (dc : DrawContext) (Da : A -> Z -> Z -> bool)
    (val : Z -> Z -> Z) (body : A -> list Z -> option (list Z))
    (l : list A) :
  (forall a, In a l -> writes dc (Da a) val (body a)) ->
  writes dc (fun qx qy => existsb (fun a => Da a qx qy) l) val
    (forEach l body).
Proof.
  induction l as [|a l IH]; intros Hbody.
  - apply writes_skip.
  - intros px Hlen. cbn [forEach existsb].
    destruct (Hbody a ltac:(left; reflexivity) px Hlen)
      as (px1 & -> & Hl1 & Hp1).
    destruct (IH ltac:(intros b Hb; apply Hbody; right; assumption) px1 Hl1)
      as (px2 & E2 & Hl2 & Hp2).
    exists px2. split; [assumption|]. split; [assumption|].
    intros qx qy Hq. rewrite (Hp2 qx qy Hq), (Hp1 qx qy Hq).
    destruct (Da a qx qy), (existsb _ l); reflexivity.
Qed.

(** A store at a position of the buffer. *)
Lemma writes_store (dc : DrawContext) (x y v : Z) (val : Z -> Z -> Z) :
  validContext dc -> inBuffer dc x y -> val x y = v ->
  writes dc (fun qx qy => (qx =? x) && (qy =? y)) val
    (fun px => store (width dc * height dc) px (y *i width dc +i x) v).
Proof.
  intros Hdc [Hx Hy] Hval px Hlen.
  destruct (pixel_index_small dc x y Hdc Hx Hy) as [-> Hi].
  rewrite store_ok by assumption.
  eexists. split; [reflexivity|]. rewrite length_insert.
  split; [assumption|]. intros qx qy [Hqx Hqy]. unfold pixelAt.
  destruct (Z.eqb_spec qx x) as [->|Nx]; cbn [andb].
  - destruct (Z.eqb_spec qy y) as [->|Ny].
    + rewrite list_lookup_insert_eq by lia. now rewrite Hval.
    + rewrite list_lookup_insert_ne; [reflexivity|].
      intros E. apply index_inj in E; lia.
  - rewrite list_lookup_insert_ne; [reflexivity|].
    intros E. apply index_inj in E; lia.
Qed.

(** The guarded store: a position outside the buffer is skipped. *)
Lemma writes_plot (dc : DrawContext) (x y color : Z) (val : Z -> Z -> Z) :
  validContext dc -> val x y = color ->
  writes dc (fun qx qy => (qx =? x) && (qy =? y)) val
    (fun px => plot dc (width dc * height dc) px x y color).
Proof.
  intros Hdc Hval. unfold plot.
  destruct (Z.leb_spec 0 x); cbn [andb].
  2: { apply (writes_ext dc (fun _ _ => false) _ val val);
         [|discriminate|apply writes_skip].
       intros qx qy [Hqx Hqy]. destruct (Z.eqb_spec qx x); [lia|reflexivity]. }
  destruct (Z.ltb_spec x (width dc)); cbn [andb].
  2: { apply (writes_ext dc (fun _ _ => false) _ val val);
         [|discriminate|apply writes_skip].
       intros qx qy [Hqx Hqy]. destruct (Z.eqb_spec qx x); [lia|reflexivity]. }
  destruct (Z.leb_spec 0 y); cbn [andb].
  2: { apply (writes_ext dc (fun _ _ => false) _ val val);
         [|discriminate|apply writes_skip].
       intros qx qy [Hqx Hqy]. destruct (Z.eqb_spec qy y);
         [lia|now rewrite andb_false_r]. }
  destruct (Z.ltb_spec y (height dc)); cbn [andb].
  2: { apply (writes_ext dc (fun _ _ => false) _ val val);
         [|discriminate|apply writes_skip].
       intros qx qy [Hqx Hqy]. destruct (Z.eqb_spec qy y);
         [lia|now rewrite andb_false_r]. }
  apply writes_store; [assumption|split; lia|assumption].
Qed.

(** What a routine with a known effect does to a drawing context. *)
Lemma writes_frame (dc : DrawContext) (D : Z -> Z -> bool)
    (val : Z -> Z -> Z) (f : list Z -> option (list Z)) :
  validContext dc -> writes dc D val f ->
  exists dc',
    (px ← f (pixels dc); Some (setPixels dc px)) = Some dc' /\
    sameFrame dc dc' /\
    forall qx qy, inBuffer dc qx qy ->
      pixelAt dc (pixels dc') qx qy =
        if D qx qy then Some (val qx qy) else pixelAt dc (pixels dc) qx qy.
Proof.
  intros Hdc Hf. pose proof Hdc as (_ & _ & _ & Hlen).
  destruct (Hf (pixels dc) Hlen) as (px' & -> & Hl & Hp).
  eexists. split; [reflexivity|]. split.
  - unfold sameFrame, setPixels; cbn. repeat split. lia.
  - exact Hp.
Qed.

Lemma addi_small (a b : Z) :
  GoInt.minInt <= a + b <= GoInt.maxInt -> a +i b = a + b.
Proof. apply int_small. Qed.

Lemma subi_small (a b : Z) :
  GoInt.minInt <= a - b <= GoInt.maxInt -> a -i b = a - b.
Proof. apply int_small. Qed.

Lemma muli_small (a b : Z) :
  GoInt.minInt <= a * b <= GoInt.maxInt -> a *i b = a * b.
Proof. apply int_small. Qed.

(** Replaces wrapping operations by exact ones where the operands are
    small enough. *)
Ltac nowrap :=
  repeat match goal with
  | |- context [?a +i ?b] =>
      rewrite (addi_small a b)
        by (unfold GoInt.minInt, GoInt.maxInt, screenCoord in *; lia)
  | |- context [?a -i ?b] =>
      rewrite (subi_small a b)
        by (unfold GoInt.minInt, GoInt.maxInt, screenCoord in *; lia)
  | |- context [?a *i ?b] =>
      rewrite (muli_small a b)
        by (unfold GoInt.minInt, GoInt.maxInt, screenCoord in *; lia)
  end.

(** Turns a goal on boolean tests into linear arithmetic. *)
Ltac bool_lia :=
  repeat first [ rewrite orb_true_iff | rewrite andb_true_iff
               | rewrite Z.leb_le | rewrite Z.ltb_lt | rewrite Z.eqb_eq ];
  lia.

(** A horizontal run of guarded stores. *)
Lemma writes_row (dc : DrawContext) (lo hi y color : Z) :
  validContext dc ->
  writes dc (fun qx qy => (lo <=? qx) && (qx <? hi) && (qy =? y))
    (fun _ _ => color)
    (forLoop lo hi (fun p px => plot dc (width dc * height dc) px p y color)).
Proof.
  intros Hdc.
  apply (writes_forLoop dc _ (fun p qx qy => (qx =? p) && (qy =? y))).
  - intros p _. apply writes_plot; auto.
  - intros qx qy _. split.
    + intros H. exists qx. revert H. bool_lia.
    + intros (p & Hp & H). revert H. bool_lia.
Qed.

(** A vertical run of guarded stores. *)
Lemma writes_column (dc : DrawContext) (lo hi x color : Z) :
  validContext dc ->
  writes dc (fun qx qy => (lo <=? qy) && (qy <? hi) && (qx =? x))
    (fun _ _ => color)
    (forLoop lo hi (fun p px => plot dc (width dc * height dc) px x p color)).
Proof.
  intros Hdc.
  apply (writes_forLoop dc _ (fun p qx qy => (qx =? x) && (qy =? p))).
  - intros p _. apply writes_plot; auto.
  - intros qx qy _. split.
    + intros H. exists qy. revert H. bool_lia.
    + intros (p & Hp & H). revert H. bool_lia.
Qed.

(** A rectangle of guarded stores, row after row. *)
Lemma writes_rectangle (dc : DrawContext) (x0 y0 w h color : Z) :
  validContext dc ->
  - 2 ^ 62 <= x0 <= 2 ^ 62 -> - 2 ^ 62 <= y0 <= 2 ^ 62 ->
  w <= 2 ^ 62 -> h <= 2 ^ 62 ->
  writes dc
    (fun qx qy => (x0 <=? qx) && (qx <? x0 + w) &&
                  (y0 <=? qy) && (qy <? y0 + h))
    (fun _ _ => color)
    (forLoop 0 h (fun dy px =>
       forLoop 0 w (fun dx px =>
         plot dc (width dc * height dc) px (x0 +i dx) (y0 +i dy) color) px)).
Proof.
  intros Hdc Hx Hy Hw Hh.
  apply (writes_forLoop dc _
           (fun dy qx qy => (x0 <=? qx) && (qx <? x0 + w) && (qy =? y0 + dy))).
  - intros dy Hdy. cbv beta.
    apply (writes_forLoop dc _
             (fun dx qx qy => (qx =? x0 + dx) && (qy =? y0 + dy))).
    + intros dx Hdx. cbv beta. nowrap. apply writes_plot; auto.
    + intros qx qy _. split.
      * intros H. exists (qx - x0). revert H. bool_lia.
      * intros (p & Hp & H). revert H. bool_lia.
  - intros qx qy _. split.
    + intros H. exists (qy - y0). revert H. bool_lia.
    + intros (p & Hp & H). revert H. bool_lia.
Qed.

(** The exact effect of [drawSelectionBorder]. *)
Lemma drawSelectionBorder_writes (dc : DrawContext) (x y w h : Z) :
  validContext dc ->
  screenCoord x -> screenCoord y -> screenCoord w -> screenCoord h ->
  exists dc',
    drawSelectionBorder dc x y w h = Some dc' /\ sameFrame dc dc' /\
    forall qx qy, inBuffer dc qx qy ->
      pixelAt dc (pixels dc') qx qy =
        if borderStamp x y w h qx qy then Some blue
        else pixelAt dc (pixels dc) qx qy.
Proof.
  intros Hdc Hx Hy Hw Hh. unfold drawSelectionBorder.
  rewrite (unsafeSlice_valid dc Hdc). cbn [mbind option_bind].
  apply (writes_frame dc (borderStamp x y w h) (fun _ _ => blue));
    [assumption|].
  apply (writes_forLoop dc _
    (fun t qx qy =>
       ((x <=? qx) && (qx <? x + w) && (qy =? y + t)) ||
       (((x <=? qx) && (qx <? x + w) && (qy =? y + h - 1 - t)) ||
        (((y <=? qy) && (qy <? y + h) && (qx =? x + t)) ||
         ((y <=? qy) && (qy <? y + h) && (qx =? x + w - 1 - t)))))).
  - intros t Ht. cbv beta. nowrap.
    apply (writes_bind dc _ _ _ _ _ (writes_row dc x (x + w) (y + t) blue Hdc)).
    apply (writes_bind dc _ _ _ _ _
             (writes_row dc x (x + w) (y + h - 1 - t) blue Hdc)).
    apply (writes_bind dc _ _ _ _ _
             (writes_column dc y (y + h) (x + t) blue Hdc)).
    apply (writes_column dc y (y + h) (x + w - 1 - t) blue Hdc).
  - intros qx qy _. unfold borderStamp. split.
    + intros H.
      assert (Hc :
        ((x <= qx < x + w /\ (qy = y \/ qy = y + h - 1)) \/
         (y <= qy < y + h /\ (qx = x \/ qx = x + w - 1))) \/
        ((x <= qx < x + w /\ (qy = y + 1 \/ qy = y + h - 2)) \/
         (y <= qy < y + h /\ (qx = x + 1 \/ qx = x + w - 2))))
        by (revert H; bool_lia).
      clear H.
      destruct Hc as [Hc|Hc]; [exists 0|exists 1];
        (split; [lia|]); bool_lia.
    + intros (t & Ht & H).
      assert (t = 0 \/ t = 1) as [-> | ->] by lia; revert H; bool_lia.
Qed.

(** X8: [drawSelectionBorder] on a rectangle at least two pixels wide and
    high paints exactly the two outer rings of the rectangle blue, as
    far as they lie in the buffer, and leaves every other pixel,
    the interior included, as it was. *)
Theorem drawSelectionBorder_ring (dc : DrawContext) (x y w h : Z) :
  validContext dc ->
  screenCoord x -> screenCoord y ->
  2 <= w <= 2 ^ 31 -> 2 <= h <= 2 ^ 31 ->
  exists dc',
    drawSelectionBorder dc x y w h = Some dc' /\ sameFrame dc dc' /\
    forall qx qy, inBuffer dc qx qy ->
      pixelAt dc (pixels dc') qx qy =
        if onBorder x y w h qx qy then Some blue
        else pixelAt dc (pixels dc) qx qy.
Proof.
  intros Hdc Hx Hy Hw Hh.
  destruct (drawSelectionBorder_writes dc x y w h Hdc Hx Hy)
    as (dc' & E & F & Hp); [unfold screenCoord; lia..|].
  exists dc'. split; [assumption|]. split; [assumption|].
  intros qx qy Hq. rewrite (Hp qx qy Hq).
  replace (onBorder x y w h qx qy) with (borderStamp x y w h qx qy);
    [reflexivity|].
  apply eq_true_iff_eq. unfold borderStamp, onBorder. bool_lia.
Qed.

Lemma drawSelectionBorder_ring_witness :
  exists dc',
    drawSelectionBorder blankContext 2 2 6 6 = Some dc' /\
    pixelAt blankContext (pixels dc') 3 3 = Some blue /\
    pixelAt blankContext (pixels dc') 4 4 = Some 0 /\
    pixelAt blankContext (pixels dc') 1 1 = Some 0.
Proof.
  destruct (drawSelectionBorder_ring blankContext 2 2 6 6)
    as (dc' & E & _ & Hp).
  - unfold validContext. repeat split; vm_compute; congruence.
  - unfold screenCoord. lia.
  - unfold screenCoord. lia.
  - lia.
  - lia.
  - exists dc'. split; [assumption|].
    rewrite !Hp by (unfold inBuffer; cbn; lia). repeat split.
Defined.

(** X9: on a rectangle one pixel high, [drawSelectionBorder] paints three
    rows: the row of the rectangle and the rows just above and below
    it.  The second ring is drawn at [y + 1] and [y + h - 2] whatever the
    height. *)
Theorem drawSelectionBorder_thin (dc : DrawContext) (x y w : Z) :
  validContext dc ->
  screenCoord x -> screenCoord y -> 0 <= w <= 2 ^ 31 ->
  exists dc',
    drawSelectionBorder dc x y w 1 = Some dc' /\
    forall qx qy, inBuffer dc qx qy ->
      x <= qx < x + w -> y - 1 <= qy <= y + 1 ->
      pixelAt dc (pixels dc') qx qy = Some blue.
Proof.
  intros Hdc Hx Hy Hw.
  destruct (drawSelectionBorder_writes dc x y w 1 Hdc Hx Hy)
    as (dc' & E & F & Hp); [unfold screenCoord; lia..|].
  exists dc'. split; [assumption|].
  intros qx qy Hq Hqx Hqy. rewrite (Hp qx qy Hq).
  replace (borderStamp x y w 1 qx qy) with true; [reflexivity|].
  symmetry. unfold borderStamp. bool_lia.
Qed.

Lemma drawSelectionBorder_thin_witness :
  exists dc',
    drawSelectionBorder blankContext 2 5 6 1 = Some dc' /\
    pixelAt blankContext (pixels dc') 4 4 = Some blue /\
    pixelAt blankContext (pixels dc') 4 6 = Some blue.
Proof.
  destruct (drawSelectionBorder_thin blankContext 2 5 6)
    as (dc' & E & Hp).
  - unfold validContext. repeat split; vm_compute; congruence.
  - unfold screenCoord. lia.
  - unfold screenCoord. lia.
  - lia.
  - exists dc'. split; [assumption|].
    split; apply Hp; unfold inBuffer; cbn; lia.
Defined.

(** The exact effect of [drawCornerHandles]. *)
Lemma drawCornerHandles_effect (dc : DrawContext) (x y w h : Z) :
  validContext dc ->
  screenCoord x -> screenCoord y -> screenCoord w -> screenCoord h ->
  exists dc',
    drawCornerHandles dc x y w h = Some dc' /\ sameFrame dc dc' /\
    forall qx qy, inBuffer dc qx qy ->
      pixelAt dc (pixels dc') qx qy =
        if onHandle x y w h qx qy then Some blue
        else pixelAt dc (pixels dc) qx qy.
Proof.
  intros Hdc Hx Hy Hw Hh. unfold drawCornerHandles.
  rewrite (unsafeSlice_valid dc Hdc). cbn [mbind option_bind]. cbv zeta.
  change (Z.quot 6 2) with 3. nowrap.
  apply (writes_frame dc (onHandle x y w h) (fun _ _ => blue));
    [assumption|].
  eapply writes_ext;
    [| |apply (writes_forEach dc
                 (fun c qx qy => (fst c <=? qx) && (qx <? fst c + 6) &&
                                 (snd c <=? qy) && (qy <? snd c + 6)))].
  - intros qx qy _. cbn [existsb fst snd]. unfold onHandle, inSquare6.
    apply eq_true_iff_eq. bool_lia.
  - reflexivity.
  - intros c Hc. apply writes_rectangle; try assumption; try lia;
      unfold screenCoord in *; cbn [In] in Hc;
      repeat (destruct Hc as [<-|Hc]; [cbn [fst snd]; lia|]);
      destruct Hc.
Qed.

(** X10: [drawCornerHandles] paints exactly four squares of side 6, one
    centered on each corner of the rectangle, clipped to the buffer;
    every other pixel keeps its value. *)
Theorem drawCornerHandles_squares (dc : DrawContext) (x y w h : Z) :
  validContext dc ->
  screenCoord x -> screenCoord y -> screenCoord w -> screenCoord h ->
  exists dc',
    drawCornerHandles dc x y w h = Some dc' /\ sameFrame dc dc' /\
    forall qx qy, inBuffer dc qx qy ->
      pixelAt dc (pixels dc') qx qy =
        if onHandle x y w h qx qy then Some blue
        else pixelAt dc (pixels dc) qx qy.
Proof. exact (drawCornerHandles_effect dc x y w h). Qed.

Lemma drawCornerHandles_squares_witness :
  exists dc',
    drawCornerHandles blankContext 4 4 4 4 = Some dc' /\
    pixelAt blankContext (pixels dc') 1 1 = Some blue /\
    pixelAt blankContext (pixels dc') 0 0 = Some 0.
Proof.
  destruct (drawCornerHandles_squares blankContext 4 4 4 4)
    as (dc' & E & _ & Hp).
  - unfold validContext. repeat split; vm_compute; congruence.
  - unfold screenCoord. lia.
  - unfold screenCoord. lia.
  - unfold screenCoord. lia.
  - unfold screenCoord. lia.
  - exists dc'. split; [assumption|].
    rewrite !Hp by (unfold inBuffer; cbn; lia). repeat split.
Defined.

Lemma backgroundAt_Some (m : image.RGBA) (x y : Z) :
  image.wellFormed m ->
  0 <= x < image.Dx (image.Bounds m) ->
  0 <= y < image.Dy (image.Bounds m) ->
  sourcePixel m x y = Some (backgroundAt m x y).
Proof.
  intros Hm Hx Hy. unfold backgroundAt.
  destruct (sourcePixel_ok m x y Hm Hx Hy) as (r & g & b & _ & _ & _ & ->).
  reflexivity.
Qed.

(** A round that is skipped writes nowhere. *)
Lemma writes_nothing (dc : DrawContext) (D : Z -> Z -> bool)
    (val : Z -> Z -> Z) :
  (forall qx qy, inBuffer dc qx qy -> D qx qy = false) ->
  writes dc D val Some.
Proof.
  intros HD. apply (writes_ext dc (fun _ _ => false) D val val).
  - intros qx qy Hq. symmetry. apply HD. assumption.
  - reflexivity.
  - apply writes_skip.
Qed.

(** One copied pixel. *)
Lemma writes_copy (dc : DrawContext) (m : image.RGBA) (x y : Z) :
  validContext dc -> image.wellFormed m ->
  inBuffer dc x y ->
  x < image.Dx (image.Bounds m) -> y < image.Dy (image.Bounds m) ->
  writes dc (fun qx qy => (qx =? x) && (qy =? y)) (backgroundAt m)
    (fun px => v ← sourcePixel m x y;
               store (width dc * height dc) px (y *i width dc +i x) v).
Proof.
  intros Hdc Hm Hq Hx Hy. unfold inBuffer in Hq.
  rewrite (backgroundAt_Some m x y Hm) by lia. cbn [mbind option_bind].
  apply writes_store; [assumption|assumption|reflexivity].
Qed.

Lemma drawScreenshot_writes (dc : DrawContext) (m : image.RGBA) :
  validContext dc -> image.wellFormed m ->
  writes dc (covered dc m) (backgroundAt m)
    (forLoop 0 (overlay.minInt (image.Dy (image.Bounds m)) (height dc))
       (fun y px =>
          forLoop 0 (overlay.minInt (image.Dx (image.Bounds m)) (width dc))
            (fun x px =>
               let dstIdx := y *i width dc +i x in
               v ← sourcePixel m x y;
               store (width dc * height dc) px dstIdx v) px)).
Proof.
  intros Hdc Hm.
  pose proof (minInt_le_l (image.Dy (image.Bounds m)) (height dc)).
  pose proof (minInt_le_r (image.Dy (image.Bounds m)) (height dc)).
  pose proof (minInt_le_l (image.Dx (image.Bounds m)) (width dc)).
  pose proof (minInt_le_r (image.Dx (image.Bounds m)) (width dc)).
  apply (writes_forLoop dc _
           (fun y qx qy =>
              (qy =? y) &&
              (qx <? overlay.minInt (image.Dx (image.Bounds m)) (width dc)))).
  - intros y Hy.
    apply (writes_forLoop dc _ (fun x qx qy => (qx =? x) && (qy =? y))).
    + intros x Hx. cbv zeta.
      apply writes_copy; try assumption; unfold inBuffer; lia.
    + intros qx qy [Hqx Hqy]. split.
      * intros H'. exists qx. revert H'. bool_lia.
      * intros (x & Hx & H'). revert H'. bool_lia.
  - intros qx qy [Hqx Hqy]. unfold covered. split.
    + intros H'. exists qy. revert H'. bool_lia.
    + intros (y & Hy & H'). revert H'. bool_lia.
Qed.

(** The exact effect of [drawScreenshot]. *)
Lemma drawScreenshot_effect (dc : DrawContext) (m : image.RGBA) :
  validContext dc -> image.wellFormed m ->
  exists dc',
    drawScreenshot dc (Some m) = Some dc' /\ sameFrame dc dc' /\
    forall qx qy, inBuffer dc qx qy ->
      pixelAt dc (pixels dc') qx qy =
        if covered dc m qx qy then sourcePixel m qx qy
        else pixelAt dc (pixels dc) qx qy.
Proof.
  intros Hdc Hm. unfold drawScreenshot. cbv zeta.
  rewrite (unsafeSlice_valid dc Hdc). cbn [mbind option_bind].
  destruct (writes_frame dc _ _ _ Hdc (drawScreenshot_writes dc m Hdc Hm))
    as (dc' & E & F & Hp).
  exists dc'. split; [exact E|]. split; [assumption|].
  intros qx qy Hq. rewrite (Hp qx qy Hq).
  destruct (covered dc m qx qy) eqn:Ec; [|reflexivity].
  symmetry. apply backgroundAt_Some; [assumption| |];
    unfold covered in Ec; destruct Hq;
    pose proof (minInt_le_l (image.Dy (image.Bounds m)) (height dc));
    pose proof (minInt_le_l (image.Dx (image.Bounds m)) (width dc));
    revert Ec; bool_lia.
Qed.

(** X11: [drawScreenshot] copies the background pixel for pixel into the
    part of the buffer the background covers (the first
    [min(srcWidth, width)] columns of the first [min(srcHeight, height)]
    rows) with alpha 255, and leaves the rest of the buffer as it was: a
    background smaller than the buffer does not clear the margin. *)
Theorem drawScreenshot_copies (dc : DrawContext) (m : image.RGBA) :
  validContext dc -> image.wellFormed m ->
  exists dc',
    drawScreenshot dc (Some m) = Some dc' /\ sameFrame dc dc' /\
    forall qx qy, inBuffer dc qx qy ->
      pixelAt dc (pixels dc') qx qy =
        if covered dc m qx qy then sourcePixel m qx qy
        else pixelAt dc (pixels dc) qx qy.
Proof. exact (drawScreenshot_effect dc m). Qed.

Lemma drawScreenshot_copies_witness :
  exists dc',
    drawScreenshot blankContext (Some whiteImage) = Some dc' /\
    pixelAt blankContext (pixels dc') 3 3 = Some white /\
    pixelAt blankContext (pixels dc') 4 4 = Some 0.
Proof.
  destruct (drawScreenshot_copies blankContext whiteImage)
    as (dc' & E & _ & Hp).
  - unfold validContext. repeat split; vm_compute; congruence.
  - unfold image.wellFormed. repeat split; vm_compute; congruence.
  - exists dc'. split; [assumption|].
    rewrite !Hp by (unfold inBuffer; cbn; lia). repeat split.
Defined.

Lemma clearRegion_writes (dc : DrawContext) (m : image.RGBA)
    (x y w h : Z) :
  validContext dc -> image.wellFormed m ->
  screenCoord x -> screenCoord y -> screenCoord w -> screenCoord h ->
  writes dc (restored m x y w h) (backgroundAt m)
    (forLoop 0 h (fun dy px =>
       let py := y +i dy in
       if (py <? 0) || (height dc <=? py) ||
          (image.Dy (image.Bounds m) <=? py)
       then Some px
       else
         forLoop 0 w (fun dx px =>
           let px_ := x +i dx in
           if (px_ <? 0) || (width dc <=? px_) ||
              (image.Dx (image.Bounds m) <=? px_)
           then Some px
           else
             let dstIdx := py *i width dc +i px_ in
             v ← sourcePixel m px_ py;
             store (width dc * height dc) px dstIdx v) px)).
Proof.
  intros Hdc Hm Hx Hy Hw Hh.
  apply (writes_forLoop dc _
           (fun dy qx qy =>
              (qy =? y + dy) && (qy <? image.Dy (image.Bounds m)) &&
              (x <=? qx) && (qx <? x + w) &&
              (qx <? image.Dx (image.Bounds m)))).
  - intros dy Hdy. cbv zeta. nowrap.
    destruct (Z.ltb_spec (y + dy) 0); cbn [orb].
    { apply writes_nothing. intros qx qy [Hqx Hqy].
      apply not_true_is_false. bool_lia. }
    destruct (Z.leb_spec (height dc) (y + dy)); cbn [orb].
    { apply writes_nothing. intros qx qy [Hqx Hqy].
      apply not_true_is_false. bool_lia. }
    destruct (Z.leb_spec (image.Dy (image.Bounds m)) (y + dy)); cbn [orb].
    { apply writes_nothing. intros qx qy [Hqx Hqy].
      apply not_true_is_false. bool_lia. }
    apply (writes_forLoop dc _
             (fun dx qx qy =>
                (qx =? x + dx) && (qy =? y + dy) &&
                (qx <? image.Dx (image.Bounds m)))).
    + intros dx Hdx. nowrap.
      destruct (Z.ltb_spec (x + dx) 0); cbn [orb].
      { apply writes_nothing. intros qx qy [Hqx Hqy].
        apply not_true_is_false. bool_lia. }
      destruct (Z.leb_spec (width dc) (x + dx)); cbn [orb].
      { apply writes_nothing. intros qx qy [Hqx Hqy].
        apply not_true_is_false. bool_lia. }
      destruct (Z.leb_spec (image.Dx (image.Bounds m)) (x + dx)); cbn [orb].
      { apply writes_nothing. intros qx qy [Hqx Hqy].
        apply not_true_is_false. bool_lia. }
      apply (writes_ext dc
               (fun qx qy => (qx =? x + dx) && (qy =? y + dy)) _
               (backgroundAt m) (backgroundAt m)).
      * intros qx qy [Hqx Hqy]. apply eq_true_iff_eq. bool_lia.
      * reflexivity.
      * apply writes_copy; try assumption; unfold inBuffer; lia.
    + intros qx qy [Hqx Hqy]. split.
      * intros H'. exists (qx - x). revert H'. bool_lia.
      * intros (dx & Hdx & H'). revert H'. bool_lia.
  - intros qx qy [Hqx Hqy]. unfold restored. split.
    + intros H'. exists (qy - y). revert H'. bool_lia.
    + intros (dy & Hdy & H'). revert H'. bool_lia.
Qed.

(** The exact effect of [clearRegion]. *)
Lemma clearRegion_effect (dc : DrawContext) (m : image.RGBA)
    (x y w h : Z) :
  validContext dc -> image.wellFormed m ->
  screenCoord x -> screenCoord y -> screenCoord w -> screenCoord h ->
  exists dc',
    clearRegion dc x y w h (Some m) = Some dc' /\ sameFrame dc dc' /\
    forall qx qy, inBuffer dc qx qy ->
      pixelAt dc (pixels dc') qx qy =
        if restored m x y w h qx qy then sourcePixel m qx qy
        else pixelAt dc (pixels dc) qx qy.
Proof.
  intros Hdc Hm Hx Hy Hw Hh. unfold clearRegion. cbv zeta.
  rewrite (unsafeSlice_valid dc Hdc). cbn [mbind option_bind].
  destruct (writes_frame dc _ _ _ Hdc
              (clearRegion_writes dc m x y w h Hdc Hm Hx Hy Hw Hh))
    as (dc' & E & F & Hp).
  exists dc'. split; [exact E|]. split; [assumption|].
  intros qx qy Hq. rewrite (Hp qx qy Hq).
  destruct (restored m x y w h qx qy) eqn:Ec; [|reflexivity].
  symmetry. apply backgroundAt_Some; [assumption| |];
    unfold restored in Ec; destruct Hq; revert Ec; bool_lia.
Qed.

(** X12: [clearRegion] on any rectangle, also one that leaves the buffer or
    the background or has a negative corner, succeeds and writes the
    background pixel at exactly the positions of the rectangle that lie
    in the buffer and in the background; every other pixel keeps its
    value. *)
Theorem clearRegion_clips (dc : DrawContext) (m : image.RGBA)
    (x y w h : Z) :
  validContext dc -> image.wellFormed m ->
  screenCoord x -> screenCoord y -> screenCoord w -> screenCoord h ->
  exists dc',
    clearRegion dc x y w h (Some m) = Some dc' /\ sameFrame dc dc' /\
    forall qx qy, inBuffer dc qx qy ->
      pixelAt dc (pixels dc') qx qy =
        if restored m x y w h qx qy then sourcePixel m qx qy
        else pixelAt dc (pixels dc) qx qy.
Proof. exact (clearRegion_effect dc m x y w h). Qed.

Lemma clearRegion_clips_witness :
  exists dc',
    clearRegion blankContext (- 2) 2 5 20 (Some whiteImage) = Some dc' /\
    pixelAt blankContext (pixels dc') 2 3 = Some white /\
    pixelAt blankContext (pixels dc') 3 3 = Some 0 /\
    pixelAt blankContext (pixels dc') 2 4 = Some 0.
Proof.
  destruct (clearRegion_clips blankContext whiteImage (- 2) 2 5 20)
    as (dc' & E & _ & Hp).
  - unfold validContext. repeat split; vm_compute; congruence.
  - unfold image.wellFormed. repeat split; vm_compute; congruence.
  - unfold screenCoord. lia.
  - unfold screenCoord. lia.
  - unfold screenCoord. lia.
  - unfold screenCoord. lia.
  - exists dc'. split; [assumption|].
    rewrite !Hp by (unfold inBuffer; cbn; lia). repeat split.
Defined.

Lemma minInt_comm (a b : Z) : overlay.minInt a b = overlay.minInt b a.
Proof.
  unfold overlay.minInt.
  destruct (Z.ltb_spec a b), (Z.ltb_spec b a); lia.
Qed.

Lemma maxInt_comm (a b : Z) : overlay.maxInt a b = overlay.maxInt b a.
Proof.
  unfold overlay.maxInt.
  destruct (Z.ltb_spec b a), (Z.ltb_spec a b); lia.
Qed.

(** X13: the frame [DrawOverlay] draws does not depend on the direction of
    the drag: exchanging the start and the end corner of the selection
    gives the same result, whatever the buffer, the background and the
    scale. *)
Theorem DrawOverlay_direction (dc : DrawContext)
    (screenshot : option image.RGBA) (sel : Selection)
    (scaleRatio : spec_float) :
  DrawOverlay dc screenshot (swapCorners sel) scaleRatio =
  DrawOverlay dc screenshot sel scaleRatio.
Proof.
  unfold DrawOverlay, drawInstructions, swapCorners.
  cbn [StartX StartY EndX EndY IsDragging SpaceHeld].
  rewrite (minInt_comm (EndX sel)), (minInt_comm (EndY sel)),
    (maxInt_comm (EndX sel)), (maxInt_comm (EndY sel)).
  reflexivity.
Qed.

(** Every index of the buffer is the position of one pixel. *)
Lemma index_position (dc : DrawContext) (i : nat) :
  validContext dc -> (i < length (pixels dc))%nat ->
  exists qx qy, inBuffer dc qx qy /\ Z.to_nat (qy * width dc + qx) = i.
Proof.
  intros ((Hw & _) & (Hh & _) & _ & Hlen) Hi.
  assert (0 < width dc) by nia.
  exists (Z.of_nat i mod width dc), (Z.of_nat i / width dc).
  split.
  - split; [apply Z.mod_pos_bound; lia|]. split.
    + apply Z.div_pos; lia.
    + apply Z.div_lt_upper_bound; nia.
  - rewrite Z.mul_comm, <- Z.div_mod by lia. lia.
Qed.

(** A background that covers the buffer replaces all of it. *)
Lemma drawScreenshot_overwrites (dc1 dc2 : DrawContext) (m : image.RGBA) :
  validContext dc1 -> validContext dc2 ->
  width dc1 = width dc2 -> height dc1 = height dc2 ->
  image.wellFormed m ->
  width dc1 <= image.Dx (image.Bounds m) ->
  height dc1 <= image.Dy (image.Bounds m) ->
  exists dc',
    drawScreenshot dc1 (Some m) = Some dc' /\
    drawScreenshot dc2 (Some m) = Some dc'.
Proof.
  intros H1 H2 Ew Eh Hm Hw Hh.
  destruct (drawScreenshot_effect dc1 m H1 Hm) as (d1 & E1 & F1 & P1).
  destruct (drawScreenshot_effect dc2 m H2 Hm) as (d2 & E2 & F2 & P2).
  exists d1. split; [assumption|]. rewrite E2. f_equal.
  destruct F1 as (W1 & Hg1 & L1), F2 as (W2 & Hg2 & L2).
  destruct d1 as [p1 w1 h1], d2 as [p2 w2 h2]. cbn in *.
  assert (p2 = p1); [|congruence].
  apply list_eq. intros i.
  destruct (decide (i < length (pixels dc1))%nat) as [Hi|Hi].
  - destruct (index_position dc1 i H1 Hi) as (qx & qy & Hq & <-).
    assert (Hq2 : inBuffer dc2 qx qy)
      by (unfold inBuffer in *; rewrite <- Ew, <- Eh; assumption).
    specialize (P1 qx qy Hq). specialize (P2 qx qy Hq2).
    unfold pixelAt in P1, P2. rewrite <- Ew in P2. rewrite P1, P2.
    unfold covered. rewrite <- Ew, <- Eh.
    replace (_ <? _) with true; [replace (_ <? _) with true; [reflexivity|]|];
      symmetry; apply Z.ltb_lt; unfold inBuffer, overlay.minInt in *;
      repeat match goal with |- context [?a <? ?b] =>
        destruct (Z.ltb_spec a b) end; lia.
  - destruct H1 as (_ & _ & _ & Hl1), H2 as (_ & _ & _ & Hl2).
    rewrite !lookup_ge_None_2; [reflexivity|lia|].
    assert (length p2 = length p1) by nia. lia.
Qed.

(** X14: when the background covers the whole buffer, the frame
    [DrawOverlay] draws does not depend on what the buffer held before:
    two buffers of the same size end up pixel for pixel equal, so nothing
    of an earlier frame (an old selection, the previous darkening) shows
    through. *)
Theorem DrawOverlay_forgets_previous_frame (dc1 dc2 : DrawContext)
    (m : image.RGBA) (sel : Selection) (scaleRatio : spec_float) :
  validContext dc1 -> validContext dc2 ->
  width dc1 = width dc2 -> height dc1 = height dc2 ->
  image.wellFormed m ->
  width dc1 <= image.Dx (image.Bounds m) ->
  height dc1 <= image.Dy (image.Bounds m) ->
  DrawOverlay dc1 (Some m) sel scaleRatio =
  DrawOverlay dc2 (Some m) sel scaleRatio.
Proof.
  intros H1 H2 Ew Eh Hm Hw Hh.
  destruct (drawScreenshot_overwrites dc1 dc2 m H1 H2 Ew Eh Hm Hw Hh)
    as (dc' & E1 & E2).
  unfold DrawOverlay. rewrite E1, E2. reflexivity.
Qed.

Lemma DrawOverlay_forgets_previous_frame_witness :
  DrawOverlay smallContext (Some whiteImage) innerDrag (f64.ofInt 1) =
  DrawOverlay staleContext (Some whiteImage) innerDrag (f64.ofInt 1).
Proof.
  apply DrawOverlay_forgets_previous_frame.
  - unfold validContext. repeat split; vm_compute; congruence.
  - unfold validContext. repeat split; vm_compute; congruence.
  - reflexivity.
  - reflexivity.
  - unfold image.wellFormed. repeat split; vm_compute; congruence.
  - vm_compute. congruence.
  - vm_compute. congruence.
Defined.

(** X15: [fillOverlay] never brightens: for every alpha, each colour
    channel of every pixel of the result is a byte no larger than the
    channel it replaces. *)
Theorem fillOverlay_never_brightens (dc : DrawContext) (alpha : Z) :
  validContext dc -> 0 <= alpha <= 255 ->
  exists dc',
    fillOverlay dc alpha = Some dc' /\
    forall i e e', pixels dc !! i = Some e -> pixels dc' !! i = Some e' ->
      0 <= redOf e' <= redOf e /\
      0 <= greenOf e' <= greenOf e /\
      0 <= blueOf e' <= blueOf e.
Proof.
  intros Hdc Ha. rewrite (fillOverlay_map dc alpha Hdc).
  eexists. split; [reflexivity|]. intros i e e' He He'.
  cbn [pixels setPixels] in He'. rewrite list_lookup_fmap, He in He'.
  injection He' as <-.
  destruct (darkenPixel_channels alpha e) as (_ & -> & -> & ->); [lia|].
  destruct (channel_byte e) as (Hr & Hg & Hb).
  assert (K : forall c, 0 <= c < 256 -> 0 <= darkenChannel alpha c <= c).
  { intros c Hc.
    pose proof (darkenChannel_checked alpha c ltac:(lia) Hc) as H.
    unfold darkenChannelCheck, darkenWithin in H.
    rewrite !andb_true_iff, !Z.leb_le in H. lia. }
  auto.
Qed.

Lemma fillOverlay_never_brightens_witness :
  exists dc',
    fillOverlay whiteDot 128 = Some dc' /\
    forall i e e', pixels whiteDot !! i = Some e ->
      pixels dc' !! i = Some e' ->
      0 <= redOf e' <= redOf e /\
      0 <= greenOf e' <= greenOf e /\
      0 <= blueOf e' <= blueOf e.
Proof.
  apply fillOverlay_never_brightens.
  - unfold validContext. repeat split; vm_compute; congruence.
  - lia.
Defined.

Lemma writes_forEachFrom {A : Type} (dc : DrawContext)
    (Da : Z -> A -> Z -> Z -> bool) (val : Z -> Z -> Z)
    (body : Z -> A -> list Z -> option (list Z)) (l : list A) (i : Z) :
  (forall j a, i <= j < i + Z.of_nat (length l) ->
     writes dc (Da j a) val (body j a)) ->
  writes dc (writtenFrom i l Da) val (forEachFrom i l body).
Proof.
  revert i. induction l as [|a l IH]; intros i Hbody.
  - apply writes_skip.
  - intros px Hlen. cbn [forEachFrom writtenFrom]. cbn [length] in Hbody.
    destruct (Hbody i a ltac:(lia) px Hlen) as (px1 & -> & Hl1 & Hp1).
    destruct (IH (i + 1) ltac:(intros j b Hj; apply Hbody; lia) px1 Hl1)
      as (px2 & E2 & Hl2 & Hp2).
    exists px2. split; [assumption|]. split; [assumption|].
    intros qx qy Hq. rewrite (Hp2 qx qy Hq), (Hp1 qx qy Hq).
    destruct (Da i a qx qy), (writtenFrom (i + 1) l Da qx qy); reflexivity.
Qed.

Lemma writtenFrom_spec {A : Type} (i : Z) (l : list A)
    (Da : Z -> A -> Z -> Z -> bool) (qx qy : Z) :
  writtenFrom i l Da qx qy = true <->
  exists j a, i <= j /\ l !! Z.to_nat (j - i) = Some a /\
              Da j a qx qy = true.
Proof.
  revert i. induction l as [|a l IH]; intros i; cbn [writtenFrom].
  - split; [discriminate|]. intros (j & b & _ & H & _). discriminate.
  - rewrite orb_true_iff, IH. split.
    + intros [H|(j & b & Hj & Hb & H)].
      * exists i, a. replace (i - i) with 0 by lia. auto with zarith.
      * exists j, b. split; [lia|]. split; [|assumption].
        replace (Z.to_nat (j - i)) with (S (Z.to_nat (j - (i + 1))))
          by lia. assumption.
    + intros (j & b & Hj & Hb & H).
      destruct (Z.eq_dec j i) as [->|Hne].
      * replace (i - i) with 0 in Hb by lia. cbn in Hb.
        injection Hb as <-. auto.
      * right. exists j, b. split; [lia|]. split; [|assumption].
        replace (Z.to_nat (j - i)) with (S (Z.to_nat (j - (i + 1))))
          in Hb by lia. assumption.
Qed.

(** The test [bits & (1 << k) != 0] reads bit [k]. *)
Lemma land_bit (bits k : Z) :
  0 <= k ->
  negb (Z.land bits (Z.shiftl 1 k) =? 0) = Z.testbit bits k.
Proof.
  intros Hk. rewrite Z.shiftl_1_l.
  destruct (Z.testbit bits k) eqn:E.
  - destruct (Z.eqb_spec (Z.land bits (2 ^ k)) 0) as [H0|]; [|reflexivity].
    assert (T : Z.testbit (Z.land bits (2 ^ k)) k = true)
      by (rewrite Z.land_spec, E, Z.pow2_bits_true by lia; reflexivity).
    rewrite H0, Z.bits_0 in T. discriminate.
  - replace (Z.land bits (2 ^ k)) with 0; [reflexivity|].
    symmetry. apply Z.bits_inj'. intros n Hn.
    rewrite Z.land_spec, Z.bits_0, Z.pow2_bits_eqb by lia.
    destruct (Z.eqb_spec k n) as [->|]; [rewrite E|];
      auto using andb_false_r.
Qed.

(** Later characters light nothing to the left of their cursor. *)
Lemma runesAt_left (font : list (ascii * list Z)) (l : list ascii)
    (x y qx qy : Z) :
  qx < x -> runesAt font l x y qx qy = false.
Proof.
  revert x. induction l as [|ch l IH]; intros x Hx; [reflexivity|].
  cbn [runesAt]. rewrite IH by lia. rewrite orb_false_r.
  unfold runeAt. destruct (glyphOf font ch) as [g|]; [|reflexivity].
  unfold glyphBit. destruct (g !! _); [|reflexivity].
  destruct (Z.leb_spec 0 (qx - x)); [lia|reflexivity].
Qed.

Lemma glyphOf_narrow (font : list (ascii * list Z)) (ch : ascii)
    (g : list Z) :
  narrow font = true -> glyphOf font ch = Some g -> (length g <= 6)%nat.
Proof.
  unfold narrow. induction font as [|[k g'] font IH]; [discriminate|].
  cbn [forallb glyphOf snd]. rewrite andb_true_iff.
  intros [Hk Hrest]. destruct (Ascii.eqb k ch).
  - intros [= <-]. apply Nat.leb_le. assumption.
  - apply IH. assumption.
Qed.

(** In a narrow font the characters do not overlap, and the character
    lit at a position is found from the column. *)
Lemma runesAt_textPixel (font : list (ascii * list Z)) (text : string)
    (x y qx qy : Z) :
  narrow font = true ->
  runesAt font (list_ascii_of_string text) x y qx qy =
  textPixel font text x y qx qy.
Proof.
  intros Hn. unfold textPixel.
  generalize (list_ascii_of_string text) as l. intros l. revert x.
  induction l as [|ch l IH]; intros x.
  - cbn. now rewrite andb_false_r.
  - cbn [runesAt]. destruct (Z.leb_spec x qx) as [Hx|Hx]; cbn [andb].
    2: { rewrite runesAt_left by lia. rewrite orb_false_r.
         unfold runeAt. destruct (glyphOf font ch) as [g|]; [|reflexivity].
         unfold glyphBit. destruct (g !! _); [|reflexivity].
         destruct (Z.leb_spec 0 (qx - x)); [lia|reflexivity]. }
    destruct (Z_lt_ge_dec qx (x + 6)) as [Hlt|Hge].
    + rewrite runesAt_left by lia. rewrite orb_false_r.
      replace ((qx - x) / 6) with 0
        by (symmetry; apply Z.div_small; lia).
      cbn. now rewrite Z.add_0_r.
    + replace (runeAt font ch x y qx qy) with false.
      2: { unfold runeAt.
           destruct (glyphOf font ch) as [g|] eqn:Eg; [|reflexivity].
           pose proof (glyphOf_narrow font ch g Hn Eg).
           unfold glyphBit. rewrite lookup_ge_None_2 by lia.
           reflexivity. }
      cbn [orb]. rewrite IH.
      destruct (Z.leb_spec (x + 6) qx); [|lia]. cbn [andb].
      assert (Ek : (qx - x) / 6 = (qx - (x + 6)) / 6 + 1).
      { replace (qx - x) with (qx - (x + 6) + 1 * 6) by lia.
        now rewrite Z.div_add by lia. }
      assert (0 <= (qx - (x + 6)) / 6) by (apply Z.div_pos; lia).
      rewrite Ek.
      replace (Z.to_nat ((qx - (x + 6)) / 6 + 1))
        with (S (Z.to_nat ((qx - (x + 6)) / 6))) by lia.
      cbn [lookup list_lookup].
      replace (x + 6 * ((qx - (x + 6)) / 6 + 1))
        with (x + 6 + 6 * ((qx - (x + 6)) / 6)) by lia.
      reflexivity.
Qed.

(** One glyph. *)
Lemma drawGlyph_writes (dc : DrawContext) (curX y : Z) (glyph : list Z) :
  validContext dc ->
  GoInt.minInt <= curX <= GoInt.maxInt - 6 ->
  GoInt.minInt <= y <= GoInt.maxInt - 6 ->
  (length glyph <= 6)%nat ->
  writes dc (fun qx qy => glyphBit glyph (qx - curX) (qy - y))
    (fun _ _ => white)
    (drawGlyph dc (width dc * height dc) curX y glyph).
Proof.
  intros Hdc Hx Hy Hg. unfold drawGlyph.
  eapply writes_ext;
    [| |apply (writes_forEachFrom dc
                 (fun col bits qx qy =>
                    (qx =? curX + col) && (0 <=? qy - y) &&
                    (qy - y <? 7) && Z.testbit bits (6 - (qy - y))))].
  - intros qx qy _. apply eq_true_iff_eq. rewrite writtenFrom_spec.
    unfold glyphBit. split.
    + intros (col & bits & Hc & Hb & H). rewrite Z.sub_0_r in Hb.
      rewrite !andb_true_iff in H. destruct H as (((H1 & H2) & H3) & H4).
      apply Z.eqb_eq in H1. replace (qx - curX) with col by lia.
      rewrite Hb, H2, H3, H4. destruct (Z.leb_spec 0 col); [reflexivity|lia].
    + destruct (glyph !! Z.to_nat (qx - curX)) as [bits|] eqn:Eb;
        [|discriminate].
      rewrite !andb_true_iff. intros (((H1 & H2) & H3) & H4).
      apply Z.leb_le in H1.
      exists (qx - curX), bits. split; [lia|].
      rewrite Z.sub_0_r. split; [assumption|].
      rewrite H2, H3, H4.
      destruct (Z.eqb_spec qx (curX + (qx - curX))); [reflexivity|lia].
  - reflexivity.
  - intros col bits Hcol.
    apply (writes_forLoop dc _
             (fun row qx qy =>
                (qx =? curX + col) && (qy =? y + row) &&
                Z.testbit bits (6 - row))).
    + intros row Hrow. rewrite land_bit by lia.
      destruct (Z.testbit bits (6 - row)).
      * nowrap.
        apply (writes_ext dc
                 (fun qx qy => (qx =? curX + col) && (qy =? y + row)) _
                 (fun _ _ => white) (fun _ _ => white)).
        -- intros qx qy _. now rewrite andb_true_r.
        -- reflexivity.
        -- apply writes_plot; [assumption|reflexivity].
      * apply writes_nothing. intros qx qy _. now rewrite andb_false_r.
    + intros qx qy _. split.
      * rewrite !andb_true_iff. intros (((H1 & H2) & H3) & H4).
        exists (qy - y). rewrite H1, H4.
        apply Z.leb_le in H2. apply Z.ltb_lt in H3.
        split; [lia|].
        destruct (Z.eqb_spec qy (y + (qy - y))); [reflexivity|lia].
      * intros (row & Hrow & H). rewrite !andb_true_iff in H.
        destruct H as ((H1 & H2) & H3). apply Z.eqb_eq in H2.
        replace (qy - y) with row by lia. rewrite H1, H3.
        destruct (Z.leb_spec 0 row); [|lia].
        destruct (Z.ltb_spec row 7); [reflexivity|lia].
Qed.

Lemma runes_write (font : list (ascii * list Z)) (dc : DrawContext)
    (y : Z) (l : list ascii) (x : Z) :
  validContext dc -> narrow font = true ->
  GoInt.minInt <= y <= GoInt.maxInt - 6 ->
  GoInt.minInt <= x -> x + 6 * Z.of_nat (length l) <= GoInt.maxInt ->
  writes dc (runesAt font l x y) (fun _ _ => white)
    (fun px =>
       snd <$> forEach l (fun ch st =>
         let '(curX, px) := st in
         match glyphOf font ch with
         | None => Some (curX +i 6, px)
         | Some glyph =>
             px ← drawGlyph dc (width dc * height dc) curX y glyph px;
             Some (curX +i 6, px)
         end) (x, px)).
Proof.
  intros Hdc Hn Hy. unfold GoInt.minInt, GoInt.maxInt in *. revert x.
  induction l as [|ch l IH]; intros x Hlo Hhi px Hlen.
  - exists px. cbn. auto.
  - cbn [forEach runesAt]. cbn [length] in Hhi.
    assert (E6 : x +i 6 = x + 6)
      by (apply addi_small; unfold GoInt.minInt, GoInt.maxInt; lia).
    assert (Hcur : GoInt.minInt <= x <= GoInt.maxInt - 6)
      by (unfold GoInt.minInt, GoInt.maxInt; lia).
    unfold runeAt at 1.
    destruct (glyphOf font ch) as [g|] eqn:Eg.
    + pose proof (glyphOf_narrow font ch g Hn Eg) as Hg.
      destruct (drawGlyph_writes dc x y g Hdc Hcur Hy Hg px Hlen)
        as (px1 & -> & Hl1 & Hp1). cbn [mbind option_bind]. rewrite E6.
      destruct (IH (x + 6) ltac:(lia) ltac:(lia) px1 Hl1)
        as (px2 & E2 & Hl2 & Hp2).
      exists px2. split; [assumption|]. split; [assumption|].
      intros qx qy Hq. rewrite (Hp2 qx qy Hq), (Hp1 qx qy Hq).
      destruct (glyphBit g (qx - x) (qy - y)),
        (runesAt font l (x + 6) y qx qy); reflexivity.
    + rewrite E6.
      destruct (IH (x + 6) ltac:(lia) ltac:(lia) px Hlen)
        as (px2 & E2 & Hl2 & Hp2).
      exists px2. split; [assumption|]. split; [assumption|].
      intros qx qy Hq. rewrite (Hp2 qx qy Hq). reflexivity.
Qed.

Lemma length_list_ascii (text : string) :
  Z.of_nat (length (list_ascii_of_string text)) = len text.
Proof.
  unfold len. f_equal. induction text as [|c t IH]; cbn; congruence.
Qed.

(** The text loop lights exactly the set bits of the glyphs. *)
Lemma drawRunes_writes (font : list (ascii * list Z)) (dc : DrawContext)
    (x y : Z) (text : string) :
  validContext dc -> narrow font = true ->
  GoInt.minInt <= x -> x + 6 * len text <= GoInt.maxInt ->
  GoInt.minInt <= y <= GoInt.maxInt - 6 ->
  writes dc (textPixel font text x y) (fun _ _ => white)
    (drawRunes font dc (width dc * height dc) x y text).
Proof.
  intros Hdc Hn Hx Hl Hy.
  apply (writes_ext dc (runesAt font (list_ascii_of_string text) x y) _
           (fun _ _ => white) (fun _ _ => white)).
  - intros qx qy _. apply runesAt_textPixel. assumption.
  - reflexivity.
  - apply runes_write; try assumption; try lia.
    rewrite length_list_ascii. lia.
Qed.

(** Two effects one after the other: the later one wins where both
    write. *)
Lemma writes_then (dc : DrawContext) (D1 D2 : Z -> Z -> bool)
    (v1 v2 : Z -> Z -> Z) (f g : list Z -> option (list Z)) :
  writes dc D1 v1 f -> writes dc D2 v2 g ->
  writes dc (fun qx qy => D2 qx qy || D1 qx qy)
    (fun qx qy => if D2 qx qy then v2 qx qy else v1 qx qy)
    (fun px => px ← f px; g px).
Proof.
  intros Hf Hg px Hlen. destruct (Hf px Hlen) as (px1 & -> & Hl1 & Hp1).
  destruct (Hg px1 Hl1) as (px2 & E2 & Hl2 & Hp2). cbn.
  exists px2. split; [assumption|]. split; [assumption|].
  intros qx qy Hq. rewrite (Hp2 qx qy Hq), (Hp1 qx qy Hq).
  destruct (D2 qx qy), (D1 qx qy); reflexivity.
Qed.

(** X16: for an ASCII text, [drawText] sets to white exactly the lit bits
    of the glyphs of the text and touches no other pixel: character [k]
    stands at column [x + 6 k], its glyph column [col] at
    [x + 6 k + col], and row [row] of that column at [y + row] is lit
    when bit [6 - row] of the column byte is set.  A character without a
    glyph in the font draws nothing and still moves the cursor by 6.
    This holds whenever the cursor and the rows do not leave the range
    of [int]. *)
Theorem drawText_pixels (dc : DrawContext) (x y : Z) (text : string)
    (px : list Z) :
  validContext dc ->
  isASCII text = true ->
  GoInt.minInt <= x -> x + 6 * len text <= GoInt.maxInt ->
  GoInt.minInt <= y <= GoInt.maxInt - 6 ->
  Z.of_nat (length px) = width dc * height dc ->
  exists px',
    drawText dc (width dc * height dc) x y text px = Some px' /\
    Z.of_nat (length px') = width dc * height dc /\
    forall qx qy, inBuffer dc qx qy ->
      pixelAt dc px' qx qy =
        if textPixel sizeFont text x y qx qy then Some white
        else pixelAt dc px qx qy.
Proof.
  intros Hdc _ Hx Hl Hy Hlen.
  exact (drawRunes_writes sizeFont dc x y text Hdc eq_refl Hx Hl Hy
           px Hlen).
Qed.

Lemma drawText_pixels_witness :
  exists px',
    drawText blankContext 144 2 3 "1-1" (pixels blankContext) = Some px' /\
    pixelAt blankContext px' 4 3 = Some white /\
    pixelAt blankContext px' 10 4 = Some 0 /\
    pixelAt blankContext px' 3 4 = Some white.
Proof.
  destruct (drawText_pixels blankContext 2 3 "1-1" (pixels blankContext))
    as (px' & E & _ & Hp).
  - unfold validContext. repeat split; vm_compute; congruence.
  - reflexivity.
  - vm_compute. congruence.
  - vm_compute. congruence.
  - vm_compute. split; congruence.
  - reflexivity.
  - exists px'. split; [exact E|].
    rewrite !Hp by (unfold inBuffer; cbn; lia). repeat split.
Defined.

(** A pill and the text on it. *)
Lemma pill_text_writes (font : list (ascii * list Z)) (dc : DrawContext)
    (pillX pillY pillWidth pillHeight color tx ty : Z) (text : string) :
  validContext dc -> narrow font = true ->
  - 2 ^ 62 <= pillX <= 2 ^ 62 -> - 2 ^ 62 <= pillY <= 2 ^ 62 ->
  pillWidth <= 2 ^ 62 -> pillHeight <= 2 ^ 62 ->
  GoInt.minInt <= tx -> tx + 6 * len text <= GoInt.maxInt ->
  GoInt.minInt <= ty <= GoInt.maxInt - 6 ->
  writes dc
    (fun qx qy => textPixel font text tx ty qx qy ||
                  inRect pillX pillY pillWidth pillHeight qx qy)
    (fun qx qy => if textPixel font text tx ty qx qy then white else color)
    (fun px =>
       px ← fillPill dc (width dc * height dc) pillX pillY pillWidth
              pillHeight color px;
       drawRunes font dc (width dc * height dc) tx ty text px).
Proof.
  intros Hdc Hn Hx Hy Hw Hh Htx Hl Hty.
  apply (writes_then dc (inRect pillX pillY pillWidth pillHeight)
           (textPixel font text tx ty) (fun _ _ => color)
           (fun _ _ => white)).
  - apply writes_rectangle; assumption.
  - apply drawRunes_writes; assumption.
Qed.

Lemma quot2_bound (a : Z) : - Z.abs a <= 2 * Z.quot a 2 <= Z.abs a.
Proof.
  pose proof (Z.quot_rem' a 2) as E.
  destruct (Z_lt_ge_dec a 0) as [Hn|Hp].
  - pose proof (Z.rem_nonpos a 2 ltac:(lia) ltac:(lia)).
    pose proof (Z.rem_bound_abs a 2 ltac:(lia)). lia.
  - assert (0 <= Z.rem a 2 < 2) by (apply Z.rem_bound_pos; lia). lia.
Qed.

Lemma instructionsText_len (sel : Selection) :
  0 <= len (instructionsText sel) <= 41.
Proof.
  unfold instructionsText.
  destruct (IsDragging sel && SpaceHeld sel); vm_compute;
    split; congruence.
Qed.

(** The exact effect of [drawInstructions]. *)
Lemma drawInstructions_effect (dc : DrawContext) (sel : Selection) :
  validContext dc ->
  let text := instructionsText sel in
  let pillWidth := 7 * len text + 20 in
  let pillX := Z.quot (width dc - pillWidth) 2 in
  exists dc',
    drawInstructions dc sel = Some dc' /\ sameFrame dc dc' /\
    forall qx qy, inBuffer dc qx qy ->
      pixelAt dc (pixels dc') qx qy =
        if textPixel instructionFont text (pillX + 10) 22 qx qy
        then Some white
        else if inRect pillX 16 pillWidth 24 qx qy
        then Some (pack 220 0 0 0)
        else pixelAt dc (pixels dc) qx qy.
Proof.
  intros Hdc text pillWidth pillX.
  pose proof (instructionsText_len sel) as Hl. fold text in Hl.
  pose proof Hdc as ((Hw0 & Hw1) & _).
  pose proof (quot2_bound (width dc - pillWidth)) as Hq. fold pillX in Hq.
  unfold drawInstructions. rewrite (unsafeSlice_valid dc Hdc).
  cbn [mbind option_bind]. cbv zeta. fold (instructionsText sel).
  fold text.
  assert (E1 : len text *i 7 +i 20 = pillWidth).
  { unfold pillWidth. unfold GoInt.maxInt in *. nowrap. lia. }
  rewrite E1.
  assert (E2 : width dc -i pillWidth = width dc - pillWidth).
  { unfold pillWidth in *. unfold GoInt.maxInt in *. nowrap. lia. }
  rewrite E2. fold pillX.
  assert (E3 : pillX +i 10 = pillX + 10).
  { unfold pillWidth in *. unfold GoInt.maxInt in *. nowrap. lia. }
  rewrite E3. change (16 +i 6) with 22.
  unfold pillWidth in Hq. unfold GoInt.maxInt in *.
  destruct (writes_frame dc _ _ _ Hdc
              (pill_text_writes instructionFont dc pillX 16 pillWidth 24
                 (pack 220 0 0 0) (pillX + 10) 22 text Hdc eq_refl
                 ltac:(lia) ltac:(lia) ltac:(unfold pillWidth; lia)
                 ltac:(lia) ltac:(unfold GoInt.minInt; lia)
                 ltac:(unfold GoInt.maxInt; lia)
                 ltac:(unfold GoInt.minInt, GoInt.maxInt; lia)))
    as (dc' & E & F & Hp).
  exists dc'. split.
  { rewrite <- E. unfold drawInstructionText.
    destruct (fillPill _ _ _ _ _ _ _ _); reflexivity. }
  split; [assumption|].
  intros qx qy Hqb. rewrite (Hp qx qy Hqb).
  destruct (textPixel instructionFont text (pillX + 10) 22 qx qy);
    reflexivity.
Qed.

(** X17: [drawInstructions] draws a pill of height 24 at row 16, of width
    [7 * len(text) + 20] and centered with the truncating division of Go,
    in the colour [220 << 24] (black with alpha 220, stored as it is and
    not blended), and on it the instruction text in white from 10
    columns in and 6 rows down; the part outside the buffer is clipped
    and every other pixel keeps its value. *)
Theorem drawInstructions_banner (dc : DrawContext) (sel : Selection) :
  validContext dc ->
  let text := instructionsText sel in
  let pillWidth := 7 * len text + 20 in
  let pillX := Z.quot (width dc - pillWidth) 2 in
  exists dc',
    drawInstructions dc sel = Some dc' /\ sameFrame dc dc' /\
    forall qx qy, inBuffer dc qx qy ->
      pixelAt dc (pixels dc') qx qy =
        if textPixel instructionFont text (pillX + 10) 22 qx qy
        then Some white
        else if inRect pillX 16 pillWidth 24 qx qy
        then Some (pack 220 0 0 0)
        else pixelAt dc (pixels dc) qx qy.
Proof. exact (drawInstructions_effect dc sel). Qed.

Lemma drawInstructions_banner_witness :
  exists dc',
    drawInstructions bannerContext idle = Some dc' /\
    pixelAt bannerContext (pixels dc') 0 24 = Some white /\
    pixelAt bannerContext (pixels dc') 0 16 = Some (pack 220 0 0 0) /\
    pixelAt bannerContext (pixels dc') 0 15 = Some 0.
Proof.
  destruct (drawInstructions_banner bannerContext idle)
    as (dc' & E & _ & Hp).
  - unfold validContext. repeat split; vm_compute; congruence.
  - exists dc'. split; [exact E|].
    rewrite !Hp by (unfold inBuffer; cbn; lia).
    repeat split; vm_compute; reflexivity.
Defined.

Lemma length_append (s t : string) :
  String.length (s ++ t) = (String.length s + String.length t)%nat.
Proof.
  induction s as [|c s IH]; [reflexivity|].
  change (String c s ++ t)%string with (String c (s ++ t)).
  cbn [String.length Nat.add]. now rewrite IH.
Qed.

(** A number below [10 ^ k] has at most [k] digits. *)
Lemma pretty_N_go_length (k : nat) (x : N) (s : string) :
  (x < 10 ^ N.of_nat k)%N ->
  (String.length s <= String.length (pretty_N_go x s)
     <= String.length s + k)%nat.
Proof.
  revert x s. induction k as [|k IH]; intros x s Hx.
  - replace x with 0%N by (cbn in Hx; lia). rewrite pretty_N_go_0. lia.
  - destruct (N.eq_dec x 0%N) as [->|Hne].
    + rewrite pretty_N_go_0. lia.
    + rewrite pretty_N_go_step by lia.
      destruct (IH (x `div` 10)%N
                  (String (pretty_N_char (x `mod` 10)) s)) as [Hlo Hhi].
      * apply N.Div0.div_lt_upper_bound.
        rewrite Nat2N.inj_succ, N.pow_succ_r' in Hx. lia.
      * cbn [String.length] in Hlo, Hhi. lia.
Qed.

(** A formatted [int] has at most 20 characters. *)
Lemma pretty_int_length (z : Z) :
  GoInt.minInt <= z <= GoInt.maxInt -> 1 <= len (pretty z) <= 20.
Proof.
  unfold GoInt.minInt, GoInt.maxInt, len. intros Hz.
  assert (K : forall p : positive, (N.pos p <= 2 ^ 63)%N ->
            (1 <= String.length (pretty (N.pos p)) <= 19)%nat).
  { intros p Hp. unfold pretty, pretty_N.
    destruct (decide (N.pos p = 0%N)) as [|_]; [discriminate|].
    split.
    - rewrite pretty_N_go_step by lia.
      match goal with |- context [pretty_N_go ?x ?s] =>
        destruct (pretty_N_go_length 19 x s) as [Hlo _] end.
      + apply N.Div0.div_lt_upper_bound. cbn. lia.
      + cbn [String.length] in Hlo. lia.
    - apply (pretty_N_go_length 19 (N.pos p) ""). cbn. lia. }
  destruct z as [|p|p].
  - cbn. lia.
  - change (pretty (Z.pos p)) with (pretty (N.pos p)).
    specialize (K p ltac:(lia)). lia.
  - change (pretty (Z.neg p)) with ("-" +:+ pretty (N.pos p))%string.
    specialize (K p ltac:(lia)).
    change (String.length ("-" +:+ pretty (N.pos p)))
      with (S (String.length (pretty (N.pos p)))). lia.
Qed.

Lemma sizeText_len (w h : Z) :
  GoInt.minInt <= w <= GoInt.maxInt -> GoInt.minInt <= h <= GoInt.maxInt ->
  5 <= len (sizeText w h) <= 43.
Proof.
  intros Hw Hh. pose proof (pretty_int_length w Hw).
  pose proof (pretty_int_length h Hh).
  unfold sizeText, len in *. rewrite !length_append.
  change (String.length " x ") with 3%nat. lia.
Qed.

(** The exact effect of [drawSizeIndicator]. *)
Lemma drawSizeIndicator_effect (dc : DrawContext) (x y w h : Z) :
  validContext dc -> screenCoord x -> screenCoord y ->
  GoInt.minInt <= w <= GoInt.maxInt -> GoInt.minInt <= h <= GoInt.maxInt ->
  let text := sizeText w h in
  let pillWidth := 7 * len text + 16 in
  let pillY := if height dc <=? y + 20 then y - 28 else y in
  let pillX :=
    if width dc <=? x + pillWidth then width dc - pillWidth - 4 else x in
  let pillX := if pillX <? 0 then 4 else pillX in
  exists dc',
    drawSizeIndicator dc x y w h = Some dc' /\ sameFrame dc dc' /\
    forall qx qy, inBuffer dc qx qy ->
      pixelAt dc (pixels dc') qx qy =
        if textPixel sizeFont text (pillX + 8) (pillY + 4) qx qy
        then Some white
        else if inRect pillX pillY pillWidth 20 qx qy
        then Some blue
        else pixelAt dc (pixels dc) qx qy.
Proof.
  intros Hdc Hx Hy Hw Hh text pillWidth pillY pillX0 pillX.
  pose proof (sizeText_len w h Hw Hh) as Hl. fold text in Hl.
  pose proof Hdc as ((Hw0 & Hw1) & (Hh0 & Hh1) & _).
  unfold screenCoord in Hx, Hy. unfold GoInt.maxInt in Hw1, Hh1.
  unfold drawSizeIndicator. rewrite (unsafeSlice_valid dc Hdc).
  cbn [mbind option_bind]. cbv zeta. fold (sizeText w h). fold text.
  assert (E1 : len text *i 7 +i 16 = pillWidth)
    by (unfold pillWidth; nowrap; lia).
  rewrite E1.
  assert (E2 : y +i 20 = y + 20) by (nowrap; lia).
  assert (E3 : y -i 20 -i 8 = y - 28) by (nowrap; lia).
  rewrite E2, E3. fold pillY.
  assert (E4 : x +i pillWidth = x + pillWidth)
    by (unfold pillWidth; nowrap; lia).
  assert (E5 : width dc -i pillWidth -i 4 = width dc - pillWidth - 4)
    by (unfold pillWidth; nowrap; lia).
  rewrite E4, E5. fold pillX0. fold pillX.
  assert (HY : - 2 ^ 32 <= pillY <= 2 ^ 32)
    by (unfold pillY; destruct (height dc <=? y + 20); lia).
  assert (HX : 0 <= pillX <= 2 ^ 62).
  { unfold pillX, pillX0, pillWidth.
    destruct (Z.leb_spec (width dc) (x + (7 * len text + 16)));
      match goal with |- context [?a <? 0] =>
        destruct (Z.ltb_spec a 0) end; lia. }
  assert (E6 : pillX +i 8 = pillX + 8) by (nowrap; lia).
  assert (E7 : pillY +i 4 = pillY + 4) by (nowrap; lia).
  rewrite E6, E7.
  destruct (writes_frame dc _ _ _ Hdc
              (pill_text_writes sizeFont dc pillX pillY pillWidth 20
                 blue (pillX + 8) (pillY + 4) text Hdc eq_refl
                 ltac:(lia) ltac:(lia) ltac:(unfold pillWidth; lia)
                 ltac:(lia) ltac:(unfold GoInt.minInt; lia)
                 ltac:(unfold GoInt.maxInt; lia)
                 ltac:(unfold GoInt.minInt, GoInt.maxInt; lia)))
    as (dc' & E & F & Hp).
  exists dc'. split.
  { rewrite <- E. unfold drawText.
    destruct (fillPill _ _ _ _ _ _ _ _); reflexivity. }
  split; [assumption|].
  intros qx qy Hqb. rewrite (Hp qx qy Hqb).
  destruct (textPixel sizeFont text (pillX + 8) (pillY + 4) qx qy);
    reflexivity.
Qed.

(** X18: [drawSizeIndicator] draws a blue pill of height 20 and width
    [7 * len(text) + 16] for the text of the two numbers, and the text on
    it in white from 8 columns in and 4 rows down.  The pill stands at
    [(x, y)], unless its lower edge would reach the bottom of the buffer
    (then 28 rows higher) or its right edge the right border (then 4
    columns inside of it), and at column 4 if that is left of the
    buffer; what is outside the buffer is clipped, and every other pixel
    keeps its value. *)
Theorem drawSizeIndicator_pill (dc : DrawContext) (x y w h : Z) :
  validContext dc -> screenCoord x -> screenCoord y ->
  GoInt.minInt <= w <= GoInt.maxInt -> GoInt.minInt <= h <= GoInt.maxInt ->
  let text := sizeText w h in
  let pillWidth := 7 * len text + 16 in
  let pillY := if height dc <=? y + 20 then y - 28 else y in
  let pillX :=
    if width dc <=? x + pillWidth then width dc - pillWidth - 4 else x in
  let pillX := if pillX <? 0 then 4 else pillX in
  exists dc',
    drawSizeIndicator dc x y w h = Some dc' /\ sameFrame dc dc' /\
    forall qx qy, inBuffer dc qx qy ->
      pixelAt dc (pixels dc') qx qy =
        if textPixel sizeFont text (pillX + 8) (pillY + 4) qx qy
        then Some white
        else if inRect pillX pillY pillWidth 20 qx qy
        then Some blue
        else pixelAt dc (pixels dc) qx qy.
Proof. exact (drawSizeIndicator_effect dc x y w h). Qed.

Lemma drawSizeIndicator_pill_witness :
  exists dc',
    drawSizeIndicator bannerContext 2 2 5 7 = Some dc' /\
    pixelAt bannerContext (pixels dc') 10 6 = Some white /\
    pixelAt bannerContext (pixels dc') 2 2 = Some blue /\
    pixelAt bannerContext (pixels dc') 1 2 = Some 0.
Proof.
  destruct (drawSizeIndicator_pill bannerContext 2 2 5 7)
    as (dc' & E & _ & Hp).
  - unfold validContext. repeat split; vm_compute; congruence.
  - unfold screenCoord. lia.
  - unfold screenCoord. lia.
  - vm_compute. split; congruence.
  - vm_compute. split; congruence.
  - exists dc'. split; [exact E|].
    rewrite !Hp by (unfold inBuffer; cbn; lia).
    repeat split; vm_compute; reflexivity.
Defined.

Lemma frameEffect_bind (dc : DrawContext)
    (F G : option Z -> Z -> Z -> option Z)
    (f g : DrawContext -> option DrawContext) :
  frameEffect dc F f -> frameEffect dc G g ->
  frameEffect dc (fun old qx qy => G (F old qx qy) qx qy)
    (fun d => d ← f d; g d).
Proof.
  intros Hf Hg d Hd. destruct (Hf d Hd) as (d1 & -> & F1 & P1).
  destruct (Hg d1 F1) as (d2 & E2 & F2 & P2). cbn.
  exists d2. split; [assumption|]. split; [assumption|].
  intros qx qy Hq. rewrite (P2 qx qy Hq), (P1 qx qy Hq). reflexivity.
Qed.

Lemma frameEffect_id (dc : DrawContext) :
  frameEffect dc (fun old _ _ => old) Some.
Proof. intros d Hd. exists d. auto. Qed.

Lemma frameEffect_ext (dc : DrawContext)
    (F G : option Z -> Z -> Z -> option Z)
    (f : DrawContext -> option DrawContext) :
  (forall old qx qy, inBuffer dc qx qy -> F old qx qy = G old qx qy) ->
  frameEffect dc F f -> frameEffect dc G f.
Proof.
  intros E Hf d Hd. destruct (Hf d Hd) as (d1 & E1 & F1 & P1).
  exists d1. split; [assumption|]. split; [assumption|].
  intros qx qy Hq. rewrite (P1 qx qy Hq). apply E. assumption.
Qed.

(** An effect proved for every valid context holds on the frame. *)
Lemma frameEffect_intro (dc : DrawContext)
    (F : DrawContext -> option Z -> Z -> Z -> option Z)
    (f : DrawContext -> option DrawContext) :
  validContext dc ->
  (forall p, F (setPixels dc p) = F dc) ->
  (forall d, validContext d ->
     exists d', f d = Some d' /\ sameFrame d d' /\
       forall qx qy, inBuffer d qx qy ->
         pixelAt d (pixels d') qx qy =
           F d (pixelAt d (pixels d) qx qy) qx qy) ->
  frameEffect dc (F dc) f.
Proof.
  intros Hdc HF H d Hd.
  pose proof (sameFrame_valid dc d Hdc Hd) as Hv.
  destruct d as [p w h]. destruct Hd as (Ew & Eh & El).
  cbn in Ew, Eh, El. subst w h.
  destruct (H _ Hv) as (d' & E & Fr & Hp).
  exists d'. split; [exact E|]. split.
  - destruct Fr as (Ew' & Eh' & El'). cbn in *. repeat split; congruence.
  - intros qx qy Hq. specialize (Hp qx qy Hq). cbn [pixels] in Hp.
    rewrite <- (HF p). exact Hp.
Qed.

Lemma toInt_range (x : spec_float) :
  GoInt.minInt <= f64.toInt x <= GoInt.maxInt.
Proof.
  unfold f64.toInt. destruct (f64.trunc x) as [v|].
  - destruct (Z.leb_spec GoInt.minInt v); cbn [andb];
      [|vm_compute; split; congruence].
    destruct (Z.leb_spec v GoInt.maxInt); [lia|].
    vm_compute; split; congruence.
  - vm_compute; split; congruence.
Qed.

Lemma fillOverlay_effect (dc : DrawContext) (alpha : Z) :
  validContext dc ->
  exists dc',
    fillOverlay dc alpha = Some dc' /\ sameFrame dc dc' /\
    forall qx qy, inBuffer dc qx qy ->
      pixelAt dc (pixels dc') qx qy =
        darkenPixel alpha <$> pixelAt dc (pixels dc) qx qy.
Proof.
  intros Hdc. rewrite (fillOverlay_map dc alpha Hdc).
  eexists. split; [reflexivity|]. split.
  - unfold sameFrame, setPixels; cbn. now rewrite length_map.
  - intros qx qy _. unfold pixelAt. cbn [pixels setPixels].
    apply list_lookup_fmap.
Qed.

(** The frame of [DrawOverlay] on every context of the frame. *)
Lemma DrawOverlay_effect (dc : DrawContext)
    (screenshot : option image.RGBA) (sel : Selection)
    (scaleRatio : spec_float) :
  validContext dc -> wellFormedBackground screenshot -> onScreen sel ->
  frameEffect dc (overlayPixel dc screenshot sel scaleRatio)
    (fun d => DrawOverlay d screenshot sel scaleRatio).
Proof.
  intros Hdc Hm (HSX & HSY & HEX & HEY).
  set (x1 := overlay.minInt (StartX sel) (EndX sel)).
  set (y1 := overlay.minInt (StartY sel) (EndY sel)).
  set (x2 := overlay.maxInt (StartX sel) (EndX sel)).
  set (y2 := overlay.maxInt (StartY sel) (EndY sel)).
  assert (Hx1 : - 2 ^ 30 <= x1 <= 2 ^ 30)
    by (unfold x1, overlay.minInt; destruct (_ <? _); lia).
  assert (Hy1 : - 2 ^ 30 <= y1 <= 2 ^ 30)
    by (unfold y1, overlay.minInt; destruct (_ <? _); lia).
  assert (Hx2 : - 2 ^ 30 <= x2 <= 2 ^ 30)
    by (unfold x2, overlay.maxInt; destruct (_ <? _); lia).
  assert (Hy2 : - 2 ^ 30 <= y2 <= 2 ^ 30)
    by (unfold y2, overlay.maxInt; destruct (_ <? _); lia).
  assert (Ew : x2 -i x1 = x2 - x1) by (nowrap; reflexivity).
  assert (Eh : y2 -i y1 = y2 - y1) by (nowrap; reflexivity).
  assert (Ey : y2 +i 8 = y2 + 8) by (nowrap; reflexivity).
  unfold DrawOverlay. cbv zeta.
  fold x1 y1 x2 y2. rewrite Ew, Eh, Ey.
  set (w := x2 - x1). set (h := y2 - y1).
  set (sw := f64.toInt (f64.mul (f64.ofInt w) scaleRatio)).
  set (sh := f64.toInt (f64.mul (f64.ofInt h) scaleRatio)).
  (* the routines one by one *)
  assert (S1 : frameEffect dc (backgroundPixel dc screenshot)
            (fun d => drawScreenshot d screenshot)).
  { destruct screenshot as [m|]; [|apply frameEffect_id].
    apply (frameEffect_intro dc
             (fun d old qx qy =>
                if covered d m qx qy then sourcePixel m qx qy else old));
      [assumption|reflexivity|].
    intros d Hd. exact (drawScreenshot_effect d m Hd Hm). }
  assert (S2 : frameEffect dc (fun old _ _ => darkenPixel 128 <$> old)
            (fun d => fillOverlay d 128)).
  { apply (frameEffect_intro dc
             (fun _ old _ _ => darkenPixel 128 <$> old));
      [assumption|reflexivity|].
    intros d Hd. exact (fillOverlay_effect d 128 Hd). }
  assert (S3 : frameEffect dc (restoredPixel screenshot x1 y1 w h)
            (fun d => clearRegion d x1 y1 w h screenshot)).
  { destruct screenshot as [m|]; [|apply frameEffect_id].
    apply (frameEffect_intro dc
             (fun _ old qx qy =>
                if restored m x1 y1 w h qx qy then sourcePixel m qx qy
                else old));
      [assumption|reflexivity|].
    intros d Hd. apply clearRegion_effect; try assumption;
      unfold screenCoord, w, h; lia. }
  assert (S4 : frameEffect dc
            (fun old qx qy =>
               if borderStamp x1 y1 w h qx qy then Some blue else old)
            (fun d => drawSelectionBorder d x1 y1 w h)).
  { apply (frameEffect_intro dc
             (fun _ old qx qy =>
                if borderStamp x1 y1 w h qx qy then Some blue else old));
      [assumption|reflexivity|].
    intros d Hd. apply drawSelectionBorder_writes; try assumption;
      unfold screenCoord, w, h; lia. }
  assert (S5 : frameEffect dc
            (fun old qx qy =>
               if onHandle x1 y1 w h qx qy then Some blue else old)
            (fun d => drawCornerHandles d x1 y1 w h)).
  { apply (frameEffect_intro dc
             (fun _ old qx qy =>
                if onHandle x1 y1 w h qx qy then Some blue else old));
      [assumption|reflexivity|].
    intros d Hd. apply drawCornerHandles_effect; try assumption;
      unfold screenCoord, w, h; lia. }
  assert (S6 : frameEffect dc
            (fun old qx qy =>
               let text := sizeText sw sh in
               let pillWidth := 7 * len text + 16 in
               let pillY :=
                 if height dc <=? y2 + 8 + 20 then y2 + 8 - 28
                 else y2 + 8 in
               let pillX :=
                 if width dc <=? x1 + pillWidth
                 then width dc - pillWidth - 4 else x1 in
               let pillX := if pillX <? 0 then 4 else pillX in
               if textPixel sizeFont text (pillX + 8) (pillY + 4) qx qy
               then Some white
               else if inRect pillX pillY pillWidth 20 qx qy
               then Some blue
               else old)
            (fun d => drawSizeIndicator d x1 (y2 + 8) sw sh)).
  { apply (frameEffect_intro dc
             (fun d old qx qy =>
                let text := sizeText sw sh in
                let pillWidth := 7 * len text + 16 in
                let pillY :=
                  if height d <=? y2 + 8 + 20 then y2 + 8 - 28
                  else y2 + 8 in
                let pillX :=
                  if width d <=? x1 + pillWidth
                  then width d - pillWidth - 4 else x1 in
                let pillX := if pillX <? 0 then 4 else pillX in
                if textPixel sizeFont text (pillX + 8) (pillY + 4) qx qy
                then Some white
                else if inRect pillX pillY pillWidth 20 qx qy
                then Some blue
                else old));
      [assumption|reflexivity|].
    intros d Hd.
    apply (drawSizeIndicator_effect d x1 (y2 + 8) sw sh); try assumption;
      try apply toInt_range; unfold screenCoord; lia. }
  assert (S7 : frameEffect dc (bannerPixel dc sel)
            (fun d => drawInstructions d sel)).
  { apply (frameEffect_intro dc (fun d => bannerPixel d sel));
      [assumption|reflexivity|].
    intros d Hd. exact (drawInstructions_effect d sel Hd). }
  (* and in sequence *)
  pose proof (frameEffect_bind dc _ _ _ _ S1 S2) as S12.
  unfold overlayPixel, backdropPixel.
  destruct (IsDragging sel).
  - pose proof (frameEffect_bind dc _ _ _ _ S3
                  (frameEffect_bind dc _ _ _ _ S4
                     (frameEffect_bind dc _ _ _ _ S5 S6))) as S36.
    pose proof (frameEffect_bind dc _ _ _ _ S12
                  (frameEffect_bind dc _ _ _ _ S36 S7)) as S.
    intros d Hd. destruct (S d Hd) as (d' & E & Fr & Hp).
    exists d'. split.
    { rewrite <- E. destruct (drawScreenshot d screenshot); reflexivity. }
    split; [assumption|].
    intros qx qy Hq. rewrite (Hp qx qy Hq). unfold selectionPixel.
    cbv zeta. fold x1 y1 x2 y2 w h sw sh.
    repeat match goal with |- context [if ?b then _ else _] =>
      destruct b end; reflexivity.
  - pose proof (frameEffect_bind dc _ _ _ _ S12
                  (frameEffect_bind dc _ _ _ _ (frameEffect_id dc) S7))
      as S.
    intros d Hd. destruct (S d Hd) as (d' & E & Fr & Hp).
    exists d'. split.
    { rewrite <- E. destruct (drawScreenshot d screenshot); reflexivity. }
    split; [assumption|].
    intros qx qy Hq. rewrite (Hp qx qy Hq). reflexivity.
Qed.

(** X19: the frame of [DrawOverlay], pixel by pixel, for a background and
    a selection at screen positions.  The eight drawing steps amount to
    layers, the later over the earlier: the instruction text (white) and
    its pill; for a drag, the size text (white) and its pill (blue), the
    corner handles, the border, and the background restored inside the
    selection; under all of them the darkened background, or the
    darkened old pixel where the background does not reach.  Without a
    background ([nil]) nothing is copied or restored: the old frame is
    darkened once more, the inside of the selection included. *)
Theorem DrawOverlay_layers (dc : DrawContext)
    (screenshot : option image.RGBA) (sel : Selection)
    (scaleRatio : spec_float) :
  validContext dc -> wellFormedBackground screenshot -> onScreen sel ->
  exists dc',
    DrawOverlay dc screenshot sel scaleRatio = Some dc' /\
    sameFrame dc dc' /\
    forall qx qy, inBuffer dc qx qy ->
      pixelAt dc (pixels dc') qx qy =
        overlayPixel dc screenshot sel scaleRatio
          (pixelAt dc (pixels dc) qx qy) qx qy.
Proof.
  intros Hdc Hm Hsel.
  exact (DrawOverlay_effect dc screenshot sel scaleRatio Hdc Hm Hsel dc
           (sameFrame_refl dc)).
Qed.

Lemma DrawOverlay_layers_witness :
  exists dc',
    DrawOverlay bannerContext (Some whiteImage) innerDrag (f64.ofInt 1)
      = Some dc' /\
    pixelAt bannerContext (pixels dc') 0 0 = Some blue /\
    pixelAt bannerContext (pixels dc') 10 10 = Some (pack 255 0 0 0) /\
    pixelAt bannerContext (pixels dc') 0 16 = Some (pack 220 0 0 0).
Proof.
  destruct (DrawOverlay_layers bannerContext (Some whiteImage) innerDrag
              (f64.ofInt 1)) as (dc' & E & _ & Hp).
  - unfold validContext. repeat split; vm_compute; congruence.
  - unfold image.wellFormed. repeat split; vm_compute; congruence.
  - unfold onScreen. repeat split; vm_compute; congruence.
  - exists dc'. split; [exact E|].
    rewrite !Hp by (unfold inBuffer; cbn; lia).
    repeat split; vm_compute; reflexivity.
Defined.

End overlay_proofs.

(** * The virtual desktop *)

Module capture_proofs.

Import GoInt capture capture_spec overlay_proofs.

Lemma fold_widen (s : Displays) (n : nat) :
  boundsAfter s n
    (fold_left (fun acc i => widen (GetDisplayBounds s i) acc)
       (map Z.of_nat (seq 0 n)) (MaxInt32, MaxInt32, MinInt32, MinInt32)).
Proof.
  induction n as [|n IH].
  - cbn. split; [intros i Hi; lia|]. repeat split; left; reflexivity.
  - rewrite seq_S, map_app, fold_left_app. cbn [map fold_left Nat.add].
    destruct (fold_left _ _ _) as [[[minX minY] maxX] maxY].
    destruct IH as (Hall & HminX & HminY & HmaxX & HmaxY).
    unfold widen, boundsAfter.
    set (b := GetDisplayBounds s (Z.of_nat n)) in *.
    assert (Hlast : forall i, 0 <= i < Z.of_nat (S n) ->
              i = Z.of_nat n \/ 0 <= i < Z.of_nat n) by lia.
    assert (Hmore : forall (P : Z -> Prop),
              (exists i, 0 <= i < Z.of_nat n /\ P i) ->
              exists i, 0 <= i < Z.of_nat (S n) /\ P i).
    { intros P (i & Hi & H). exists i. split; [lia|assumption]. }
    split; [|repeat split].
    + intros i Hi. destruct (Hlast i Hi) as [->|Hi'].
      * fold b.
        destruct (Z.ltb_spec (image.MinX b) minX),
          (Z.ltb_spec (image.MinY b) minY),
          (Z.ltb_spec maxX (image.MaxX b)),
          (Z.ltb_spec maxY (image.MaxY b)); lia.
      * specialize (Hall i Hi').
        destruct (Z.ltb_spec (image.MinX b) minX),
          (Z.ltb_spec (image.MinY b) minY),
          (Z.ltb_spec maxX (image.MaxX b)),
          (Z.ltb_spec maxY (image.MaxY b)); lia.
    + destruct (Z.ltb_spec (image.MinX b) minX).
      * right. exists (Z.of_nat n). split; [lia|reflexivity].
      * destruct HminX as [?|H']; [left; assumption|right].
        apply (Hmore (fun i => minX = image.MinX (GetDisplayBounds s i))).
        assumption.
    + destruct (Z.ltb_spec (image.MinY b) minY).
      * right. exists (Z.of_nat n). split; [lia|reflexivity].
      * destruct HminY as [?|H']; [left; assumption|right].
        apply (Hmore (fun i => minY = image.MinY (GetDisplayBounds s i))).
        assumption.
    + destruct (Z.ltb_spec maxX (image.MaxX b)).
      * right. exists (Z.of_nat n). split; [lia|reflexivity].
      * destruct HmaxX as [?|H']; [left; assumption|right].
        apply (Hmore (fun i => maxX = image.MaxX (GetDisplayBounds s i))).
        assumption.
    + destruct (Z.ltb_spec maxY (image.MaxY b)).
      * right. exists (Z.of_nat n). split; [lia|reflexivity].
      * destruct HmaxY as [?|H']; [left; assumption|right].
        apply (Hmore (fun i => maxY = image.MaxY (GetDisplayBounds s i))).
        assumption.
Qed.

(** X20: with at least one display, and every display at 32-bit
    coordinates, [GetVirtualScreenBounds] returns the smallest rectangle
    that contains all displays: no display reaches beyond it, and each
    of its four sides is a side of some display. *)
Theorem GetVirtualScreenBounds_encloses (s : Displays) :
  0 < NumActiveDisplays s ->
  (forall i, 0 <= i < NumActiveDisplays s ->
     int32Rect (GetDisplayBounds s i)) ->
  exists x y w h,
    GetVirtualScreenBounds s = (x, y, w, h) /\
    (forall i, 0 <= i < NumActiveDisplays s ->
       x <= image.MinX (GetDisplayBounds s i) /\
       y <= image.MinY (GetDisplayBounds s i) /\
       image.MaxX (GetDisplayBounds s i) <= x + w /\
       image.MaxY (GetDisplayBounds s i) <= y + h) /\
    (exists i, 0 <= i < NumActiveDisplays s /\
               x = image.MinX (GetDisplayBounds s i)) /\
    (exists i, 0 <= i < NumActiveDisplays s /\
               y = image.MinY (GetDisplayBounds s i)) /\
    (exists i, 0 <= i < NumActiveDisplays s /\
               x + w = image.MaxX (GetDisplayBounds s i)) /\
    (exists i, 0 <= i < NumActiveDisplays s /\
               y + h = image.MaxY (GetDisplayBounds s i)).
Proof.
  intros Hn Hb. unfold GetVirtualScreenBounds. cbv zeta.
  destruct (Z.eqb_spec (NumActiveDisplays s) 0) as [E|_]; [lia|].
  pose proof (fold_widen s (Z.to_nat (NumActiveDisplays s))) as H.
  destruct (fold_left _ _ _) as [[[minX minY] maxX] maxY].
  destruct H as (Hall & HminX & HminY & HmaxX & HmaxY).
  rewrite Z2Nat.id in * by lia.
  destruct (Hall 0 ltac:(lia)) as (A1 & A2 & A3 & A4).
  destruct (Hb 0 ltac:(lia)) as (B1 & B2 & B3 & B4).
  unfold MaxInt32, MinInt32 in *.
  assert (X1 : exists i, 0 <= i < NumActiveDisplays s /\
                         minX = image.MinX (GetDisplayBounds s i)).
  { destruct HminX as [->|H']; [|assumption].
    exists 0. split; lia. }
  assert (Y1 : exists i, 0 <= i < NumActiveDisplays s /\
                         minY = image.MinY (GetDisplayBounds s i)).
  { destruct HminY as [->|H']; [|assumption].
    exists 0. split; lia. }
  assert (X2 : exists i, 0 <= i < NumActiveDisplays s /\
                         maxX = image.MaxX (GetDisplayBounds s i)).
  { destruct HmaxX as [->|H']; [|assumption].
    exists 0. split; lia. }
  assert (Y2 : exists i, 0 <= i < NumActiveDisplays s /\
                         maxY = image.MaxY (GetDisplayBounds s i)).
  { destruct HmaxY as [->|H']; [|assumption].
    exists 0. split; lia. }
  assert (Ew : int (maxX - minX) = maxX - minX).
  { destruct X1 as (i & Hi & ->), X2 as (j & Hj & ->).
    destruct (Hb i Hi) as (? & _), (Hb j Hj) as (_ & _ & ? & _).
    apply int_small. unfold GoInt.minInt, GoInt.maxInt, MaxInt32,
      MinInt32 in *. lia. }
  assert (Eh : int (maxY - minY) = maxY - minY).
  { destruct Y1 as (i & Hi & ->), Y2 as (j & Hj & ->).
    destruct (Hb i Hi) as (_ & ? & _), (Hb j Hj) as (_ & _ & _ & ?).
    apply int_small. unfold GoInt.minInt, GoInt.maxInt, MaxInt32,
      MinInt32 in *. lia. }
  exists minX, minY, (maxX - minX), (maxY - minY).
  rewrite Ew, Eh. split; [reflexivity|].
  replace (minX + (maxX - minX)) with maxX by lia.
  replace (minY + (maxY - minY)) with maxY by lia.
  auto 10.
Qed.

Lemma GetVirtualScreenBounds_encloses_witness :
  exists x y w h,
    GetVirtualScreenBounds twoDisplays = (x, y, w, h) /\
    (forall i, 0 <= i < 2 ->
       x <= image.MinX (GetDisplayBounds twoDisplays i) /\
       y <= image.MinY (GetDisplayBounds twoDisplays i) /\
       image.MaxX (GetDisplayBounds twoDisplays i) <= x + w /\
       image.MaxY (GetDisplayBounds twoDisplays i) <= y + h).
Proof.
  destruct (GetVirtualScreenBounds_encloses twoDisplays)
    as (x & y & w & h & E & Hall & _).
  - reflexivity.
  - intros i Hi. change (NumActiveDisplays twoDisplays) with 2 in Hi.
    assert (Hc : i = 0 \/ i = 1) by lia.
    destruct Hc as [->| ->]; vm_compute; repeat split; congruence.
  - exists x, y, w, h. split; [exact E|exact Hall].
Defined.

End capture_proofs.

(** * The GDI resources *)

Module gdi_proofs.

Import GoInt gdi gdi_spec.

(** X21: no GDI handle is leaked: along every path, whatever the system
    answers, each device context and each bitmap that [NewDrawContext]
    created is deleted, by [NewDrawContext] itself when it fails (the
    device context, when the DIB section cannot be created) and by
    [Cleanup] otherwise; and nothing is deleted that was not
    created. *)
Theorem lifetime_releases_handles (os : System) (screenDC width height : Z) :
  live (lifetime os screenDC width height) [] [] = ([], []) /\
  forall h, In (DeleteDC h) (lifetime os screenDC width height) \/
            In (DeleteObject h) (lifetime os screenDC width height) ->
    h <> 0 /\ (h = createCompatibleDC os \/ h = createDIBSection os).
Proof.
  unfold lifetime, NewDrawContext, Cleanup. cbv zeta.
  destruct (Z.eqb_spec (createCompatibleDC os) 0) as [E|Hdc].
  { cbn. rewrite E. cbn. split; [reflexivity|].
    intros h [[H|[]]|[H|[]]]; discriminate. }
  destruct (Z.eqb_spec (createDIBSection os) 0) as [E|Hbm].
  { cbn. rewrite (proj2 (Z.eqb_neq _ _) Hdc), E. cbn.
    destruct (Z.eq_dec _ _); [|contradiction]. split; [reflexivity|].
    intros h [H|H]; cbn in H;
      repeat (destruct H as [H|H]; try discriminate); try contradiction.
    injection H as <-. auto. }
  cbn [hOldBitmap hBitmap HMemDC].
  rewrite (proj2 (Z.eqb_neq _ _) Hdc), (proj2 (Z.eqb_neq _ _) Hbm).
  cbn [negb]. split.
  - destruct (selectObject os =? 0); cbn;
      rewrite (proj2 (Z.eqb_neq _ _) Hdc), (proj2 (Z.eqb_neq _ _) Hbm);
      cbn; repeat (destruct (Z.eq_dec _ _); [|contradiction]);
      reflexivity.
  - intros h H. rewrite !in_app_iff in H. cbn [In] in H.
    destruct (negb (selectObject os =? 0)); cbn [In] in H;
      repeat match goal with
      | H : _ \/ _ |- _ => destruct H as [H|H]
      | H : False |- _ => destruct H
      | H : DeleteDC _ = DeleteDC _ |- _ => injection H as <-
      | H : DeleteObject _ = DeleteObject _ |- _ => injection H as <-
      | H : _ = _ |- _ => discriminate H
      end; auto.
Qed.

(** X22: for a size that fits 32 bits, a context that [NewDrawContext]
    returns records the size of the DIB section it asked for: the
    header passed to [CreateDIBSection] has the width of the context,
    minus its height (a top-down bitmap) and 32 bits per pixel, on the
    device context that the result holds. *)
Theorem NewDrawContext_header (os : System) (screenDC w h : Z)
    (dc : DrawContext) (t : list call) :
  0 <= w < 2 ^ 31 -> 0 <= h <= 2 ^ 31 ->
  NewDrawContext os screenDC w h = (inl dc, t) ->
  width dc = w /\ height dc = h /\
  HMemDC dc <> 0 /\ hBitmap dc <> 0 /\
  In (CreateDIBSection (HMemDC dc) w (- h) 32 (hBitmap dc)) t.
Proof.
  intros Hw Hh. unfold NewDrawContext. cbv zeta.
  destruct (Z.eqb_spec (createCompatibleDC os) 0) as [E|Hdc];
    [discriminate|].
  destruct (Z.eqb_spec (createDIBSection os) 0) as [E|Hbm];
    [discriminate|].
  intros [= <- <-]. cbn.
  assert (Ew : int32 w = w).
  { unfold int32, uint32. rewrite Z.mod_small by lia.
    destruct (Z.ltb_spec w (2 ^ 31)); lia. }
  assert (Eh : int32 (int (- h)) = - h).
  { assert (Ei : int (- h) = - h).
    { unfold int, uintptr. destruct (Z.eq_dec h 0) as [->|Hne];
        [reflexivity|].
      replace (- h mod 2 ^ 64) with (2 ^ 64 - h)
        by (apply (Z.mod_unique_pos _ _ (-1)); lia).
      destruct (Z.ltb_spec (2 ^ 64 - h) (2 ^ 63)); lia. }
    rewrite Ei. unfold int32, uint32.
    destruct (Z.eq_dec h 0) as [->|Hne]; [reflexivity|].
    replace (- h mod 2 ^ 32) with (2 ^ 32 - h)
      by (apply (Z.mod_unique_pos _ _ (-1)); lia).
    destruct (Z.ltb_spec (2 ^ 32 - h) (2 ^ 31)); lia. }
  rewrite Ew, Eh. auto 10.
Qed.

Lemma NewDrawContext_header_witness :
  exists dc t,
    NewDrawContext healthy 7 1920 1080 = (inl dc, t) /\
    In (CreateDIBSection 1001 1920 (- 1080) 32 2002) t.
Proof.
  eexists _, _. split; [reflexivity|].
  apply (NewDrawContext_header healthy 7 1920 1080 _ _
           ltac:(lia) ltac:(lia) eq_refl).
Defined.

End gdi_proofs.
